(** * Reward-weighted regression trainer for a diffusion policy

    Shallow embedding of [TrainRWRDiffusionAgent.run]
    (src/agent/finetune/train_rwr_diffusion_agent.py) and the theorems
    that relate it to the repository's specification.

    Conventions of the embedding.
    - Python integers are [Z]; [%] and [//] are [Z.modulo] and [Z.div]
      (both floor, sign of the divisor, as in Python) and raise
      [ZeroDivisionError] on a zero divisor.
    - Array dimensions and loop counters of [range] are [nat].
    - numpy/torch floating point numbers are idealised as real numbers [R]:
      no rounding, no overflow, no NaN.  The one float operation of the loop
      body that raises in Python, the power [self.gamma**t] of line 152, is
      a collaborator ([float_pow]) that returns the real power or raises
      [OverflowError].
    - numpy arrays are lists (time-major: a list of rows, one row per step,
      one entry per environment).
    - A Python local variable that may be read before it is assigned is an
      [option]; reading [None] raises [UnboundLocalError].
    - The policy network, the vectorised environment, the optimiser, the
      random shuffle and the clock are collaborators: operations on an
      abstract world state, and every call is recorded in a trace. *)

From Stdlib Require Import ZArith List Lia Reals Lra String Sorting.Sorted Permutation.
From stdpp Require Import base gmap strings.
Import ListNotations.

Local Open Scope Z_scope.

(** ** Python primitives *)

Module Py.

(** Exceptions the loop body can raise. *)
Inductive exn : Type :=
| UnboundLocalError (name : string)
| ZeroDivisionError
| IndexError
| ValueError
| OverflowError.

(** [a % b]. *)
Definition mod_ (a b : Z) : exn + Z :=
  if b =? 0 then inl ZeroDivisionError else inr (a mod b).

(** [a // b]. *)
Definition floordiv (a b : Z) : exn + Z :=
  if b =? 0 then inl ZeroDivisionError else inr (a / b).

(** Clamping of one slice bound into [0 .. n], negative bounds counting
    from the end. *)
Definition slice_bound (n i : Z) : Z :=
  if i <? 0 then Z.max 0 (i + n) else Z.min i n.

(** [l[start:stop]]. *)
Definition slice {A : Type} (l : list A) (start stop : Z) : list A :=
  let n := Z.of_nat (length l) in
  let lo := slice_bound n start in
  let hi := slice_bound n stop in
  firstn (Z.to_nat (hi - lo)) (skipn (Z.to_nat lo) l).

(** [l[:stop]]. *)
Definition slice_to {A : Type} (l : list A) (stop : Z) : list A :=
  slice l 0 stop.

(** [range(n)] for an integer [n]; empty when [n <= 0]. *)
Definition range (n : Z) : list Z :=
  map Z.of_nat (seq 0 (Z.to_nat n)).

End Py.

(** ** Episode segmenter (lines 125-132) *)

Module Segmenter.

(** One completed episode, [(env_ind, start, end)]. *)
Definition segment : Type := (nat * Z * Z)%type.

(** [firsts_trajs[:, env_ind]]. *)
Definition column (firsts_trajs : list (list Z)) (env_ind : nat) : list Z :=
  map (fun row => nth env_ind row 0) firsts_trajs.

(** [np.where(col == 1)[0]], scanning from index [i]. *)
Fixpoint where_eq1_from (i : Z) (col : list Z) : list Z :=
  match col with
  | [] => []
  | x :: col' =>
      if x =? 1 then i :: where_eq1_from (i + 1) col'
      else where_eq1_from (i + 1) col'
  end.

Definition where_eq1 (col : list Z) : list Z := where_eq1_from 0 col.

(** The inner loop over [i in range(len(env_steps) - 1)]: [start] and
    [end] are [env_steps[i]] and [env_steps[i + 1]]. *)
Fixpoint env_episodes (env_ind : nat) (env_steps : list Z) : list segment :=
  match env_steps with
  | [] => []
  | start :: rest =>
      match rest with
      | [] => []
      | end_ :: _ =>
          if 1 <? end_ - start
          then (env_ind, start, end_ - 1) :: env_episodes env_ind rest
          else env_episodes env_ind rest
      end
  end.

(** The outer loop over [env_ind in range(n_envs)]. *)
Definition episodes_start_end (n_envs : nat) (firsts_trajs : list (list Z))
  : list segment :=
  flat_map
    (fun env_ind => env_episodes env_ind (where_eq1 (column firsts_trajs env_ind)))
    (seq 0 n_envs).

End Segmenter.

(** ** Return computer (lines 150-163) *)

Module Returns.

Local Open Scope R_scope.

(** [reward_trajs[start : end + 1, env_ind]]: the rows of the slice, then
    the column of the environment. *)
Definition segment_column {A : Type} (d : A) (trajs : list (list A))
    (seg : Segmenter.segment) : list A :=
  let '(env_ind, start, end_) := seg in
  map (fun row => nth env_ind row d) (Py.slice trajs start (end_ + 1)%Z).

(** [[gamma**t * r for t, r in zip(list(range(n)), rewards)]]. *)
Definition discounted (gamma : R) (n : Z) (rewards : list R) : list R :=
  map (fun tr => gamma ^ (fst tr) * snd tr)
      (combine (seq 0 (Z.to_nat n)) rewards).

(** [np.cumsum]: running sums from the left. *)
Fixpoint cumsum_from (acc : R) (l : list R) : list R :=
  match l with
  | [] => []
  | x :: l' => (acc + x) :: cumsum_from (acc + x) l'
  end.

Definition cumsum (l : list R) : list R :=
  match l with
  | [] => []
  | x :: l' => x :: cumsum_from x l'
  end.

(** [np.cumsum(y[::-1])[::-1]]. *)
Definition returns (y : list R) : list R := rev (cumsum (rev y)).

(** Discounted rewards of one segment (inner comprehension, lines 151-157). *)
Definition segment_discounted (gamma : R) (reward_trajs : list (list R))
    (seg : Segmenter.segment) : list R :=
  let '(env_ind, start, end_) := seg in
  discounted gamma (end_ - start + 1)%Z (segment_column 0 reward_trajs seg).

(** [np.concatenate(returns_trajs_split)] (lines 160-163). *)
Definition returns_trajs_split (gamma : R) (reward_trajs : list (list R))
    (episodes : list Segmenter.segment) : list R :=
  concat (map (fun seg => returns (segment_discounted gamma reward_trajs seg))
              episodes).

End Returns.

(** ** Reward weighter (lines 203-218) *)

Module Weighter.

Local Open Scope R_scope.

(** [np.sum]. *)
Definition sum (l : list R) : R := fold_right Rplus 0 l.

(** [np.mean]. *)
Definition mean (l : list R) : R := sum l / INR (length l).

(** [ndarray.std()] with its default [ddof=0]: the population standard
    deviation, the square root of the mean squared deviation. *)
Definition std (l : list R) : R :=
  sqrt (mean (map (fun x => Rsqr (x - mean l)) l)).

(** The additive constant of line 206. *)
Definition epsilon : R := 1 / 1000.

(** Lines 204-206. *)
Definition normalize (l : list R) : list R :=
  map (fun x => (x - mean l) / (std l + epsilon)) l.

(** [Tensor.clamp_(max=m)]. *)
Definition clamp_max (m x : R) : R := Rmin x m.

(** Lines 215-216: [torch.exp(beta * rewards_k)] then the clamp.  Line 218,
    the division by the mean weight, is commented out in the source and
    has no counterpart here. *)
Definition rewards_k_scaled (beta max_reward_weight : R) (rewards_k : list R)
  : list R :=
  map (fun z => clamp_max max_reward_weight (exp (beta * z))) rewards_k.

(** Lines 204-216 composed. *)
Definition weights (beta max_reward_weight : R) (returns : list R) : list R :=
  rewards_k_scaled beta max_reward_weight (normalize returns).

End Weighter.

(** ** Minibatch schedule of one epoch (lines 227-231) *)

Module Minibatch.

(** [max(1, total_steps // batch_size)]. *)
Definition num_batch (total_steps batch_size : Z) : Py.exn + Z :=
  match Py.floordiv total_steps batch_size with
  | inl e => inl e
  | inr q => inr (Z.max 1 q)
  end.

(** [inds_k[start:end]] with [start = batch * batch_size] and
    [end = start + batch_size]. *)
Definition inds_b {A : Type} (batch_size : Z) (inds_k : list A) (batch : Z)
  : list A :=
  let start := batch * batch_size in
  let end_ := start + batch_size in
  Py.slice inds_k start end_.

(** The index sets of all minibatches of one epoch, from the shuffled
    [inds_k]. *)
Definition epoch_batches {A : Type} (total_steps batch_size : Z)
    (inds_k : list A) : Py.exn + list (list A) :=
  match num_batch total_steps batch_size with
  | inl e => inl e
  | inr nb => inr (map (inds_b batch_size inds_k) (Py.range nb))
  end.

End Minibatch.

(** ** The trainer: data, collaborators and the effect monad *)

Module Trainer.

(** Observation history of one environment, [n_cond_step x obs_dim]. *)
Definition obs : Type := list (list R).
(** Observations of all environments, [n_envs x n_cond_step x obs_dim]. *)
Definition obs_venv : Type := list obs.
(** Sampled action chunk of one environment, [horizon x action_dim]. *)
Definition chunk : Type := list (list R).
(** Sampled chunks of all environments. *)
Definition samples : Type := list chunk.

(** Values stored in the dictionaries of [run_results] and sent to wandb. *)
Inductive value : Type :=
| VInt (z : Z)
| VReal (r : R).

(** [os.path.join(render_dir, f"itr-{itr}_trial-{env_ind}.mp4")]. *)
Inductive video_path : Type :=
| VideoPath (itr : Z) (env_ind : nat).

(** The three formatted messages passed to [log.info]. *)
Inductive log_msg : Type :=
| MsgNoEpisode
| MsgEval (success_rate avg_episode_reward avg_best_reward : R)
| MsgTrain (itr : Z) (loss avg_episode_reward t : R).

(** Calls made to the collaborators, as recorded in the trace. *)
Inductive call : Type :=
| CModelEval
| CModelTrain
| CResetEnvAll (options_venv : list (gmap string video_path))
| CPrint (step : nat)
| CForward (cond : obs_venv) (deterministic : bool)
| CVenvStep (action_venv : samples)
| CLogInfo (m : log_msg)
| CShuffle (inds_k : list nat)
| CLoss (samples_b : list chunk) (obs_b : list obs) (rewards_b : list R)
| CZeroGrad
| CBackward
| CClipGradNorm (max_grad_norm : R)
| COptimizerStep
| CLrSchedulerStep
| CSaveModel
| CWandbLog (payload : gmap string value) (step : Z) (commit : bool)
| CTimer
| CPickleDump (run_results : list (gmap string value)).

(** The collaborators, as operations on a world state [W] that holds the
    environments, the network parameters, the optimiser, the random
    generator and the clock. *)
Class Collaborators (W : Type) : Type := {
  reset_env_all : list (gmap string video_path) -> W -> obs_venv * W;
  model_forward : obs_venv -> bool -> W -> samples * W;
  venv_step : samples -> W -> (obs_venv * list R * list Z) * W;
  model_loss : list chunk -> list obs -> list R -> W -> R * W;
  shuffle : list nat -> W -> list nat * W;
  timer : W -> R * W;
  (** Calls that return nothing. *)
  notify : call -> W -> W;
  (** [g**t] for a Python float [g] and an integer [t >= 0] (line 152): the
      power, or [OverflowError] when it is out of the range of a float.
      Which powers overflow is left open, except that a base of absolute
      value at most 1 never does. *)
  float_pow : R -> nat -> Py.exn + R;
  (** [np.random.shuffle] permutes its argument. *)
  shuffle_perm : forall l w, Permutation l (fst (shuffle l w));
  float_pow_value : forall g t v, float_pow g t = inr v -> v = (g ^ t)%R;
  float_pow_overflow : forall g t e,
      float_pow g t = inl e -> e = Py.OverflowError /\ (1 < Rabs g)%R
}.

(** Fields of [self] read by [run]. *)
Record config : Type := {
  n_train_itr : Z;
  n_envs : nat;
  n_steps : nat;
  n_cond_step : nat;
  obs_dim : nat;
  horizon_steps : nat;
  action_dim : nat;
  act_steps : Z;
  render_freq : Z;
  render_video : bool;
  n_render : nat;
  val_freq : Z;
  force_train : bool;
  reset_at_iteration : bool;
  best_reward_threshold_for_success : R;
  gamma : R;
  beta : R;
  max_reward_weight : R;
  update_epochs : Z;
  batch_size : Z;
  max_grad_norm : option R;
  save_model_freq : Z;
  log_freq : Z;
  use_wandb : bool
}.

(** Local variables of [run] that live across loop iterations, together
    with [self.itr].  [None] is a name that has not been assigned yet. *)
Record locals : Type := {
  itr : Z;
  run_results : list (gmap string value);
  done_venv : list Z;
  last_itr_eval : option bool;
  prev_obs_venv : option obs_venv;
  obs_trajs_split : option (list (list obs));
  samples_trajs_split : option (list (list chunk));
  returns_trajs_split : option (list R);
  loss : option R
}.

(** Buffers of one iteration's rollout. *)
Record rollout : Type := {
  r_prev_obs_venv : option obs_venv;
  r_done_venv : list Z;
  r_obs_trajs : list obs_venv;
  r_samples_trajs : list samples;
  r_reward_trajs : list (list R);
  r_firsts_trajs : list (list Z)
}.

(** Episode metrics of lines 164-183. *)
Record metrics : Type := {
  num_episode_finished : Z;
  avg_episode_reward : R;
  avg_best_reward : R;
  success_rate : R
}.

Section Effects.

Context {W : Type} `{Collaborators W}.

(** What the run has done so far: the world, the calls made, and the
    content of the file at [result_path] ([None] until first written). *)
Record state : Type := {
  world : W;
  trace : list call;
  result_file : option (list (gmap string value))
}.

Inductive outcome (A : Type) : Type :=
| Ok (a : A) (s : state)
| Raise (e : Py.exn) (s : state).
Global Arguments Ok {A} a s.
Global Arguments Raise {A} e s.

Definition M (A : Type) : Type := state -> outcome A.

Definition ret {A : Type} (a : A) : M A := fun s => Ok a s.

Definition bind {A B : Type} (m : M A) (k : A -> M B) : M B :=
  fun s => match m s with
           | Ok a s' => k a s'
           | Raise e s' => Raise e s'
           end.

Definition raise {A : Type} (e : Py.exn) : M A := fun s => Raise e s.

Definition lift {A : Type} (x : Py.exn + A) : M A :=
  match x with inl e => raise e | inr a => ret a end.

(** Reading a local variable. *)
Definition read_local {A : Type} (name : string) (v : option A) : M A :=
  match v with Some a => ret a | None => raise (Py.UnboundLocalError name) end.

(** A call that returns nothing. *)
Definition do_call (c : call) : M unit :=
  fun s => Ok tt {| world := notify c (world s);
                    trace := trace s ++ [c];
                    result_file := result_file s |}.

(** A call that returns a value. *)
Definition ask {A : Type} (c : call) (op : W -> A * W) : M A :=
  fun s => let r := op (world s) in
           Ok (fst r) {| world := snd r;
                         trace := trace s ++ [c];
                         result_file := result_file s |}.

(** [with open(result_path, "wb") as f: pickle.dump(run_results, f)]:
    the file is truncated and then holds the one pickled list. *)
Definition pickle_dump (rr : list (gmap string value)) : M unit :=
  fun s => Ok tt {| world := notify (CPickleDump rr) (world s);
                    trace := trace s ++ [CPickleDump rr];
                    result_file := Some rr |}.

(** [for x in l: body]. *)
Fixpoint for_each {A S : Type} (l : list A) (body : A -> S -> M S) (s0 : S)
  : M S :=
  match l with
  | [] => ret s0
  | x :: l' => bind (body x s0) (for_each l' body)
  end.

(** A list comprehension whose element expression may raise. *)
Fixpoint map_M {A B : Type} (f : A -> M B) (l : list A) : M (list B) :=
  match l with
  | [] => ret []
  | x :: l' => bind (f x) (fun y => bind (map_M f l') (fun ys => ret (y :: ys)))
  end.

Notation "x <- m ;; k" := (bind m (fun x => k))
  (at level 100, m at next level, right associativity).
Notation "m ;;; k" := (bind m (fun _ : unit => k))
  (at level 100, right associativity).

(** *** numpy helpers that can raise *)

(** Shape tests standing for the dimension check of [np.vstack]. *)
Definition shape1 {A : Type} (n : nat) (l : list A) : bool :=
  Nat.eqb (length l) n.
Definition shape2 {A : Type} (n m : nat) (l : list (list A)) : bool :=
  Nat.eqb (length l) n && forallb (shape1 m) l.
Definition shape3 {A : Type} (n m k : nat) (l : list (list (list A))) : bool :=
  Nat.eqb (length l) n && forallb (shape2 m k) l.

(** [np.vstack((trajs, x[None]))], given the outcome of the shape test. *)
Definition vstack {A : Type} (shape_ok : bool) (trajs : list A) (x : A)
  : M (list A) :=
  if shape_ok then ret (trajs ++ [x]) else raise Py.ValueError.

(** The value stored by [firsts_trajs[i] = v] in a row of [n] entries:
    [v] itself when it has [n] entries, broadcast when it has one. *)
Definition broadcast_row (n : nat) (v : list Z) : M (list Z) :=
  if Nat.eqb (length v) n then ret v
  else match v with
       | [x] => ret (repeat x n)
       | _ => raise Py.ValueError
       end.

(** [np.concatenate(l)]. *)
Definition np_concatenate {A : Type} (l : list (list A)) : M (list A) :=
  match l with
  | [] => raise Py.ValueError
  | _ => ret (concat l)
  end.

(** [np.max(l)]. *)
Definition np_max (l : list R) : M R :=
  match l with
  | [] => raise Py.ValueError
  | x :: l' => ret (fold_left Rmax l' x)
  end.

(** [xs[inds]] for an index array [inds]. *)
Definition take_inds {A : Type} (xs : list A) (inds : list nat) : M (list A) :=
  map_M (fun i => match nth_error xs i with
                  | Some x => ret x
                  | None => raise Py.IndexError
                  end) inds.

(** [run_results[-1][key] = v]. *)
Definition set_last (key : string) (v : value) (rr : list (gmap string value))
  : M (list (gmap string value)) :=
  match rev rr with
  | [] => raise Py.IndexError
  | d :: front => ret (rev front ++ [<[key := v]> d])
  end.

Variable cfg : config.

(** *** Lines 61-66: video paths *)

Definition set_video_path (itr_ : Z) (env_ind : nat)
    (options_venv : list (gmap string video_path))
  : M (list (gmap string video_path)) :=
  match nth_error options_venv env_ind with
  | None => raise Py.IndexError
  | Some d =>
      ret (<[env_ind := <["video_path" := VideoPath itr_ env_ind]> d]> options_venv)
  end.

Definition prepare_options (itr_ : Z) : M (list (gmap string video_path)) :=
  let options_venv := repeat (∅ : gmap string video_path) (n_envs cfg) in
  r <- lift (Py.mod_ itr_ (render_freq cfg)) ;;
  if (r =? 0) && render_video cfg
  then for_each (seq 0 (n_render cfg)) (set_video_path itr_) options_venv
  else ret options_venv.

(** *** Line 69: train or eval *)

Definition eval_mode_of (itr_ : Z) : M bool :=
  r <- lift (Py.mod_ itr_ (val_freq cfg)) ;;
  ret ((r =? 0) && negb (force_train cfg)).

(** *** Lines 74-81: reset at the beginning of an iteration *)

(** [self.reset_at_iteration or eval_mode or last_itr_eval]: the third
    operand is read only when the first two are false. *)
Definition reset_decision (eval_mode : bool) (l : locals) : M bool :=
  if reset_at_iteration cfg then ret true
  else if eval_mode then ret true
  else read_local "last_itr_eval" (last_itr_eval l).

Definition begin_rollout (eval_mode : bool)
    (options_venv : list (gmap string video_path)) (l : locals) : M rollout :=
  let firsts_trajs := repeat (repeat 0 (n_envs cfg)) (n_steps cfg + 1) in
  c <- reset_decision eval_mode l ;;
  if c
  then
    o <- ask (CResetEnvAll options_venv) (reset_env_all options_venv) ;;
    ret {| r_prev_obs_venv := Some o;
           r_done_venv := done_venv l;
           r_obs_trajs := [];
           r_samples_trajs := [];
           r_reward_trajs := [];
           r_firsts_trajs := <[0%nat := repeat 1 (n_envs cfg)]> firsts_trajs |}
  else
    row <- broadcast_row (n_envs cfg) (done_venv l) ;;
    ret {| r_prev_obs_venv := prev_obs_venv l;
           r_done_venv := done_venv l;
           r_obs_trajs := [];
           r_samples_trajs := [];
           r_reward_trajs := [];
           r_firsts_trajs := <[0%nat := row]> firsts_trajs |}.

(** *** Lines 96-122: one collection step *)

Definition collect_step (eval_mode : bool) (step : nat) (b : rollout)
  : M rollout :=
  (if (Z.of_nat step mod 10 =? 0) then do_call (CPrint step) else ret tt) ;;;
  prev <- read_local "prev_obs_venv" (r_prev_obs_venv b) ;;
  samples_ <- ask (CForward prev eval_mode) (model_forward prev eval_mode) ;;
  let action_venv := map (fun c => Py.slice_to c (act_steps cfg)) samples_ in
  obs_trajs <- vstack (shape3 (n_envs cfg) (n_cond_step cfg) (obs_dim cfg) prev)
                      (r_obs_trajs b) prev ;;
  samples_trajs <- vstack (shape3 (n_envs cfg) (horizon_steps cfg)
                                  (action_dim cfg) samples_)
                          (r_samples_trajs b) samples_ ;;
  res <- ask (CVenvStep action_venv) (venv_step action_venv) ;;
  let '(obs_venv_, reward_venv, done_venv_) := res in
  reward_trajs <- vstack (shape1 (n_envs cfg) reward_venv)
                         (r_reward_trajs b) reward_venv ;;
  row <- broadcast_row (n_envs cfg) done_venv_ ;;
  ret {| r_prev_obs_venv := Some obs_venv_;
         r_done_venv := done_venv_;
         r_obs_trajs := obs_trajs;
         r_samples_trajs := samples_trajs;
         r_reward_trajs := reward_trajs;
         r_firsts_trajs := <[(step + 1)%nat := row]> (r_firsts_trajs b) |}.

Definition collect (eval_mode : bool) (b : rollout) : M rollout :=
  for_each (seq 0 (n_steps cfg)) (collect_step eval_mode) b.

(** *** Lines 125-184: segmentation and episode metrics *)

(** [[self.gamma**t * r for t, r in zip(list(range(n)), rewards)]] with the
    float power that can raise (lines 151-157); when no power overflows the
    value is [Returns.discounted (gamma cfg) n rewards]. *)
Definition checked_discounted (n : Z) (rewards : list R) : M (list R) :=
  map_M (fun tr => p <- lift (float_pow (gamma cfg) (fst tr)) ;;
                   ret (p * snd tr)%R)
        (combine (seq 0 (Z.to_nat n)) rewards).

Definition checked_segment_discounted (reward_trajs : list (list R))
    (seg : Segmenter.segment) : M (list R) :=
  let '(env_ind, start, end_) := seg in
  checked_discounted (end_ - start + 1) (Returns.segment_column 0%R reward_trajs seg).

Definition summarize (b : rollout) (l : locals) : M (locals * metrics) :=
  let episodes_start_end :=
    Segmenter.episodes_start_end (n_envs cfg) (r_firsts_trajs b) in
  if 0 <? Z.of_nat (length episodes_start_end)
  then
    let obs_split :=
      map (Returns.segment_column [] (r_obs_trajs b)) episodes_start_end in
    let samples_split :=
      map (Returns.segment_column [] (r_samples_trajs b)) episodes_start_end in
    let reward_split :=
      map (Returns.segment_column 0%R (r_reward_trajs b)) episodes_start_end in
    discounted_split <- map_M (checked_segment_discounted (r_reward_trajs b))
                              episodes_start_end ;;
    let returns_ := concat (map Returns.returns discounted_split) in
    let episode_reward := map Weighter.sum reward_split in
    maxes <- map_M np_max reward_split ;;
    let episode_best_reward :=
      map (fun m => (m / IZR (act_steps cfg))%R) maxes in
    let successes :=
      map (fun r => if Rle_dec (best_reward_threshold_for_success cfg) r
                    then 1%R else 0%R) episode_best_reward in
    ret ({| itr := itr l;
            run_results := run_results l;
            done_venv := done_venv l;
            last_itr_eval := last_itr_eval l;
            prev_obs_venv := prev_obs_venv l;
            obs_trajs_split := Some obs_split;
            samples_trajs_split := Some samples_split;
            returns_trajs_split := Some returns_;
            loss := loss l |},
         {| num_episode_finished := Z.of_nat (length reward_split);
            avg_episode_reward := Weighter.mean episode_reward;
            avg_best_reward := Weighter.mean episode_best_reward;
            success_rate := Weighter.mean successes |})
  else
    do_call (CLogInfo MsgNoEpisode) ;;;
    ret (l, {| num_episode_finished := 0;
               avg_episode_reward := 0%R;
               avg_best_reward := 0%R;
               success_rate := 0%R |}).

(** *** Lines 187-248: the update *)

(** Body of the loop over [batch] (lines 229-248); the loop state is the
    variable [loss]. *)
Definition update_batch (obs_k : list obs) (samples_k : list chunk)
    (rewards_k_scaled : list R) (inds_k : list nat) (batch : Z)
    (loss_ : option R) : M (option R) :=
  let inds_b := Minibatch.inds_b (batch_size cfg) inds_k batch in
  obs_b <- take_inds obs_k inds_b ;;
  samples_b <- take_inds samples_k inds_b ;;
  rewards_b <- take_inds rewards_k_scaled inds_b ;;
  ls <- ask (CLoss samples_b obs_b rewards_b)
            (model_loss samples_b obs_b rewards_b) ;;
  do_call CZeroGrad ;;;
  do_call CBackward ;;;
  (match max_grad_norm cfg with
   | Some g => do_call (CClipGradNorm g)
   | None => ret tt
   end) ;;;
  do_call COptimizerStep ;;;
  ret (Some ls).

(** Body of the loop over epochs (lines 226-228); the loop state is
    [inds_k], shuffled in place, and [loss]. *)
Definition update_epoch (obs_k : list obs) (samples_k : list chunk)
    (rewards_k_scaled : list R) (total_steps : Z) (_ : Z)
    (st : list nat * option R) : M (list nat * option R) :=
  inds_k <- ask (CShuffle (fst st)) (shuffle (fst st)) ;;
  num_batch <- lift (Minibatch.num_batch total_steps (batch_size cfg)) ;;
  loss_ <- for_each (Py.range num_batch)
                    (update_batch obs_k samples_k rewards_k_scaled inds_k)
                    (snd st) ;;
  ret (inds_k, loss_).

Definition update (l : locals) : M locals :=
  ots <- read_local "obs_trajs_split" (obs_trajs_split l) ;;
  obs_k <- np_concatenate ots ;;
  sts <- read_local "samples_trajs_split" (samples_trajs_split l) ;;
  samples_k <- np_concatenate sts ;;
  rts <- read_local "returns_trajs_split" (returns_trajs_split l) ;;
  let normalized := Weighter.normalize rts in
  let rewards_k_scaled :=
    Weighter.rewards_k_scaled (beta cfg) (max_reward_weight cfg) normalized in
  let total_steps := Z.of_nat (length rewards_k_scaled) in
  let inds_k := seq 0 (length rewards_k_scaled) in
  st <- for_each (Py.range (update_epochs cfg))
                 (update_epoch obs_k samples_k rewards_k_scaled total_steps)
                 (inds_k, loss l) ;;
  ret {| itr := itr l;
         run_results := run_results l;
         done_venv := done_venv l;
         last_itr_eval := last_itr_eval l;
         prev_obs_venv := prev_obs_venv l;
         obs_trajs_split := obs_trajs_split l;
         samples_trajs_split := samples_trajs_split l;
         returns_trajs_split := Some normalized;
         loss := snd st |}.

(** *** Lines 250-301: scheduler, checkpoint, metrics record *)

Definition log_eval (m : metrics) (l : locals) (rr : list (gmap string value))
  : M (list (gmap string value)) :=
  do_call (CLogInfo (MsgEval (success_rate m) (avg_episode_reward m)
                             (avg_best_reward m))) ;;;
  (if use_wandb cfg
   then do_call (CWandbLog
                   (<["success rate - eval" := VReal (success_rate m)]>
                    (<["avg episode reward - eval" := VReal (avg_episode_reward m)]>
                     (<["avg best reward - eval" := VReal (avg_best_reward m)]>
                      (<["num episode - eval" := VInt (num_episode_finished m)]>
                       ∅))))
                   (itr l) false)
   else ret tt) ;;;
  rr1 <- set_last "eval_success_rate" (VReal (success_rate m)) rr ;;
  rr2 <- set_last "eval_episode_reward" (VReal (avg_episode_reward m)) rr1 ;;
  set_last "eval_best_reward" (VReal (avg_best_reward m)) rr2.

Definition log_train (m : metrics) (l : locals) (rr : list (gmap string value))
  : M (list (gmap string value)) :=
  ls <- read_local "loss" (loss l) ;;
  t <- ask CTimer timer ;;
  do_call (CLogInfo (MsgTrain (itr l) ls (avg_episode_reward m) t)) ;;;
  (if use_wandb cfg
   then do_call (CWandbLog
                   (<["loss" := VReal ls]>
                    (<["avg episode reward - train" := VReal (avg_episode_reward m)]>
                     (<["num episode - train" := VInt (num_episode_finished m)]>
                      ∅)))
                   (itr l) true)
   else ret tt) ;;;
  rr1 <- set_last "loss" (VReal ls) rr ;;
  set_last "train_episode_reward" (VReal (avg_episode_reward m)) rr1.

Definition finish_iteration (eval_mode : bool) (m : metrics) (l : locals)
  : M locals :=
  do_call CLrSchedulerStep ;;;
  r <- lift (Py.mod_ (itr l) (save_model_freq cfg)) ;;
  (if (r =? 0) || (itr l =? n_train_itr cfg - 1)
   then do_call CSaveModel else ret tt) ;;;
  let rr := run_results l ++ [<["itr" := VInt (itr l)]> ∅] in
  lg <- lift (Py.mod_ (itr l) (log_freq cfg)) ;;
  rr' <- (if lg =? 0
          then
            rr1 <- (if eval_mode then log_eval m l rr else log_train m l rr) ;;
            t <- ask CTimer timer ;;
            rr2 <- set_last "time" (VReal t) rr1 ;;
            pickle_dump rr2 ;;;
            ret rr2
          else ret rr) ;;
  ret {| itr := itr l + 1;
         run_results := rr';
         done_venv := done_venv l;
         last_itr_eval := last_itr_eval l;
         prev_obs_venv := prev_obs_venv l;
         obs_trajs_split := obs_trajs_split l;
         samples_trajs_split := samples_trajs_split l;
         returns_trajs_split := returns_trajs_split l;
         loss := loss l |}.

(** *** The loop body (lines 59-301) and the loop *)

Definition run_iteration (l : locals) : M locals :=
  options_venv <- prepare_options (itr l) ;;
  eval_mode <- eval_mode_of (itr l) ;;
  do_call (if eval_mode then CModelEval else CModelTrain) ;;;
  b0 <- begin_rollout eval_mode options_venv l ;;
  b <- collect eval_mode b0 ;;
  let l1 := {| itr := itr l;
               run_results := run_results l;
               done_venv := r_done_venv b;
               last_itr_eval := Some eval_mode;
               prev_obs_venv := r_prev_obs_venv b;
               obs_trajs_split := obs_trajs_split l;
               samples_trajs_split := samples_trajs_split l;
               returns_trajs_split := returns_trajs_split l;
               loss := loss l |} in
  lm <- summarize b l1 ;;
  l2 <- (if eval_mode then ret (fst lm) else update (fst lm)) ;;
  finish_iteration eval_mode (snd lm) l2.

(** The state of the locals when the loop is entered (lines 55-57), with
    [self.itr] as the inherited constructor left it. *)
Definition initial_locals (itr0 : Z) : locals :=
  {| itr := itr0;
     run_results := [];
     done_venv := repeat 0 (n_envs cfg);
     last_itr_eval := None;
     prev_obs_venv := None;
     obs_trajs_split := None;
     samples_trajs_split := None;
     returns_trajs_split := None;
     loss := None |}.

(** [while self.itr < self.n_train_itr]: every completed body adds one to
    [self.itr], so the body runs [n_train_itr - itr] times. *)
Fixpoint run_loop (n : nat) (l : locals) : M locals :=
  match n with
  | O => ret l
  | S n' => l' <- run_iteration l ;; run_loop n' l'
  end.

Definition run (itr0 : Z) : M locals :=
  run_loop (Z.to_nat (n_train_itr cfg - itr0)) (initial_locals itr0).

End Effects.

Arguments state W : clear implicits.
Arguments outcome W A : clear implicits.
Arguments M W A : clear implicits.

End Trainer.

(** ** Vocabulary of the specification *)

Module SegmenterSpec.

(** The boundary marker of environment [env_ind] at row [t] is 1. *)
Definition marked (firsts_trajs : list (list Z)) (env_ind : nat) (t : Z) : Prop :=
  0 <= t < Z.of_nat (length firsts_trajs) /\
  nth env_ind (nth (Z.to_nat t) firsts_trajs []) 0 = 1.

(** [start] and [next_start] are consecutive marked rows of the column of
    [env_ind]: both marked, and no marked row strictly between them. *)
Definition consecutive_starts (firsts_trajs : list (list Z)) (env_ind : nat)
    (start next_start : Z) : Prop :=
  marked firsts_trajs env_ind start /\
  marked firsts_trajs env_ind next_start /\
  start < next_start /\
  forall k, start < k < next_start -> ~ marked firsts_trajs env_ind k.

End SegmenterSpec.

Module TrainerSpec.

Import Trainer.

(** The state reached by an outcome, normal or exceptional. *)
Definition final_state {W A : Type} (o : outcome W A) : state W :=
  match o with Ok _ s => s | Raise _ s => s end.

(** [s'] is reached from [s] by calls that all satisfy [P]; the results
    file changes only by a [pickle.dump]. *)
Definition extends {W : Type} (P : call -> Prop) (s s' : state W) : Prop :=
  exists evs,
    trace s' = trace s ++ evs /\
    List.Forall P evs /\
    ((forall rr, ~ In (CPickleDump rr) evs) -> result_file s' = result_file s).

(** Every call made by [m] satisfies [P], and a normal result satisfies [Q]. *)
Definition sat {W A : Type} (P : call -> Prop) (Q : A -> Prop) (m : M W A)
  : Prop :=
  forall s, extends P s (final_state (m s)) /\
            (forall a s', m s = Ok a s' -> Q a).

(** The calls of the update step that evaluate the policy loss or change
    the gradients or the parameters (lines 237-248). *)
Definition is_update_call (c : call) : bool :=
  match c with
  | CLoss _ _ _ | CZeroGrad | CBackward | CClipGradNorm _ | COptimizerStep => true
  | _ => false
  end.

(** The weight batches of the [model.loss] calls of a trace, in order. *)
Definition loss_weights (evs : list call) : list (list R) :=
  flat_map (fun c => match c with CLoss _ _ rewards_b => [rewards_b] | _ => [] end)
           evs.

(** The part of the loop body a call belongs to: the rollout (lines 59-122),
    the episode summary (125-184), the update (187-248) and the epilogue
    (250-301). *)
Inductive phase : Type := Rollout | Summary | Update | Epilogue.

Definition phase_of (c : call) : phase :=
  match c with
  | CModelEval | CModelTrain | CResetEnvAll _ | CPrint _ | CForward _ _
  | CVenvStep _ => Rollout
  | CLogInfo MsgNoEpisode => Summary
  | CShuffle _ | CLoss _ _ _ | CZeroGrad | CBackward | CClipGradNorm _
  | COptimizerStep => Update
  | CLogInfo _ | CLrSchedulerStep | CSaveModel | CWandbLog _ _ _ | CTimer
  | CPickleDump _ => Epilogue
  end.

(** Some update call follows the no-episode warning in a trace. *)
Fixpoint update_after_warning (evs : list call) : bool :=
  match evs with
  | [] => false
  | CLogInfo MsgNoEpisode :: rest => existsb is_update_call rest
  | _ :: rest => update_after_warning rest
  end.

(** The keys a logged record carries besides ["itr"] and ["time"], by mode. *)
Definition mode_metrics (eval_mode : bool) (m : metrics) (l : locals)
    (record : gmap string value) : Prop :=
  if eval_mode
  then record !! "eval_success_rate" = Some (VReal (success_rate m)) /\
       record !! "eval_episode_reward" = Some (VReal (avg_episode_reward m)) /\
       record !! "eval_best_reward" = Some (VReal (avg_best_reward m))
  else exists ls, loss l = Some ls /\
       record !! "loss" = Some (VReal ls) /\
       record !! "train_episode_reward" = Some (VReal (avg_episode_reward m)).

(** The action arguments of the [venv.step] calls of a trace, in order. *)
Definition step_actions (evs : list call) : list samples :=
  flat_map (fun c => match c with CVenvStep a => [a] | _ => [] end) evs.

(** The world in which the policy is sampled at [step]: the progress
    message of every tenth step has been printed. *)
Definition world_at_sampling {W : Type} `{Collaborators W} (step : nat)
    (s : state W) : W :=
  if Z.of_nat step mod 10 =? 0 then notify (CPrint step) (world s) else world s.

(** The call that rewrites the results file. *)
Definition is_dump (c : call) : bool :=
  match c with CPickleDump _ => true | _ => false end.

(** [l'] has the iteration counter and the result list of [l]. *)
Definition same_log (l l' : locals) : Prop :=
  itr l' = itr l /\ run_results l' = run_results l.

End TrainerSpec.

(** ** A small deterministic world for concrete runs *)

Module Toy.

Import Trainer.

Definition toy_obs : obs := [[0%R]].
Definition toy_chunk : chunk := [[1%R]; [2%R]].

(** The world state is the schedule of done flags still to come, one row
    per environment step; every reward is 1, the shuffle reverses, the
    loss is the sum of the weights of the batch, the clock stands still and
    no power overflows. *)
#[export] Instance toy : Collaborators (list (list Z)) := {|
  reset_env_all := fun opts w => (map (fun _ => toy_obs) opts, w);
  model_forward := fun cond _ w => (map (fun _ => toy_chunk) cond, w);
  venv_step := fun actions w =>
    match w with
    | [] => ((map (fun _ => toy_obs) actions, map (fun _ => 1%R) actions,
              map (fun _ => 0) actions), [])
    | d :: w' => ((map (fun _ => toy_obs) actions, map (fun _ => 1%R) actions, d), w')
    end;
  model_loss := fun _ _ rewards_b w => (Weighter.sum rewards_b, w);
  shuffle := fun l w => (rev l, w);
  timer := fun w => (0%R, w);
  notify := fun _ w => w;
  float_pow := fun g t => inr (g ^ t)%R;
  shuffle_perm := fun l _ => Permutation_rev l;
  float_pow_value := fun g t v E =>
    eq_sym (f_equal (fun x : Py.exn + R => match x with inr y => y | inl _ => v end) E);
  float_pow_overflow := fun g t e E =>
    match eq_ind (inr (g ^ t)%R : Py.exn + R)
                 (fun x => match x with inr _ => True | inl _ => False end)
                 I (inl e) E
    with end
|}.

(** One environment, three steps per iteration, observations of shape
    [1 x 1], chunks of two actions of which one is applied, no rendering,
    one update epoch, checkpoint every iteration. *)
Definition config_ (val_freq_ : Z) (force_train_ reset_at_iteration_ : bool)
    (batch_size_ log_freq_ : Z) : config :=
  {| n_train_itr := 2; n_envs := 1; n_steps := 3;
     n_cond_step := 1; obs_dim := 1; horizon_steps := 2; action_dim := 1;
     act_steps := 1; render_freq := 1; render_video := false; n_render := 0;
     val_freq := val_freq_; force_train := force_train_;
     reset_at_iteration := reset_at_iteration_;
     best_reward_threshold_for_success := 1%R;
     gamma := 1%R; beta := 1%R; max_reward_weight := 100%R;
     update_epochs := 1; batch_size := batch_size_; max_grad_norm := None;
     save_model_freq := 1; log_freq := log_freq_; use_wandb := false |}.

(** Every iteration evaluates ([val_freq = 1], no [force_train]) and logs. *)
Definition eval_cfg : config := config_ 1 false false 4 1.

(** Every iteration trains ([force_train]) after a full reset
    ([reset_at_iteration]), with [batch_size = 4], and logs. *)
Definition train_cfg : config := config_ 1 true true 4 1.

(** As [train_cfg], without [reset_at_iteration]. *)
Definition no_reset_cfg : config := config_ 1 true false 4 1.

(** As [eval_cfg], logging every second iteration ([log_freq = 2]). *)
Definition sparse_log_cfg : config := config_ 1 false false 4 2.

(** The state before the first call, with the given done schedule. *)
Definition start (schedule : list (list Z)) : state (list (list Z)) :=
  {| world := schedule; trace := []; result_file := None |}.

End Toy.

(** ** Vocabulary for the properties of the stages and of the whole run *)

Module RunSpec.

Import Trainer.

(** [seg1] comes before [seg2] in the segment list: an earlier environment,
    or the same environment and an episode that has ended before the other
    starts. *)
Definition seg_before (seg1 seg2 : Segmenter.segment) : Prop :=
  let '(e1, _, end1) := seg1 in
  let '(e2, start2, _) := seg2 in
  (e1 < e2)%nat \/ (e1 = e2 /\ end1 < start2).

(** The calls that follow each [model.loss] call (lines 242-248). *)
Definition after_loss (cfg : config) : list call :=
  [CZeroGrad; CBackward]
  ++ match max_grad_norm cfg with
     | Some g => [CClipGradNorm g]
     | None => []
     end
  ++ [COptimizerStep].

(** The wandb call of a logging iteration, if any (lines 268-278, 286-295). *)
Definition wandb_calls (evs : list call) : list (Z * bool) :=
  flat_map (fun c => match c with CWandbLog _ step commit => [(step, commit)]
                             | _ => [] end) evs.

(** The [deterministic] arguments of the policy calls of a trace. *)
Definition forward_flags (evs : list call) : list bool :=
  flat_map (fun c => match c with CForward _ d => [d] | _ => [] end) evs.

(** The calls that switch the policy between train and eval mode. *)
Definition mode_calls (evs : list call) : list call :=
  List.filter
    (fun c => match c with CModelEval | CModelTrain => true | _ => false end) evs.

(** The buffers of a completed rollout: [n_steps] rows of observations,
    samples and rewards, [n_steps + 1] rows of [n_envs] boundary markers. *)
Definition rollout_shaped (cfg : config) (b : rollout) : Prop :=
  length (r_obs_trajs b) = n_steps cfg /\
  length (r_samples_trajs b) = n_steps cfg /\
  length (r_reward_trajs b) = n_steps cfg /\
  length (r_firsts_trajs b) = S (n_steps cfg) /\
  List.Forall (fun row => length row = n_envs cfg) (r_firsts_trajs b).

(** The Python call a trace entry stands for. *)
Definition call_name (c : call) : string :=
  match c with
  | CModelEval => "model.eval"
  | CModelTrain => "model.train"
  | CResetEnvAll _ => "reset_env_all"
  | CPrint _ => "print"
  | CForward _ _ => "model"
  | CVenvStep _ => "venv.step"
  | CLogInfo _ => "log.info"
  | CShuffle _ => "np.random.shuffle"
  | CLoss _ _ _ => "model.loss"
  | CZeroGrad => "optimizer.zero_grad"
  | CBackward => "loss.backward"
  | CClipGradNorm _ => "clip_grad_norm_"
  | COptimizerStep => "optimizer.step"
  | CLrSchedulerStep => "lr_scheduler.step"
  | CSaveModel => "save_model"
  | CWandbLog _ _ _ => "wandb.log"
  | CTimer => "timer"
  | CPickleDump _ => "pickle.dump"
  end.

(** How many calls of a trace are calls of [name]. *)
Definition count_name (name : string) (evs : list call) : nat :=
  count_occ string_dec (map call_name evs) name.

(** The condition of line 254. *)
Definition saves_model (cfg : config) (itr_ : Z) : bool :=
  (itr_ mod save_model_freq cfg =? 0) || (itr_ =? n_train_itr cfg - 1).

(** The names of the calls of lines 250-300, in order, for an iteration in
    the given mode. *)
Definition epilogue_names (cfg : config) (eval_mode : bool) (itr_ : Z)
  : list string :=
  ["lr_scheduler.step"]
  ++ (if saves_model cfg itr_ then ["save_model"] else [])
  ++ (if itr_ mod log_freq cfg =? 0
      then (if eval_mode then ["log.info"] else ["timer"; "log.info"])
           ++ (if use_wandb cfg then ["wandb.log"] else [])
           ++ ["timer"; "pickle.dump"]
      else []).

(** The mode of the iteration with counter [itr_] (line 69). *)
Definition eval_mode_at (cfg : config) (itr_ : Z) : bool :=
  (itr_ mod val_freq cfg =? 0) && negb (force_train cfg).

(** The value of the condition of line 74 when it can be evaluated. *)
Definition resets (cfg : config) (eval_mode : bool) (l : locals) : bool :=
  reset_at_iteration cfg || eval_mode
  || match last_itr_eval l with Some true => true | _ => false end.

(** The names of the calls of one minibatch (lines 237-248). *)
Definition batch_names (cfg : config) : list string :=
  "model.loss" :: map call_name (after_loss cfg).

(** The names of the calls of one epoch over [total_steps] transitions
    (lines 226-248). *)
Definition epoch_names (cfg : config) (total_steps : Z) : list string :=
  "np.random.shuffle"
  :: concat (repeat (batch_names cfg)
                    (Z.to_nat (Z.max 1 (total_steps / batch_size cfg)))).

(** The names of the calls of the whole update (lines 223-248). *)
Definition update_names (cfg : config) (total_steps : Z) : list string :=
  concat (repeat (epoch_names cfg total_steps) (Z.to_nat (update_epochs cfg))).

(** A [model.loss] call whose three arguments are the rows of [samples_k],
    [obs_k] and [rewards_k_scaled] at one list of distinct valid indices. *)
Definition coindexed_loss (obs_k : list obs) (samples_k : list chunk)
    (rewards_k_scaled : list R) (c : call) : Prop :=
  match c with
  | CLoss samples_b obs_b rewards_b =>
      exists inds_b : list nat,
        List.NoDup inds_b /\
        List.Forall (fun i => (i < length rewards_k_scaled)%nat) inds_b /\
        samples_b = map (fun i => nth i samples_k []) inds_b /\
        obs_b = map (fun i => nth i obs_k []) inds_b /\
        rewards_b = map (fun i => nth i rewards_k_scaled 0%R) inds_b
  | _ => True
  end.

(** What the results file holds of the in-memory list when the counter is
    [itr l]: nothing while no iteration from [lo] on has logged, otherwise
    everything but the records of the iterations after the last multiple
    of [log_freq]. *)
Definition file_lags {W : Type} (cfg : config) (lo : Z) (l : locals)
    (s : state W) : Prop :=
  match result_file s with
  | Some rr =>
      exists rest, run_results l = rr ++ rest /\
                   Z.of_nat (length rest) = (itr l - 1) mod Z.abs (log_freq cfg)
  | None => forall k, lo <= k < itr l -> k mod log_freq cfg <> 0
  end.

(** The rows of a segment, [start], ..., [end]. *)
Definition segment_steps (seg : Segmenter.segment) : list Z :=
  let '(_, start, end_) := seg in
  map (fun i => start + Z.of_nat i) (seq 0 (Z.to_nat (end_ - start + 1))).

(** The transitions of a list of segments in the order of the flattened
    arrays: each one is a segment and a row of it. *)
Definition transitions (segs : list Segmenter.segment)
  : list (Segmenter.segment * Z) :=
  flat_map (fun seg => map (fun t => (seg, t)) (segment_steps seg)) segs.

(** [trajs[t, env_ind]] for the environment and the row of a transition. *)
Definition at_transition {A : Type} (d : A) (trajs : list (list A))
    (tr : Segmenter.segment * Z) : A :=
  let '((env_ind, _, _), t) := tr in
  nth env_ind (nth (Z.to_nat t) trajs []) d.

(** The return of a transition: the rewards of its environment from its
    row to the end of its segment, each discounted by its distance from
    the start of the segment. *)
Definition return_to_go (gamma : R) (reward_trajs : list (list R))
    (tr : Segmenter.segment * Z) : R :=
  let '((env_ind, start, end_), t) := tr in
  Weighter.sum
    (map (fun u => (gamma ^ Z.to_nat (u - start)
                    * nth env_ind (nth (Z.to_nat u) reward_trajs []) 0)%R)
         (map (fun i => t + Z.of_nat i) (seq 0 (Z.to_nat (end_ - t + 1))))).

End RunSpec.

(** ** What the run relies on from its collaborators *)

Module Contract.

Import Trainer RunSpec.

(** From a state whose world satisfies [good], [m] either returns a value
    satisfying [Q] in a world that satisfies [good] again, or raises an
    exception satisfying [E]. *)
Definition yields {W A : Type} (good : W -> Prop) (E : Py.exn -> Prop)
    (Q : A -> Prop) (m : M W A) : Prop :=
  forall s, good (world s) ->
            match m s with
            | Ok a s' => good (world s') /\ Q a
            | Raise e _ => E e
            end.

Definition obs_shaped (cfg : config) (o : obs_venv) : Prop :=
  shape3 (n_envs cfg) (n_cond_step cfg) (obs_dim cfg) o = true.

Definition samples_shaped (cfg : config) (x : samples) : Prop :=
  shape3 (n_envs cfg) (horizon_steps cfg) (action_dim cfg) x = true.

(** What [run] relies on from the policy, the environment and the other
    collaborators: in a world satisfying [good] they return arrays of the
    configured shapes and leave a world satisfying [good]. *)
Record well_shaped {W : Type} `{Collaborators W} (cfg : config)
    (good : W -> Prop) : Prop := {
  ws_notify : forall c w, good w -> good (notify c w);
  ws_reset : forall opts w,
      good w -> length opts = n_envs cfg ->
      obs_shaped cfg (fst (reset_env_all opts w)) /\
      good (snd (reset_env_all opts w));
  ws_forward : forall cond d w,
      good w -> obs_shaped cfg cond ->
      samples_shaped cfg (fst (model_forward cond d w)) /\
      good (snd (model_forward cond d w));
  ws_step : forall a w,
      good w -> length a = n_envs cfg ->
      obs_shaped cfg (fst (fst (fst (venv_step a w)))) /\
      length (snd (fst (fst (venv_step a w)))) = n_envs cfg /\
      length (snd (fst (venv_step a w))) = n_envs cfg /\
      good (snd (venv_step a w));
  ws_loss : forall x y z w, good w -> good (snd (model_loss x y z w));
  ws_shuffle : forall l w, good w -> good (snd (shuffle l w));
  ws_timer : forall w, good w -> good (snd (timer w))
}.

(** The carried values of a rollout whose next step can run: the last
    done flags have one entry per environment and the last observation is
    bound and of the configured shape. *)
Definition rollout_ready (cfg : config) (b : rollout) : Prop :=
  length (r_done_venv b) = n_envs cfg /\
  exists prev, r_prev_obs_venv b = Some prev /\ obs_shaped cfg prev.

(** The configuration values that would raise outside any mode-specific
    code: zero frequencies, more rendered environments than environments,
    a zero batch size. *)
Definition valid_config (cfg : config) : Prop :=
  render_freq cfg <> 0 /\ val_freq cfg <> 0 /\ save_model_freq cfg <> 0 /\
  log_freq cfg <> 0 /\ (n_render cfg <= n_envs cfg)%nat /\ batch_size cfg <> 0.

(** The three arrays of the update are all unbound, or all bound, non-empty
    and of equal flattened length. *)
Definition splits_coindexed (l : locals) : Prop :=
  match obs_trajs_split l, samples_trajs_split l, returns_trajs_split l with
  | Some os, Some ss, Some rs =>
      os <> [] /\ ss <> [] /\
      length (concat os) = length rs /\ length (concat ss) = length rs
  | None, None, None => True
  | _, _, _ => False
  end.

(** The locals between two iterations. *)
Definition ready (cfg : config) (l : locals) : Prop :=
  length (done_venv l) = n_envs cfg /\
  (is_Some (last_itr_eval l) ->
   exists prev, prev_obs_venv l = Some prev /\ obs_shaped cfg prev) /\
  splits_coindexed l.

(** The exceptions of the loop body that are reads of a local variable
    before its assignment, with the circumstances of each. *)
Definition unbound_read (cfg : config) (l : locals) (e : Py.exn) : Prop :=
  (e = Py.UnboundLocalError "last_itr_eval" /\
   reset_at_iteration cfg = false /\ last_itr_eval l = None) \/
  (e = Py.UnboundLocalError "obs_trajs_split" /\ obs_trajs_split l = None) \/
  (e = Py.UnboundLocalError "loss" /\
   update_epochs cfg <= 0 /\ loss l = None /\ itr l mod log_freq cfg = 0).

End Contract.

(** ** More concrete data for [Toy] *)

Module ToyData.

Import Trainer Toy.

(** Rendering on, two of three environments recorded, every second
    iteration. *)
Definition render_cfg : config :=
  {| n_train_itr := 2; n_envs := 3; n_steps := 3;
     n_cond_step := 1; obs_dim := 1; horizon_steps := 2; action_dim := 1;
     act_steps := 1; render_freq := 2; render_video := true; n_render := 2;
     val_freq := 1; force_train := false; reset_at_iteration := false;
     best_reward_threshold_for_success := 1%R;
     gamma := 1%R; beta := 1%R; max_reward_weight := 100%R;
     update_epochs := 1; batch_size := 4; max_grad_norm := None;
     save_model_freq := 1; log_freq := 1; use_wandb := false |}.

(** The buffers of a rollout of [train_cfg] in which the environment was
    done after the second step: one episode, rows 0 and 1. *)
Definition toy_rollout : rollout :=
  {| r_prev_obs_venv := Some [toy_obs];
     r_done_venv := [0];
     r_obs_trajs := [[toy_obs]; [toy_obs]; [toy_obs]];
     r_samples_trajs := [[toy_chunk]; [toy_chunk]; [toy_chunk]];
     r_reward_trajs := [[1%R]; [1%R]; [1%R]];
     r_firsts_trajs := [[1]; [0]; [1]; [0]] |}.

(** The locals after the summary of [toy_rollout] in the first iteration. *)
Definition toy_locals : locals :=
  {| itr := 0;
     run_results := [];
     done_venv := [0];
     last_itr_eval := Some false;
     prev_obs_venv := Some [toy_obs];
     obs_trajs_split := Some [[toy_obs; toy_obs]];
     samples_trajs_split := Some [[toy_chunk; toy_chunk]];
     returns_trajs_split := Some [2%R; 1%R];
     loss := None |}.

Definition zero_metrics : metrics :=
  {| num_episode_finished := 0; avg_episode_reward := 0%R;
     avg_best_reward := 0%R; success_rate := 0%R |}.

(** The worlds of [Toy] in which every row of the done schedule has one
    entry, as many as the configurations of [config_] have environments. *)
Definition toy_good (w : list (list Z)) : Prop :=
  List.Forall (fun row => length row = 1%nat) w.

End ToyData.

(** * Theorems *)

(** ** Episode segmenter *)

Import Segmenter SegmenterSpec.

Lemma where_eq1_from_In (col : list Z) : forall i x,
  In x (where_eq1_from i col) <->
  i <= x < i + Z.of_nat (length col) /\ nth (Z.to_nat (x - i)) col 0 = 1.
Proof.
  induction col as [|c col IH]; intros i x; simpl.
  - split; [tauto | lia].
  - destruct (Z.eqb_spec c 1) as [Hc|Hc]; simpl; rewrite IH.
    + split.
      * intros [<-|[Hr Hn]].
        -- split; [lia|]. now rewrite Z.sub_diag.
        -- split; [lia|]. replace (Z.to_nat (x - i)) with (S (Z.to_nat (x - (i + 1)))) by lia.
           exact Hn.
      * intros [Hr Hn]. destruct (Z.eq_dec i x) as [->|Hne]; [now left|right].
        split; [lia|].
        replace (Z.to_nat (x - i)) with (S (Z.to_nat (x - (i + 1)))) in Hn by lia.
        exact Hn.
    + split.
      * intros [Hr Hn]. split; [lia|].
        replace (Z.to_nat (x - i)) with (S (Z.to_nat (x - (i + 1)))) by lia. exact Hn.
      * intros [Hr Hn]. destruct (Z.eq_dec i x) as [->|Hne].
        -- rewrite Z.sub_diag in Hn. simpl in Hn. contradiction.
        -- split; [lia|].
           replace (Z.to_nat (x - i)) with (S (Z.to_nat (x - (i + 1)))) in Hn by lia.
           exact Hn.
Qed.

Lemma where_eq1_from_sorted (col : list Z) : forall i,
  StronglySorted Z.lt (where_eq1_from i col).
Proof.
  induction col as [|c col IH]; intros i; simpl; [constructor|].
  destruct (c =? 1); [|apply IH].
  constructor; [apply IH|].
  apply List.Forall_forall. intros x Hx. apply where_eq1_from_In in Hx. lia.
Qed.

Lemma column_marked (firsts_trajs : list (list Z)) (e : nat) (x : Z) :
  In x (where_eq1 (column firsts_trajs e)) <-> marked firsts_trajs e x.
Proof.
  unfold where_eq1, marked. rewrite where_eq1_from_In.
  unfold column. rewrite length_map, Z.sub_0_r.
  assert (Hn : forall k, nth k (map (fun row => nth e row 0) firsts_trajs) 0
                         = nth e (nth k firsts_trajs []) 0).
  { intro k. rewrite <- (map_nth (fun row => nth e row 0) firsts_trajs [] k).
    f_equal. destruct e; reflexivity. }
  rewrite Hn.
  split; intros [? ?]; split; auto; lia.
Qed.

Lemma env_episodes_In (e : nat) (L : list Z) :
  StronglySorted Z.lt L ->
  forall e' s t,
    In (e', s, t) (env_episodes e L) <->
    e' = e /\ In s L /\ In (t + 1) L /\ s < t + 1 /\
    (forall k, s < k < t + 1 -> ~ In k L) /\ (t + 1) - s > 1.
Proof.
  induction L as [|a L IH]; intros HS e' s t.
  - simpl. tauto.
  - destruct L as [|b r].
    + simpl. split; [tauto|]. intros (_ & [<-|[]] & [Ht|[]] & Hlt & _). lia.
    + inversion HS as [|? ? HS' Hall]; subst.
      assert (Hab : a < b) by (inversion Hall; assumption).
      assert (Hbr : forall x, In x (b :: r) -> b <= x).
      { intros x [<-|Hx]; [lia|]. inversion HS' as [|? ? _ Hb]; subst.
        rewrite List.Forall_forall in Hb. specialize (Hb x Hx). lia. }
      assert (Har : forall x, In x (b :: r) -> a < x).
      { intros x Hx. specialize (Hbr x Hx). lia. }
      specialize (IH HS' e' s t).
      change (env_episodes e (a :: b :: r))
        with (if 1 <? b - a then (e, a, b - 1) :: env_episodes e (b :: r)
              else env_episodes e (b :: r)).
      assert (Hrest :
        In (e', s, t) (env_episodes e (b :: r)) <->
        e' = e /\ In s (a :: b :: r) /\ In (t + 1) (a :: b :: r) /\ s < t + 1 /\
        (forall k, s < k < t + 1 -> ~ In k (a :: b :: r)) /\ t + 1 - s > 1 /\ s <> a).
      { rewrite IH. split.
        - intros (He & Hs & Ht & Hlt & Hno & Hlen).
          pose proof (Har s Hs).
          repeat split; auto; try (right; assumption); try lia.
          intros k Hk [<-|Hin]; [lia|]. exact (Hno k Hk Hin).
        - intros (He & Hs & Ht & Hlt & Hno & Hlen & Hne).
          destruct Hs as [Hs|Hs]; [congruence|].
          pose proof (Har s Hs).
          destruct Ht as [Ht|Ht]; [lia|].
          repeat split; auto.
          intros k Hk Hin. apply (Hno k Hk). right. exact Hin. }
      assert (Hhead :
        (e', s, t) = (e, a, b - 1) /\ b - a > 1 <->
        e' = e /\ In s (a :: b :: r) /\ In (t + 1) (a :: b :: r) /\ s < t + 1 /\
        (forall k, s < k < t + 1 -> ~ In k (a :: b :: r)) /\ t + 1 - s > 1 /\ s = a).
      { split.
        - intros [Heq Hlen]. inversion Heq; subst.
          replace (b - 1 + 1) with b by lia.
          repeat split; auto; try lia; [now left | right; now left |].
          intros k Hk [<-|Hin]; [lia|]. specialize (Hbr k Hin). lia.
        - intros (He & Hs & Ht & Hlt & Hno & Hlen & Ha). subst s e'.
          destruct Ht as [Ht|Ht]; [lia|].
          destruct (Z.eq_dec (t + 1) b) as [Hb|Hb].
          + split; [f_equal; lia | lia].
          + exfalso. pose proof (Hbr _ Ht). apply (Hno b); [lia|]. right; now left. }
      destruct (Z.ltb_spec 1 (b - a)) as [Hgt|Hle].
      * change (In (e', s, t) ((e, a, b - 1) :: env_episodes e (b :: r)))
          with ((e, a, b - 1) = (e', s, t) \/ In (e', s, t) (env_episodes e (b :: r))).
        rewrite Hrest. split.
        -- intros [Heq|H'].
           ++ assert (H2 : (e', s, t) = (e, a, b - 1) /\ b - a > 1) by (split; [congruence|lia]).
              apply Hhead in H2. tauto.
           ++ tauto.
        -- intros H'. destruct (Z.eq_dec s a) as [Hsa|Hsa].
           ++ left. assert (H2 : (e', s, t) = (e, a, b - 1) /\ b - a > 1) by (apply Hhead; tauto).
              destruct H2 as [H2 _]. congruence.
           ++ right. tauto.
      * rewrite Hrest. split; [tauto|].
        intros H'. destruct (Z.eq_dec s a) as [Hsa|Hsa]; [|tauto].
        assert (H2 : (e', s, t) = (e, a, b - 1) /\ b - a > 1) by (apply Hhead; tauto).
        lia.
Qed.

Lemma env_episodes_NoDup (e : nat) (L : list Z) :
  StronglySorted Z.lt L -> List.NoDup (env_episodes e L).
Proof.
  induction L as [|a L IH]; intros HS; [constructor|].
  destruct L as [|b r]; [constructor|].
  inversion HS as [|? ? HS' Hall]; subst.
  change (env_episodes e (a :: b :: r))
    with (if 1 <? b - a then (e, a, b - 1) :: env_episodes e (b :: r)
          else env_episodes e (b :: r)).
  destruct (1 <? b - a); [|auto].
  constructor; [|auto].
  intros Hin. apply (env_episodes_In e (b :: r) HS') in Hin.
  destruct Hin as (_ & Ha & _).
  rewrite List.Forall_forall in Hall. specialize (Hall a Ha). lia.
Qed.

Lemma flat_map_NoDup {B : Type} (tag : B -> nat) (f : nat -> list B)
    (es : list nat) :
  List.NoDup es ->
  (forall e, List.NoDup (f e)) ->
  (forall e x, In x (f e) -> tag x = e) ->
  List.NoDup (flat_map f es).
Proof.
  intros Hes Hf Htag. induction Hes as [|e es Hnotin Hes IH]; simpl; [constructor|].
  apply List.NoDup_app; auto.
  intros x Hx Hx'. apply in_flat_map in Hx'. destruct Hx' as (e' & He' & Hx').
  apply Htag in Hx, Hx'. subst. contradiction.
Qed.

(** C2.  For every boundary matrix the segmenter emits [(env, start, end)]
    exactly when [env] is one of the [n_envs] columns, [start] and [end + 1]
    are consecutive marked rows of that column and [end + 1 - start > 1]; no
    segment is emitted twice.  For one environment with boundary vector
    [1,0,0,1,1,0,1] it emits [(0,0,2)] and [(0,4,5)], and not [(0,3,3)]. *)
Theorem episodes_start_end_spec (n_envs : nat) (firsts_trajs : list (list Z)) :
  (forall env_ind start end_,
      In (env_ind, start, end_) (episodes_start_end n_envs firsts_trajs) <->
      (env_ind < n_envs)%nat /\
      consecutive_starts firsts_trajs env_ind start (end_ + 1) /\
      (end_ + 1) - start > 1) /\
  List.NoDup (episodes_start_end n_envs firsts_trajs) /\
  episodes_start_end 1 [[1]; [0]; [0]; [1]; [1]; [0]; [1]]
    = [(0%nat, 0, 2); (0%nat, 4, 5)] /\
  ~ In (0%nat, 3, 3) (episodes_start_end 1 [[1]; [0]; [0]; [1]; [1]; [0]; [1]]).
Proof.
  split; [|split; [|split]].
  - intros e s t. unfold episodes_start_end. rewrite in_flat_map. split.
    + intros (e0 & He0 & Hin). apply in_seq in He0.
      apply env_episodes_In in Hin; [|apply where_eq1_from_sorted].
      destruct Hin as (-> & Hs & Ht & Hlt & Hno & Hlen).
      split; [lia|]. split; [|exact Hlen].
      unfold consecutive_starts. rewrite <- !column_marked.
      repeat split; auto. intros k Hk Hm. apply (Hno k Hk).
      apply column_marked. exact Hm.
    + intros (He & (Hs & Ht & Hlt & Hno) & Hlen).
      exists e. split; [apply in_seq; lia|].
      apply env_episodes_In; [apply where_eq1_from_sorted|].
      rewrite !column_marked.
      split; [reflexivity|]. split; [exact Hs|]. split; [exact Ht|].
      split; [exact Hlt|]. split; [|exact Hlen].
      intros k Hk Hin. apply (Hno k Hk). apply column_marked. exact Hin.
  - unfold episodes_start_end.
    apply (flat_map_NoDup (fun seg : segment => fst (fst seg))).
    + apply seq_NoDup.
    + intros e. apply env_episodes_NoDup, where_eq1_from_sorted.
    + intros e [[e' s] t] Hin.
      apply env_episodes_In in Hin; [|apply where_eq1_from_sorted]. simpl. tauto.
  - reflexivity.
  - vm_compute. intros [H|[H|[]]]; discriminate H.
Qed.

(** ** Return computer *)

Section ReturnFacts.
Local Open Scope R_scope.
Import Returns.

Lemma sum_app (l1 l2 : list R) :
  Weighter.sum (l1 ++ l2) = Weighter.sum l1 + Weighter.sum l2.
Proof.
  unfold Weighter.sum. induction l1 as [|x l1 IH]; simpl; [lra|]. rewrite IH. lra.
Qed.

Lemma sum_rev (l : list R) : Weighter.sum (rev l) = Weighter.sum l.
Proof.
  induction l as [|x l IH]; simpl; [reflexivity|].
  rewrite sum_app, IH. unfold Weighter.sum. simpl. lra.
Qed.

Lemma cumsum_from_snoc (l : list R) : forall acc x,
  cumsum_from acc (l ++ [x]) = cumsum_from acc l ++ [acc + Weighter.sum l + x].
Proof.
  induction l as [|a l IH]; intros acc x; simpl.
  - f_equal. unfold Weighter.sum. simpl. lra.
  - rewrite IH. do 3 f_equal. unfold Weighter.sum. simpl. lra.
Qed.

Lemma cumsum_snoc (l : list R) (x : R) :
  cumsum (l ++ [x]) = cumsum l ++ [Weighter.sum l + x].
Proof.
  destruct l as [|a l]; simpl.
  - f_equal. unfold Weighter.sum. simpl. lra.
  - rewrite cumsum_from_snoc. reflexivity.
Qed.

Lemma returns_cons (x : R) (y : list R) :
  returns (x :: y) = (x + Weighter.sum y) :: returns y.
Proof.
  unfold returns. simpl rev. rewrite cumsum_snoc, rev_app_distr. simpl.
  f_equal. rewrite sum_rev. lra.
Qed.

Lemma returns_length (y : list R) : length (returns y) = length y.
Proof.
  induction y as [|x y IH]; [reflexivity|]. rewrite returns_cons. simpl. now rewrite IH.
Qed.

Lemma returns_nth (y : list R) : forall i,
  nth i (returns y) 0 = Weighter.sum (skipn i y).
Proof.
  induction y as [|x y IH]; intros i.
  - destruct i; reflexivity.
  - rewrite returns_cons. destruct i; simpl; [reflexivity | apply IH].
Qed.

Lemma discounted_from_nth (gamma : R) (rs : list R) : forall (a k i : nat),
  (i < k)%nat -> (i < length rs)%nat ->
  nth i (map (fun tr : nat * R => gamma ^ fst tr * snd tr) (combine (seq a k) rs)) 0
  = gamma ^ (a + i) * nth i rs 0.
Proof.
  induction rs as [|r rs IH]; intros a k i Hk Hl; simpl in Hl; [lia|].
  destruct k as [|k]; [lia|]. simpl.
  destruct i as [|i].
  - now rewrite Nat.add_0_r.
  - rewrite IH by lia. now replace (S a + i)%nat with (a + S i)%nat by lia.
Qed.

Lemma discounted_nth (gamma : R) (n : Z) (rs : list R) (i : nat) :
  (i < Z.to_nat n)%nat -> (i < length rs)%nat ->
  nth i (discounted gamma n rs) 0 = gamma ^ i * nth i rs 0.
Proof. intros. unfold discounted. now rewrite discounted_from_nth. Qed.

Lemma discounted_length (gamma : R) (n : Z) (rs : list R) :
  length (discounted gamma n rs) = Nat.min (Z.to_nat n) (length rs).
Proof.
  unfold discounted. now rewrite length_map, length_combine, length_seq.
Qed.

Lemma slice_in_range {A : Type} (l : list A) (start stop : Z) :
  (0 <= start <= stop)%Z -> (stop <= Z.of_nat (length l))%Z ->
  Py.slice l start stop
  = firstn (Z.to_nat (stop - start)) (skipn (Z.to_nat start) l).
Proof.
  intros H1 H2. unfold Py.slice, Py.slice_bound.
  destruct (Z.ltb_spec start 0); [lia|].
  destruct (Z.ltb_spec stop 0); [lia|].
  now rewrite !Z.min_l by lia.
Qed.

Lemma slice_length_in_range {A : Type} (l : list A) (start stop : Z) :
  (0 <= start <= stop)%Z -> (stop <= Z.of_nat (length l))%Z ->
  length (Py.slice l start stop) = Z.to_nat (stop - start).
Proof.
  intros H1 H2. rewrite slice_in_range by assumption.
  rewrite length_firstn, length_skipn. lia.
Qed.

Lemma slice_nth_in_range {A : Type} (d : A) (l : list A) (start stop : Z) (i : nat) :
  (0 <= start <= stop)%Z -> (stop <= Z.of_nat (length l))%Z ->
  (i < Z.to_nat (stop - start))%nat ->
  nth i (Py.slice l start stop) d = nth (Z.to_nat start + i) l d.
Proof.
  intros H1 H2 Hi. rewrite slice_in_range by assumption.
  rewrite nth_firstn. destruct (Nat.ltb_spec i (Z.to_nat (stop - start))); [|lia].
  now rewrite nth_skipn.
Qed.

Lemma segment_column_length {A : Type} (d : A) (trajs : list (list A))
    (env_ind : nat) (start end_ : Z) :
  (0 <= start <= end_)%Z -> (end_ < Z.of_nat (length trajs))%Z ->
  length (segment_column d trajs (env_ind, start, end_)) = Z.to_nat (end_ - start + 1).
Proof.
  intros H1 H2. unfold segment_column. rewrite length_map, slice_length_in_range by lia.
  f_equal. lia.
Qed.

Lemma segment_column_nth {A : Type} (d : A) (trajs : list (list A))
    (env_ind : nat) (start end_ : Z) (i : nat) :
  (0 <= start <= end_)%Z -> (end_ < Z.of_nat (length trajs))%Z ->
  (i < Z.to_nat (end_ - start + 1))%nat ->
  nth i (segment_column d trajs (env_ind, start, end_)) d
  = nth env_ind (nth (Z.to_nat start + i) trajs []) d.
Proof.
  intros H1 H2 Hi. unfold segment_column.
  assert (Hd : d = nth env_ind (@nil A) d) by (destruct env_ind; reflexivity).
  rewrite Hd at 1.
  rewrite (map_nth (fun row => nth env_ind row d)).
  rewrite slice_nth_in_range by lia. reflexivity.
Qed.

End ReturnFacts.

Section ReturnComputer.
Import Returns.
Local Open Scope R_scope.



End ReturnComputer.

(** ** Reward weighter *)

Section WeightFacts.
Local Open Scope R_scope.
Import Weighter.

Lemma mean_times_length (l : list R) : mean l * INR (length l) = sum l.
Proof.
  unfold mean. destruct l as [|x l].
  - simpl. unfold sum. simpl. lra.
  - assert (0 < INR (length (x :: l))) by (apply lt_0_INR; simpl; lia).
    field. lra.
Qed.

Lemma mean_sq_nonneg (l : list R) (c : R) :
  0 <= mean (map (fun x => Rsqr (x - c)) l).
Proof.
  unfold mean. destruct l as [|x l].
  - simpl. unfold sum. simpl. unfold Rdiv. rewrite Rmult_0_l. lra.
  - apply Rmult_le_pos.
    + unfold sum. induction (x :: l) as [|y l' IH]; simpl; [lra|].
      pose proof (Rle_0_sqr (y - c)). lra.
    + left. apply Rinv_0_lt_compat, lt_0_INR. simpl. lia.
Qed.

Lemma std_nonneg (l : list R) : 0 <= std l.
Proof. unfold std. apply sqrt_pos. Qed.

Lemma std_sq (l : list R) :
  Rsqr (std l) * INR (length l) = sum (map (fun x => Rsqr (x - mean l)) l).
Proof.
  unfold std. rewrite Rsqr_sqrt by apply mean_sq_nonneg.
  rewrite <- (length_map (fun x => Rsqr (x - mean l)) l).
  apply mean_times_length.
Qed.

Lemma denominator_pos (l : list R) : 0 < std l + epsilon.
Proof. pose proof (std_nonneg l). unfold epsilon. lra. Qed.

Lemma weights_length (beta m : R) (l : list R) :
  length (weights beta m l) = length l.
Proof. unfold weights, rewards_k_scaled, normalize. now rewrite !length_map. Qed.

Lemma weights_nth (beta m : R) (l : list R) (i : nat) :
  (i < length l)%nat ->
  nth i (weights beta m l) 0
  = Rmin (exp (beta * ((nth i l 0 - mean l) / (std l + epsilon)))) m.
Proof.
  intros Hi. unfold weights, rewards_k_scaled, normalize, clamp_max.
  rewrite map_map.
  rewrite (nth_indep _ 0 ((fun x => Rmin (exp (beta * ((x - mean l) / (std l + epsilon)))) m) 0))
    by (rewrite length_map; exact Hi).
  now rewrite (map_nth (fun x => Rmin (exp (beta * ((x - mean l) / (std l + epsilon)))) m)).
Qed.

Lemma weights_In (beta m : R) (l : list R) (w : R) :
  In w (weights beta m l) ->
  exists x, In x l /\ w = Rmin (exp (beta * ((x - mean l) / (std l + epsilon)))) m.
Proof.
  unfold weights, rewards_k_scaled, normalize, clamp_max. rewrite map_map.
  intros Hin. apply in_map_iff in Hin. destruct Hin as (x & <- & Hx). eauto.
Qed.

End WeightFacts.

Section RewardWeighter.
Import Weighter.
Local Open Scope R_scope.

Lemma weights_zero_variance (beta m : R) :
  weights beta m [0; 0; 0] = [Rmin 1 m; Rmin 1 m; Rmin 1 m].
Proof.
  assert (Hz : forall d, (0 - mean [0; 0; 0]) / d = 0).
  { intros d. unfold mean, sum. simpl. unfold Rdiv. rewrite !Rplus_0_l, !Rmult_0_l.
    rewrite Rminus_diag. apply Rmult_0_l. }
  unfold weights, rewards_k_scaled, normalize, clamp_max.
  cbn [map]. rewrite Hz, Rmult_0_r, exp_0. reflexivity.
Qed.

Lemma weight_saturates (beta m : R) (l : list R) (i : nat) :
  (i < length l)%nat -> 0 < beta -> 0 < m ->
  (std l + epsilon) * (ln m / beta) <= nth i l 0 - mean l ->
  nth i (weights beta m l) 0 = m.
Proof.
  intros Hi Hb Hm Hfar. rewrite weights_nth by exact Hi.
  apply Rmin_right.
  pose proof (denominator_pos l) as Hd.
  set (z := (nth i l 0 - mean l) / (std l + epsilon)).
  assert (Hz : ln m / beta <= z).
  { unfold z. apply (Rmult_le_reg_l (std l + epsilon)); [exact Hd|].
    replace ((std l + epsilon) * ((nth i l 0 - mean l) / (std l + epsilon)))
      with (nth i l 0 - mean l) by (field; lra).
    exact Hfar. }
  assert (Hbz : ln m <= beta * z).
  { replace (ln m) with (beta * (ln m / beta)) by (field; lra).
    apply Rmult_le_compat_l; lra. }
  rewrite <- (exp_ln m Hm) at 1.
  destruct Hbz as [Hlt | Heq]; [left; now apply exp_increasing | right; now rewrite Heq].
Qed.



End RewardWeighter.

(** ** Calls and results of the stages of the loop body *)

Import Trainer TrainerSpec.

Section Logic.
Context {W : Type} `{Collaborators W}.
Variable P : call -> Prop.
Local Abbreviation sat := (TrainerSpec.sat (W:=W)).
Local Abbreviation extends := (TrainerSpec.extends (W:=W)).

Lemma extends_refl (s : state W) : extends P s s.
Proof.
  exists []. rewrite app_nil_r. repeat split; auto.
Qed.

Lemma extends_trans (s1 s2 s3 : state W) :
  extends P s1 s2 -> extends P s2 s3 -> extends P s1 s3.
Proof.
  intros (e1 & Ht1 & Hp1 & Hf1) (e2 & Ht2 & Hp2 & Hf2).
  exists (e1 ++ e2). rewrite Ht2, Ht1, app_assoc. split; [reflexivity|].
  split; [apply List.Forall_app; auto|].
  intros Hno. rewrite Hf2, Hf1; auto; intros rr Hin; apply (Hno rr), in_or_app; auto.
Qed.

Lemma extends_one (s : state W) (c : call) (w : W) :
  P c -> (forall rr, c <> CPickleDump rr) ->
  extends P s {| world := w; trace := trace s ++ [c]; result_file := result_file s |}.
Proof.
  intros Hc Hnd. exists [c]. simpl. repeat split; auto.
Qed.

Lemma sat_ret {A : Type} (Q : A -> Prop) (a : A) : Q a -> sat P Q (ret a).
Proof.
  intros Hq s. split; [apply extends_refl|]. intros a' s' [= <- <-]. exact Hq.
Qed.

Lemma sat_raise {A : Type} (Q : A -> Prop) (e : Py.exn) : sat P Q (@raise W A e).
Proof.
  intros s. split; [apply extends_refl|]. intros a' s' [=].
Qed.

Lemma sat_bind {A B : Type} (Q : A -> Prop) (Q' : B -> Prop)
    (m : M W A) (k : A -> M W B) :
  sat P Q m -> (forall a, Q a -> sat P Q' (k a)) -> sat P Q' (bind m k).
Proof.
  intros Hm Hk s. unfold bind. destruct (Hm s) as [He Hq].
  destruct (m s) as [a s1|e s1]; simpl in *.
  - specialize (Hk a (Hq a s1 eq_refl) s1). destruct Hk as [He' Hq'].
    split; [eapply extends_trans; eauto | exact Hq'].
  - split; [exact He | intros a' s' [=]].
Qed.

Lemma sat_weaken {A : Type} (Q Q' : A -> Prop) (m : M W A) :
  sat P Q m -> (forall a, Q a -> Q' a) -> sat P Q' m.
Proof.
  intros Hm Hw s. destruct (Hm s) as [He Hq]. split; [exact He|].
  intros a s' Heq. eauto.
Qed.

Lemma sat_lift {A : Type} (Q : A -> Prop) (x : Py.exn + A) :
  (forall a, x = inr a -> Q a) -> sat P Q (lift x).
Proof.
  intros Hq. destruct x as [e|a]; simpl; [apply sat_raise | apply sat_ret; auto].
Qed.

Lemma sat_read_local {A : Type} (Q : A -> Prop) (name : string) (v : option A) :
  (forall a, v = Some a -> Q a) -> sat P Q (read_local name v).
Proof.
  intros Hq. destruct v as [a|]; simpl; [apply sat_ret; auto | apply sat_raise].
Qed.

Lemma sat_do_call (Q : unit -> Prop) (c : call) :
  P c -> (forall rr, c <> CPickleDump rr) -> Q tt -> sat P Q (do_call c).
Proof.
  intros Hc Hnd Hq s. split; [apply extends_one; auto|].
  intros [] s' _. exact Hq.
Qed.

Lemma sat_ask {A : Type} (Q : A -> Prop) (c : call) (op : W -> A * W) :
  P c -> (forall rr, c <> CPickleDump rr) -> (forall w, Q (fst (op w))) ->
  sat P Q (ask c op).
Proof.
  intros Hc Hnd Hq s. split; [apply extends_one; auto|].
  intros a s' [= <- _]. apply Hq.
Qed.

Lemma sat_pickle_dump (Q : unit -> Prop) (rr : list (gmap string value)) :
  P (CPickleDump rr) -> Q tt -> sat P Q (pickle_dump rr).
Proof.
  intros Hc Hq s. split.
  - exists [CPickleDump rr]. simpl. repeat split; auto.
    intros Hno. exfalso. apply (Hno rr). now left.
  - intros [] s' _. exact Hq.
Qed.

Lemma sat_for_each {A S : Type} (I : S -> Prop) (l : list A)
    (body : A -> S -> M W S) :
  (forall x s, In x l -> I s -> sat P I (body x s)) ->
  forall s0, I s0 -> sat P I (for_each l body s0).
Proof.
  induction l as [|x l IH]; intros Hbody s0 H0; simpl.
  - now apply sat_ret.
  - eapply sat_bind.
    + apply Hbody; [now left | exact H0].
    + intros s1 H1. apply IH; auto. intros y s Hy. apply Hbody. now right.
Qed.

Lemma sat_map_M {A B : Type} (Q : B -> Prop) (f : A -> M W B) (l : list A) :
  (forall x, In x l -> sat P Q (f x)) -> sat P (List.Forall Q) (map_M f l).
Proof.
  induction l as [|x l IH]; intros Hf; simpl.
  - apply sat_ret. constructor.
  - eapply sat_bind; [apply Hf; now left|].
    intros y Hy. eapply sat_bind; [apply IH; intros; apply Hf; now right|].
    intros ys Hys. apply sat_ret. now constructor.
Qed.

Lemma sat_if {A : Type} (Q : A -> Prop) (b : bool) (m1 m2 : M W A) :
  (b = true -> sat P Q m1) -> (b = false -> sat P Q m2) ->
  sat P Q (if b then m1 else m2).
Proof. destruct b; auto. Qed.

End Logic.

Lemma sat_calls {W : Type} `{Collaborators W} {A : Type} (P P' : call -> Prop)
    (Q : A -> Prop) (m : M W A) :
  sat (W:=W) P Q m -> (forall c, P c -> P' c) -> sat (W:=W) P' Q m.
Proof.
  intros Hm Himp s. destruct (Hm s) as [(evs & Ht & Hp & Hf) Hq].
  split; [|exact Hq]. exists evs. repeat split; auto.
  eapply List.Forall_impl; eauto.
Qed.

Section Stages.
Context {W : Type} `{Collaborators W}.
Variable cfg : config.
Variable P : call -> Prop.
Local Abbreviation sat := (TrainerSpec.sat (W:=W)).
Local Abbreviation any := (fun _ => True).

Lemma sat_prepare_options (itr_ : Z) : sat P any (prepare_options cfg itr_).
Proof.
  unfold prepare_options. apply (sat_bind P any); [now apply sat_lift|].
  intros r _. apply sat_if; intros _; [|now apply sat_ret].
  apply sat_for_each; [|exact I]. intros x o _ _. unfold set_video_path.
  destruct (nth_error o x); [now apply sat_ret | apply sat_raise].
Qed.

Lemma sat_eval_mode_of (itr_ : Z) :
  sat P (fun b => val_freq cfg <> 0 /\
                  b = (itr_ mod val_freq cfg =? 0) && negb (force_train cfg))
      (eval_mode_of cfg itr_).
Proof.
  unfold eval_mode_of.
  apply (sat_bind P (fun r => val_freq cfg <> 0 /\ r = itr_ mod val_freq cfg)).
  - apply sat_lift. unfold Py.mod_. intros a.
    destruct (Z.eqb_spec (val_freq cfg) 0); [discriminate|]. intros [= <-]. auto.
  - intros r [Hv ->]. now apply sat_ret.
Qed.

Lemma sat_broadcast_row (n : nat) (v : list Z) : sat P any (broadcast_row n v).
Proof.
  unfold broadcast_row. destruct (Nat.eqb _ _); [now apply sat_ret|].
  destruct v as [|x [|y v]]; [apply sat_raise | now apply sat_ret | apply sat_raise].
Qed.

Lemma sat_vstack {A : Type} (ok : bool) (trajs : list A) (x : A) :
  sat P any (vstack ok trajs x).
Proof. unfold vstack. destruct ok; [now apply sat_ret | apply sat_raise]. Qed.

Hypothesis rollout_calls : forall c, phase_of c = Rollout -> P c.

Lemma sat_begin_rollout (eval_mode : bool)
    (options_venv : list (gmap string video_path)) (l : locals) :
  sat P any (begin_rollout cfg eval_mode options_venv l).
Proof.
  unfold begin_rollout. apply (sat_bind P any).
  - unfold reset_decision. destruct (reset_at_iteration cfg); [now apply sat_ret|].
    destruct eval_mode; [now apply sat_ret|]. now apply sat_read_local.
  - intros c _. destruct c.
    + apply (sat_bind P any); [|intros; now apply sat_ret].
      apply sat_ask; [now apply rollout_calls | discriminate | auto].
    + apply (sat_bind P any); [apply sat_broadcast_row | intros; now apply sat_ret].
Qed.

Lemma sat_collect_step (eval_mode : bool) (step : nat) (b : rollout) :
  sat P any (collect_step cfg eval_mode step b).
Proof.
  unfold collect_step. apply (sat_bind P any).
  { destruct (_ =? 0); [|now apply sat_ret].
    apply sat_do_call; [now apply rollout_calls | discriminate | exact I]. }
  intros _ _. apply (sat_bind P any); [now apply sat_read_local|].
  intros prev _. apply (sat_bind P any).
  { apply sat_ask; [now apply rollout_calls | discriminate | auto]. }
  intros samples_ _. apply (sat_bind P any); [apply sat_vstack|].
  intros ot _. apply (sat_bind P any); [apply sat_vstack|].
  intros st _. apply (sat_bind P any).
  { apply sat_ask; [now apply rollout_calls | discriminate | auto]. }
  intros [[o r] d] _. apply (sat_bind P any); [apply sat_vstack|].
  intros rt _. apply (sat_bind P any); [apply sat_broadcast_row|].
  intros row _. now apply sat_ret.
Qed.

Lemma sat_collect (eval_mode : bool) (b : rollout) :
  sat P any (collect cfg eval_mode b).
Proof.
  unfold collect. apply sat_for_each; [|exact I].
  intros step b' _ _. apply sat_collect_step.
Qed.

End Stages.

Section Stages2.
Context {W : Type} `{Collaborators W}.
Variable cfg : config.
Variable P : call -> Prop.
Local Abbreviation sat := (TrainerSpec.sat (W:=W)).
Local Abbreviation any := (fun _ => True).

Lemma sat_np_max (l : list R) : sat P any (np_max l).
Proof. destruct l; [apply sat_raise | now apply sat_ret]. Qed.

(** The discounted rewards of line 152: the values of
    [Returns.discounted], or [OverflowError] at the first power that
    overflows, which needs a discount factor above 1 in absolute value;
    the state is not touched. *)
Lemma checked_powers_cases (l : list (nat * R)) (s : state W) :
  map_M (fun tr => bind (lift (float_pow (gamma cfg) (fst tr)))
                        (fun p => ret (p * snd tr)%R)) l s
  = Ok (map (fun tr => (gamma cfg ^ fst tr * snd tr)%R) l) s
  \/ (map_M (fun tr => bind (lift (float_pow (gamma cfg) (fst tr)))
                            (fun p => ret (p * snd tr)%R)) l s
      = Raise Py.OverflowError s /\ (1 < Rabs (gamma cfg))%R).
Proof.
  induction l as [|x l IH]; [now left|].
  cbn [map_M map]. unfold bind at 1 5. unfold bind at 1 4.
  destruct (float_pow (gamma cfg) (fst x)) as [e|v] eqn:E.
  - apply float_pow_overflow in E. destruct E as [-> Hg]. right. now split.
  - apply float_pow_value in E. subst v. cbn [lift ret].
    unfold bind at 1 3.
    destruct IH as [->|[-> Hg]]; [now left | right; now split].
Qed.

Lemma checked_discounted_cases (n : Z) (rewards : list R) (s : state W) :
  checked_discounted cfg n rewards s
  = Ok (Returns.discounted (gamma cfg) n rewards) s
  \/ (checked_discounted cfg n rewards s = Raise Py.OverflowError s /\
      (1 < Rabs (gamma cfg))%R).
Proof. apply checked_powers_cases. Qed.

Lemma checked_segments_cases (reward_trajs : list (list R))
    (segs : list Segmenter.segment) (s : state W) :
  map_M (checked_segment_discounted cfg reward_trajs) segs s
  = Ok (map (Returns.segment_discounted (gamma cfg) reward_trajs) segs) s
  \/ (map_M (checked_segment_discounted cfg reward_trajs) segs s
      = Raise Py.OverflowError s /\ (1 < Rabs (gamma cfg))%R).
Proof.
  induction segs as [|seg segs IH]; [now left|].
  cbn [map_M map]. unfold bind at 1 3.
  assert (Hseg : checked_segment_discounted cfg reward_trajs seg s
                 = Ok (Returns.segment_discounted (gamma cfg) reward_trajs seg) s
                 \/ (checked_segment_discounted cfg reward_trajs seg s
                     = Raise Py.OverflowError s /\ (1 < Rabs (gamma cfg))%R)).
  { destruct seg as [[e st] en]. apply checked_discounted_cases. }
  destruct Hseg as [->|[-> Hg]]; [|right; now split].
  unfold bind at 1 2.
  destruct IH as [->|[-> Hg]]; [now left | right; now split].
Qed.

Lemma checked_segments_inv (reward_trajs : list (list R))
    (segs : list Segmenter.segment) (s s' : state W) (ds : list (list R)) :
  map_M (checked_segment_discounted cfg reward_trajs) segs s = Ok ds s' ->
  ds = map (Returns.segment_discounted (gamma cfg) reward_trajs) segs /\ s' = s.
Proof.
  intros E. destruct (checked_segments_cases reward_trajs segs s) as [E'|[E' _]];
    rewrite E' in E; [|discriminate E]. injection E as <- <-. auto.
Qed.

Lemma checked_segments_ok (reward_trajs : list (list R))
    (segs : list Segmenter.segment) (s : state W) :
  (Rabs (gamma cfg) <= 1)%R ->
  map_M (checked_segment_discounted cfg reward_trajs) segs s
  = Ok (map (Returns.segment_discounted (gamma cfg) reward_trajs) segs) s.
Proof.
  intros Hg. destruct (checked_segments_cases reward_trajs segs s) as [E|[_ Hlt]];
    [exact E | lra].
Qed.

Lemma sat_checked_segments (reward_trajs : list (list R))
    (segs : list Segmenter.segment) :
  sat P any (map_M (checked_segment_discounted cfg reward_trajs) segs).
Proof.
  intros s. split; [|auto].
  destruct (checked_segments_cases reward_trajs segs s) as [->|[-> _]];
    apply extends_refl.
Qed.

Lemma sat_summarize (b : rollout) (l : locals) :
  P (CLogInfo MsgNoEpisode) ->
  sat P (fun lm => same_log l (fst lm)) (summarize cfg b l).
Proof.
  intros HP. unfold summarize.
  destruct (0 <? _).
  - apply (sat_bind P any); [apply sat_checked_segments|]. intros ds _.
    apply (sat_bind P any).
    + apply (sat_weaken P (List.Forall any)); [|auto].
      apply sat_map_M. intros. apply sat_np_max.
    + intros maxes _. apply sat_ret. split; reflexivity.
  - apply (sat_bind P any).
    + apply sat_do_call; [exact HP | discriminate | exact I].
    + intros _ _. apply sat_ret. split; reflexivity.
Qed.

Lemma sat_take_inds {A : Type} (xs : list A) (inds : list nat) :
  sat P (List.Forall (fun x => In x xs)) (take_inds xs inds).
Proof.
  unfold take_inds. apply sat_map_M. intros i _.
  destruct (nth_error xs i) eqn:E; [|apply sat_raise].
  apply sat_ret. eapply nth_error_In; eauto.
Qed.

Lemma sat_np_concatenate {A : Type} (l : list (list A)) :
  sat P any (np_concatenate l).
Proof. destruct l; [apply sat_raise | now apply sat_ret]. Qed.

Section Update.
Variable rewards_k_scaled : list R.
Hypothesis update_calls :
  forall c, phase_of c = Update ->
            (forall sb ob rb, c <> CLoss sb ob rb) -> P c.
Hypothesis loss_calls :
  forall sb ob rb, List.Forall (fun w => In w rewards_k_scaled) rb ->
                   P (CLoss sb ob rb).

Lemma sat_update_batch (obs_k : list obs) (samples_k : list chunk)
    (inds_k : list nat) (batch : Z) (loss_ : option R) :
  sat P any (update_batch cfg obs_k samples_k rewards_k_scaled inds_k batch loss_).
Proof.
  unfold update_batch.
  apply (sat_bind P any); [eapply sat_weaken; [apply sat_take_inds | auto]|].
  intros obs_b _.
  apply (sat_bind P any); [eapply sat_weaken; [apply sat_take_inds | auto]|].
  intros samples_b _.
  eapply sat_bind; [apply sat_take_inds|].
  intros rewards_b Hrb. cbv beta in Hrb.
  apply (sat_bind P any).
  { apply sat_ask; [now apply loss_calls | discriminate | auto]. }
  intros ls _.
  apply (sat_bind P any).
  { apply sat_do_call; [apply update_calls; [reflexivity | discriminate]
                       | discriminate | exact I]. }
  intros _ _. apply (sat_bind P any).
  { apply sat_do_call; [apply update_calls; [reflexivity | discriminate]
                       | discriminate | exact I]. }
  intros _ _. apply (sat_bind P any).
  { destruct (max_grad_norm cfg); [|now apply sat_ret].
    apply sat_do_call; [apply update_calls; [reflexivity | discriminate]
                       | discriminate | exact I]. }
  intros _ _. apply (sat_bind P any).
  { apply sat_do_call; [apply update_calls; [reflexivity | discriminate]
                       | discriminate | exact I]. }
  intros _ _. now apply sat_ret.
Qed.

Lemma sat_update_epoch (obs_k : list obs) (samples_k : list chunk)
    (total_steps epoch : Z) (st : list nat * option R) :
  sat P any (update_epoch cfg obs_k samples_k rewards_k_scaled total_steps epoch st).
Proof.
  unfold update_epoch. apply (sat_bind P any).
  { apply sat_ask; [apply update_calls; [reflexivity | discriminate]
                   | discriminate | auto]. }
  intros inds_k _. apply (sat_bind P any); [now apply sat_lift|].
  intros nb _. apply (sat_bind P any); [|intros; now apply sat_ret].
  apply sat_for_each; [|exact I]. intros. apply sat_update_batch.
Qed.
End Update.

Lemma sat_update (l : locals) :
  (forall c, phase_of c = Update ->
             (forall sb ob rb, c <> CLoss sb ob rb) -> P c) ->
  (forall rts sb ob rb,
      returns_trajs_split l = Some rts ->
      List.Forall
        (fun w => In w (Weighter.weights (beta cfg) (max_reward_weight cfg) rts)) rb ->
      P (CLoss sb ob rb)) ->
  sat P (same_log l) (update cfg l).
Proof.
  intros Hu Hl. unfold update.
  apply (sat_bind P any); [now apply sat_read_local|]. intros ots _.
  apply (sat_bind P any); [apply sat_np_concatenate|]. intros obs_k _.
  apply (sat_bind P any); [now apply sat_read_local|]. intros sts _.
  apply (sat_bind P any); [apply sat_np_concatenate|]. intros samples_k _.
  apply (sat_bind P (fun rts => returns_trajs_split l = Some rts)).
  { apply sat_read_local. auto. }
  intros rts Hrts.
  apply (sat_bind P any); [|intros; apply sat_ret; split; reflexivity].
  apply sat_for_each; [|exact I]. intros epoch st _ _.
  apply sat_update_epoch; [exact Hu|].
  intros sb ob rb Hrb. now apply (Hl rts).
Qed.

Hypothesis epilogue_calls : forall c, phase_of c = Epilogue -> P c.

Lemma sat_set_last (key : string) (v : value) (rr : list (gmap string value)) :
  sat P any (set_last key v rr).
Proof. unfold set_last. destruct (rev rr); [apply sat_raise | now apply sat_ret]. Qed.

Lemma sat_finish_iteration (eval_mode : bool) (m : metrics) (l : locals) :
  sat P any (finish_iteration cfg eval_mode m l).
Proof.
  unfold finish_iteration.
  apply (sat_bind P any).
  { apply sat_do_call; [now apply epilogue_calls | discriminate | exact I]. }
  intros _ _. apply (sat_bind P any); [now apply sat_lift|]. intros r _.
  apply (sat_bind P any).
  { destruct (_ || _); [|now apply sat_ret].
    apply sat_do_call; [now apply epilogue_calls | discriminate | exact I]. }
  intros _ _. apply (sat_bind P any); [now apply sat_lift|]. intros lg _.
  apply (sat_bind P any); [|intros; now apply sat_ret].
  destruct (lg =? 0); [|now apply sat_ret].
  apply (sat_bind P any).
  { destruct eval_mode.
    - unfold log_eval. apply (sat_bind P any).
      { apply sat_do_call; [now apply epilogue_calls | discriminate | exact I]. }
      intros _ _. apply (sat_bind P any).
      { destruct (use_wandb cfg); [|now apply sat_ret].
        apply sat_do_call; [now apply epilogue_calls | discriminate | exact I]. }
      intros _ _. apply (sat_bind P any); [apply sat_set_last|]. intros rr1 _.
      apply (sat_bind P any); [apply sat_set_last|]. intros rr2 _.
      apply sat_set_last.
    - unfold log_train. apply (sat_bind P any); [now apply sat_read_local|].
      intros ls _. apply (sat_bind P any).
      { apply sat_ask; [now apply epilogue_calls | discriminate | auto]. }
      intros t _. apply (sat_bind P any).
      { apply sat_do_call; [now apply epilogue_calls | discriminate | exact I]. }
      intros _ _. apply (sat_bind P any).
      { destruct (use_wandb cfg); [|now apply sat_ret].
        apply sat_do_call; [now apply epilogue_calls | discriminate | exact I]. }
      intros _ _. apply (sat_bind P any); [apply sat_set_last|]. intros rr1 _.
      apply sat_set_last. }
  intros rr1 _. apply (sat_bind P any).
  { apply sat_ask; [now apply epilogue_calls | discriminate | auto]. }
  intros t _. apply (sat_bind P any); [apply sat_set_last|]. intros rr2 _.
  apply (sat_bind P any); [|intros; now apply sat_ret].
  apply sat_pickle_dump; [now apply epilogue_calls | exact I].
Qed.

End Stages2.

(** ** Evaluation mode *)

Lemma rollout_not_update (c : call) : phase_of c = Rollout -> is_update_call c = false.
Proof. destruct c; simpl; try reflexivity; try discriminate. Qed.

Lemma summary_not_update (c : call) : phase_of c = Summary -> is_update_call c = false.
Proof. destruct c; simpl; try reflexivity; try discriminate. Qed.

Lemma epilogue_not_update (c : call) : phase_of c = Epilogue -> is_update_call c = false.
Proof. destruct c; simpl; try reflexivity; try discriminate. Qed.

Section EvalMode.
Context {W : Type} `{Collaborators W}.
Variable cfg : config.

Lemma eval_mode_of_eq (itr_ : Z) (s : state W) :
  eval_mode_of cfg itr_ s
  = if val_freq cfg =? 0 then Raise Py.ZeroDivisionError s
    else Ok ((itr_ mod val_freq cfg =? 0) && negb (force_train cfg)) s.
Proof.
  unfold eval_mode_of, Py.mod_, bind, lift.
  destruct (val_freq cfg =? 0); reflexivity.
Qed.

Lemma sat_run_iteration_eval (l : locals) :
  (itr l mod val_freq cfg =? 0) && negb (force_train cfg) = true ->
  sat (W:=W) (fun c => is_update_call c = false) (fun _ => True)
      (run_iteration cfg l).
Proof.
  intros Hev. unfold run_iteration.
  set (P := fun c => is_update_call c = false).
  apply (sat_bind P (fun _ => True)); [apply sat_prepare_options|].
  intros options_venv _. eapply sat_bind; [apply sat_eval_mode_of|].
  intros eval_mode [_ ->]. rewrite Hev.
  apply (sat_bind P (fun _ => True)).
  { apply sat_do_call; [reflexivity | discriminate | exact I]. }
  intros _ _. apply (sat_bind P (fun _ => True)).
  { apply sat_begin_rollout. apply rollout_not_update. }
  intros b0 _. apply (sat_bind P (fun _ => True)).
  { apply sat_collect. apply rollout_not_update. }
  intros b _. apply (sat_bind P (fun _ => True)).
  { eapply sat_weaken; [apply sat_summarize; reflexivity | auto]. }
  intros lm _. apply (sat_bind P (fun _ => True)); [now apply sat_ret|].
  intros l2 _. apply sat_finish_iteration. apply epilogue_not_update.
Qed.
End EvalMode.

(** C7.  The mode flag of an iteration is
    [itr mod val_freq = 0 and not force_train] (and the iteration raises when
    [val_freq] is zero); an iteration in evaluation mode makes no policy-loss
    or gradient-update call, whatever the rollout produced and however the
    iteration ends. *)
Theorem eval_mode_no_update {W : Type} `{Collaborators W} (cfg : config) :
  (forall (itr_ : Z) (s : state W),
      eval_mode_of cfg itr_ s
      = if val_freq cfg =? 0 then Raise Py.ZeroDivisionError s
        else Ok ((itr_ mod val_freq cfg =? 0) && negb (force_train cfg)) s) /\
  (forall (l : locals) (s : state W),
      val_freq cfg <> 0 -> itr l mod val_freq cfg = 0 -> force_train cfg = false ->
      exists evs,
        trace (final_state (run_iteration cfg l s)) = trace s ++ evs /\
        List.Forall (fun c => is_update_call c = false) evs).
Proof.
  split; [apply eval_mode_of_eq|].
  intros l s Hv Hm Hf.
  destruct (sat_run_iteration_eval cfg l) with (s := s) as [(evs & Ht & Hp & _) _].
  { rewrite Hm, Hf. reflexivity. }
  exists evs. auto.
Qed.

Import Toy.

Lemma eval_mode_no_update_witness :
  exists l' s' evs,
    run_iteration eval_cfg (initial_locals eval_cfg 0)
      (start [[0]; [1]; [0]]) = Ok l' s' /\
    trace s' = [] ++ evs /\
    List.Forall (fun c => is_update_call c = false) evs.
Proof.
  destruct (eval_mode_no_update eval_cfg) as [_ Hrun].
  destruct (Hrun (initial_locals eval_cfg 0)
                 (start [[0]; [1]; [0]]))
    as (evs & Ht & Hp); [simpl; lia | reflexivity | reflexivity |].
  destruct (run_iteration _ _ _) as [l' s'|e s'] eqn:E.
  - exists l', s', evs. auto.
  - exfalso. vm_compute in E. discriminate E.
Defined.

(** ** The first iteration and iterations without a completed episode *)

Section FirstIteration.
Context {W : Type} `{Collaborators W}.
Variable cfg : config.

Lemma bind_Ok {A B : Type} (m : M W A) (k : A -> M W B) (s s1 : state W) (a : A) :
  m s = Ok a s1 -> bind m k s = k a s1.
Proof. intros Hm. unfold bind. now rewrite Hm. Qed.

Lemma bind_Raise {A B : Type} (m : M W A) (k : A -> M W B) (s s1 : state W)
    (e : Py.exn) :
  m s = Raise e s1 -> bind m k s = Raise e s1.
Proof. intros Hm. unfold bind. now rewrite Hm. Qed.

Lemma bind_inv {A B : Type} (m : M W A) (k : A -> M W B) (s s' : state W) (b : B) :
  bind m k s = Ok b s' -> exists a s1, m s = Ok a s1 /\ k a s1 = Ok b s'.
Proof.
  unfold bind. destruct (m s) as [a s1|e s1]; [eauto | discriminate].
Qed.

Lemma set_video_paths_ok (itr_ : Z) (s : state W) (n : nat) :
  forall (k : nat) (o : list (gmap string video_path)),
    (k + n <= length o)%nat ->
    exists o', for_each (seq k n) (set_video_path itr_) o s = Ok o' s /\
               length o' = length o.
Proof.
  induction n as [|n IH]; intros k o Hk; simpl.
  - exists o. split; reflexivity.
  - unfold bind, set_video_path at 1.
    destruct (nth_error o k) as [d|] eqn:E.
    + simpl. unfold ret.
      destruct (IH (S k) (<[k := <["video_path" := VideoPath itr_ k]> d]> o))
        as (o' & Ho' & Hl).
      { rewrite length_insert. lia. }
      exists o'. split; [exact Ho'|]. rewrite Hl. apply length_insert.
    + apply nth_error_None in E. lia.
Qed.

Lemma prepare_options_ok (itr_ : Z) (s : state W) :
  render_freq cfg <> 0 -> (n_render cfg <= n_envs cfg)%nat ->
  exists o, prepare_options cfg itr_ s = Ok o s.
Proof.
  intros Hr Hn. unfold prepare_options, Py.mod_.
  destruct (Z.eqb_spec (render_freq cfg) 0); [contradiction|].
  unfold bind at 1. simpl.
  destruct ((_ =? 0) && render_video cfg); [|eexists; reflexivity].
  destruct (set_video_paths_ok itr_ s (n_render cfg) 0
              (repeat (∅ : gmap string video_path) (n_envs cfg))) as (o & Ho & _).
  { rewrite repeat_length. lia. }
  eauto.
Qed.

Lemma reset_decision_initial (eval_mode : bool) (itr0 : Z) (s : state W) :
  reset_decision cfg eval_mode (initial_locals cfg itr0) s
  = if reset_at_iteration cfg || eval_mode then Ok true s
    else Raise (Py.UnboundLocalError "last_itr_eval") s.
Proof.
  unfold reset_decision. destruct (reset_at_iteration cfg), eval_mode; reflexivity.
Qed.

Lemma begin_rollout_reset (eval_mode : bool)
    (options_venv : list (gmap string video_path)) (l : locals) (s : state W) :
  reset_at_iteration cfg || eval_mode = true ->
  exists b s', begin_rollout cfg eval_mode options_venv l s = Ok b s' /\
               r_prev_obs_venv b
               = Some (fst (reset_env_all options_venv (world s))) /\
               trace s' = trace s ++ [CResetEnvAll options_venv].
Proof.
  intros Hr. unfold begin_rollout.
  assert (Hd : reset_decision cfg eval_mode l s = Ok true s).
  { unfold reset_decision. destruct (reset_at_iteration cfg); [reflexivity|].
    simpl in Hr. now rewrite Hr. }
  rewrite (bind_Ok _ _ _ _ _ Hd). unfold bind, ask, ret. simpl.
  eexists. eexists. split; [reflexivity|]. split; reflexivity.
Qed.

Lemma run_iteration_unbound_last_itr_eval (itr0 : Z) (s : state W) :
  force_train cfg = true -> reset_at_iteration cfg = false ->
  render_freq cfg <> 0 -> (n_render cfg <= n_envs cfg)%nat ->
  val_freq cfg <> 0 ->
  run_iteration cfg (initial_locals cfg itr0) s
  = Raise (Py.UnboundLocalError "last_itr_eval")
          {| world := notify CModelTrain (world s);
             trace := trace s ++ [CModelTrain];
             result_file := result_file s |}.
Proof.
  intros Hf Hr Hrf Hn Hv. unfold run_iteration.
  destruct (prepare_options_ok (itr (initial_locals cfg itr0)) s Hrf Hn) as (o & Ho).
  rewrite (bind_Ok _ _ _ _ _ Ho).
  assert (He : eval_mode_of cfg (itr (initial_locals cfg itr0)) s = Ok false s).
  { unfold eval_mode_of, Py.mod_, bind, lift.
    destruct (Z.eqb_spec (val_freq cfg) 0); [contradiction|].
    simpl. unfold ret. rewrite Hf. now rewrite andb_false_r. }
  rewrite (bind_Ok _ _ _ _ _ He).
  unfold bind at 1. unfold do_call at 1.
  apply bind_Raise. unfold begin_rollout. apply bind_Raise.
  rewrite reset_decision_initial, Hr. reflexivity.
Qed.

  (** Had [last_itr_eval] been bound to [False] before the loop, the same
      first iteration would read the unassigned [prev_obs_venv] next. *)
Lemma collect_unbound_prev_obs_venv (eval_mode : bool) (b : rollout)
    (s : state W) :
  r_prev_obs_venv b = None -> (0 < n_steps cfg)%nat ->
  exists s', collect cfg eval_mode b s
             = Raise (Py.UnboundLocalError "prev_obs_venv") s'.
Proof.
  intros Hp Hn. unfold collect. destruct (n_steps cfg) as [|n]; [lia|].
  simpl. unfold bind at 1. unfold collect_step.
  rewrite Hp. simpl.
  unfold bind. destruct (do_call (CPrint 0) s) as [[] s1|e s1] eqn:E.
  - simpl. eexists. reflexivity.
  - discriminate E.
Qed.
End FirstIteration.

(** C10.  With the locals as they are when the loop is entered, the reset
    decision succeeds exactly when [reset_at_iteration] or the evaluation mode
    holds and otherwise raises [UnboundLocalError] for [last_itr_eval]; so with
    [force_train] set and [reset_at_iteration] unset the first iteration, and
    the run, end in that error right after [model.train()].  Were
    [last_itr_eval] bound, the first collection step would read the unbound
    [prev_obs_venv].  A reset binds [prev_obs_venv] to the observations
    returned by the environment. *)
Theorem first_iteration_reads_unbound {W : Type} `{Collaborators W}
    (cfg : config) (itr0 : Z) :
  (forall (eval_mode : bool) (s : state W),
      reset_decision cfg eval_mode (initial_locals cfg itr0) s
      = if reset_at_iteration cfg || eval_mode then Ok true s
        else Raise (Py.UnboundLocalError "last_itr_eval") s) /\
  (forall s : state W,
      force_train cfg = true -> reset_at_iteration cfg = false ->
      render_freq cfg <> 0 -> (n_render cfg <= n_envs cfg)%nat ->
      val_freq cfg <> 0 ->
      exists s',
        run_iteration cfg (initial_locals cfg itr0) s
        = Raise (Py.UnboundLocalError "last_itr_eval") s' /\
        trace s' = trace s ++ [CModelTrain] /\
        (itr0 < n_train_itr cfg ->
         run cfg itr0 s = Raise (Py.UnboundLocalError "last_itr_eval") s')) /\
  (forall (options_venv : list (gmap string video_path)) (s : state W),
      reset_at_iteration cfg = false -> (0 < n_steps cfg)%nat ->
      exists b s1 s',
        begin_rollout cfg false options_venv
          {| itr := itr0; run_results := [];
             done_venv := repeat 0 (n_envs cfg);
             last_itr_eval := Some false; prev_obs_venv := None;
             obs_trajs_split := None; samples_trajs_split := None;
             returns_trajs_split := None; loss := None |} s = Ok b s1 /\
        collect cfg false b s1 = Raise (Py.UnboundLocalError "prev_obs_venv") s') /\
  (forall (eval_mode : bool) (options_venv : list (gmap string video_path))
          (l : locals) (s : state W),
      reset_at_iteration cfg || eval_mode = true ->
      exists b s',
        begin_rollout cfg eval_mode options_venv l s = Ok b s' /\
        r_prev_obs_venv b = Some (fst (reset_env_all options_venv (world s))) /\
        trace s' = trace s ++ [CResetEnvAll options_venv]).
Proof.
  split; [|split; [|split]].
  - intros. apply reset_decision_initial.
  - intros s Hf Hr Hrf Hn Hv.
    pose proof (run_iteration_unbound_last_itr_eval cfg itr0 s Hf Hr Hrf Hn Hv) as E.
    eexists. split; [exact E|]. split; [reflexivity|].
    intros Hlt. unfold run.
    destruct (Z.to_nat (n_train_itr cfg - itr0)) as [|n] eqn:En; [lia|].
    simpl. apply bind_Raise. exact E.
  - intros options_venv s Hr Hn.
    unfold begin_rollout, reset_decision. rewrite Hr. simpl.
    unfold broadcast_row. rewrite repeat_length, Nat.eqb_refl.
    unfold bind at 1 2. simpl.
    edestruct (collect_unbound_prev_obs_venv cfg false) as (s' & Hs');
      [| exact Hn | eexists; eexists; eexists; split; [reflexivity | exact Hs']].
    reflexivity.
  - intros. now apply begin_rollout_reset.
Qed.

Import Toy.

Lemma first_iteration_reads_unbound_witness :
  exists s',
    run no_reset_cfg 0 (start [[0]; [1]; [0]])
    = Raise (Py.UnboundLocalError "last_itr_eval") s' /\
    trace s' = [CModelTrain].
Proof.
  destruct (first_iteration_reads_unbound no_reset_cfg 0)
    as (_ & Hrun & _).
  destruct (Hrun (start [[0]; [1]; [0]])) as (s' & _ & Ht & Hr);
    [reflexivity | reflexivity | simpl; lia | simpl; lia | simpl; lia |].
  exists s'. split; [apply Hr; simpl; lia | exact Ht].
Defined.

Section NoEpisode.
Context {W : Type} `{Collaborators W}.
Variable cfg : config.

Lemma summarize_no_episode (b : rollout) (l : locals) (s : state W) :
  Segmenter.episodes_start_end (n_envs cfg) (r_firsts_trajs b) = [] ->
  summarize cfg b l s
  = Ok (l, {| num_episode_finished := 0; avg_episode_reward := 0%R;
              avg_best_reward := 0%R; success_rate := 0%R |})
       {| world := notify (CLogInfo MsgNoEpisode) (world s);
          trace := trace s ++ [CLogInfo MsgNoEpisode];
          result_file := result_file s |}.
Proof. intros He. unfold summarize. rewrite He. reflexivity. Qed.

Lemma update_unbound (l : locals) (s : state W) :
  obs_trajs_split l = None ->
  update cfg l s = Raise (Py.UnboundLocalError "obs_trajs_split") s.
Proof. intros Hn. unfold update. rewrite Hn. reflexivity. Qed.
End NoEpisode.


(** C1.  The update is not skipped when no episode completes in a training
    iteration: in the first iteration it raises [UnboundLocalError] for
    [obs_trajs_split] right after the warning, and in a later iteration it
    runs on the segments of an earlier iteration, making update calls after
    the warning. *)
Theorem no_episode_update_not_skipped :
  (exists s',
      run_iteration train_cfg (initial_locals train_cfg 0)
        (start [[0]; [0]; [0]])
      = Raise (Py.UnboundLocalError "obs_trajs_split") s' /\
      last (trace s') = Some (CLogInfo MsgNoEpisode)) /\
  (exists l' s',
      run train_cfg 0
          (start [[0]; [1]; [0]; [0]; [0]; [0]]) = Ok l' s' /\
      update_after_warning (trace s') = true).
Proof.
  split.
  - eexists. split; [vm_compute; reflexivity|]. vm_compute. reflexivity.
  - eexists. eexists. split; [vm_compute; reflexivity|]. vm_compute. reflexivity.
Qed.

(** ** The metrics record *)

Section Epilogue.
Context {W : Type} `{Collaborators W}.
Variable cfg : config.

Lemma set_last_snoc (key : string) (v : value) (xs : list (gmap string value))
    (d : gmap string value) (s : state W) :
  set_last key v (xs ++ [d]) s = Ok (xs ++ [<[key := v]> d]) s.
Proof.
  unfold set_last. rewrite rev_app_distr. simpl. unfold ret.
  now rewrite rev_involutive.
Qed.

Lemma lift_mod_inv (a b r : Z) (s s' : state W) :
  lift (Py.mod_ a b) s = Ok r s' -> b <> 0 /\ r = a mod b /\ s' = s.
Proof.
  unfold Py.mod_. destruct (Z.eqb_spec b 0); simpl; [discriminate|].
  intros [= <- <-]. auto.
Qed.

Tactic Notation "step" hyp(H) "as" ident(a) ident(s) ident(E) :=
    apply bind_inv in H; destruct H as (a & s & E & H).

Lemma log_eval_inv (m : metrics) (l : locals) (xs : list (gmap string value))
    (d : gmap string value) (s s' : state W) (rr : list (gmap string value)) :
  log_eval cfg m l (xs ++ [d]) s = Ok rr s' ->
  rr = xs ++ [<["eval_best_reward" := VReal (avg_best_reward m)]>
               (<["eval_episode_reward" := VReal (avg_episode_reward m)]>
                (<["eval_success_rate" := VReal (success_rate m)]> d))] /\
  result_file s' = result_file s /\
  exists evs, trace s' = trace s ++ evs /\
              List.Forall (fun c => is_dump c = false) evs.
Proof.
  intros Hl. unfold log_eval in Hl.
  step Hl as u1 s1 E. unfold do_call in E. injection E as <- <-.
step Hl as u2 s2 E.
  unfold bind in Hl. rewrite set_last_snoc in Hl. cbv beta iota in Hl.
  rewrite set_last_snoc in Hl. cbv beta iota in Hl.
  rewrite set_last_snoc in Hl.
  injection Hl as <- <-. split; [reflexivity|].
  destruct (use_wandb cfg).
  - unfold do_call in E. injection E as <- <-. simpl. split; [reflexivity|].
    eexists. rewrite <- app_assoc. split; [reflexivity|]. repeat constructor.
  - injection E as <- <-. simpl. split; [reflexivity|].
    eexists. split; [reflexivity|]. repeat constructor.
Qed.

Lemma log_train_inv (m : metrics) (l : locals) (xs : list (gmap string value))
    (d : gmap string value) (s s' : state W) (rr : list (gmap string value)) :
  log_train cfg m l (xs ++ [d]) s = Ok rr s' ->
  (exists ls, loss l = Some ls /\
     rr = xs ++ [<["train_episode_reward" := VReal (avg_episode_reward m)]>
                  (<["loss" := VReal ls]> d)]) /\
  result_file s' = result_file s /\
  exists evs, trace s' = trace s ++ evs /\
              List.Forall (fun c => is_dump c = false) evs.
Proof.
  intros Hl. unfold log_train in Hl.
  step Hl as ls0 s1 E. destruct (loss l) as [ls|]; [|discriminate E].
  injection E as <- <-.
  step Hl as t s2 E. unfold ask in E. injection E as <- <-.
  step Hl as u3 s3 E. unfold do_call in E. injection E as <- <-.
step Hl as u4 s4 E.
  unfold bind in Hl. rewrite set_last_snoc in Hl. cbv beta iota in Hl.
  rewrite set_last_snoc in Hl. injection Hl as <- <-.
  split; [eauto|].
  destruct (use_wandb cfg).
  - unfold do_call in E. injection E as <- <-. simpl. split; [reflexivity|].
    eexists. rewrite <- !app_assoc. split; [reflexivity|]. repeat constructor.
  - injection E as <- <-. simpl. split; [reflexivity|].
    eexists. rewrite <- !app_assoc. split; [reflexivity|]. repeat constructor.
Qed.

Lemma finish_iteration_inv (eval_mode : bool) (m : metrics) (l l' : locals)
    (s s' : state W) :
  finish_iteration cfg eval_mode m l s = Ok l' s' ->
  log_freq cfg <> 0 /\ itr l' = itr l + 1 /\
  exists record evs,
    run_results l' = run_results l ++ [record] /\
    record !! "itr" = Some (VInt (itr l)) /\
    trace s' = trace s ++ evs /\
    if itr l mod log_freq cfg =? 0
    then (exists t, record !! "time" = Some (VReal t)) /\
         mode_metrics eval_mode m l record /\
         result_file s' = Some (run_results l') /\
         exists evs0, evs = evs0 ++ [CPickleDump (run_results l')] /\
                      List.Forall (fun c => is_dump c = false) evs0
    else record = <["itr" := VInt (itr l)]> ∅ /\
         result_file s' = result_file s /\
         List.Forall (fun c => is_dump c = false) evs.
Proof.
  intros Hf. unfold finish_iteration in Hf.
  step Hf as u1 s1 E. unfold do_call in E. injection E as <- <-.
step Hf as r s2 E. apply lift_mod_inv in E. destruct E as (_ & -> & ->).
  step Hf as u2 s0 E.
  assert (Hs0 : result_file s0 = result_file s /\
                exists evs, trace s0 = trace s ++ evs /\
                            List.Forall (fun c => is_dump c = false) evs).
  { destruct (_ || _).
    - unfold do_call in E. injection E as <- <-. simpl. split; [reflexivity|].
      eexists. rewrite <- app_assoc. split; [reflexivity|]. repeat constructor.
    - injection E as <- <-. simpl. split; [reflexivity|].
      eexists. split; [reflexivity|]. repeat constructor. }
  clear E. destruct Hs0 as (Hfile0 & evs0 & Ht0 & Hd0).
  step Hf as lg s3 E. apply lift_mod_inv in E. destruct E as (Hlog & -> & ->).
  split; [exact Hlog|].
  step Hf as rr s4 E. injection Hf as <- <-. simpl. split; [reflexivity|].
  destruct (itr l mod log_freq cfg =? 0).
  - step E as a2 s2 E0.
    assert (Hrr : exists record evs1,
               a2 = run_results l ++ [record] /\
               record !! "itr" = Some (VInt (itr l)) /\
               mode_metrics eval_mode m l record /\
               record !! "time" = None /\
               result_file s2 = result_file s0 /\
               trace s2 = trace s0 ++ evs1 /\
               List.Forall (fun c => is_dump c = false) evs1).
    { destruct eval_mode.
      - apply log_eval_inv in E0. destruct E0 as (-> & Hfile & evs1 & Ht1 & Hd1).
        eexists. exists evs1. split; [reflexivity|]. unfold mode_metrics.
        repeat split; auto.
      - apply log_train_inv in E0.
        destruct E0 as ((ls & Hls & ->) & Hfile & evs1 & Ht1 & Hd1).
        eexists. exists evs1. split; [reflexivity|]. unfold mode_metrics.
        split; [reflexivity|]. split; [exists ls; auto|]. auto. }
    clear E0. destruct Hrr as (record & evs1 & -> & Hitr & Hmode & Htime & Hfile2 & Ht2 & Hd2).
    step E as t s5 E0. unfold ask in E0. injection E0 as <- <-.
    unfold bind in E. rewrite set_last_snoc in E. cbv beta iota in E.
    unfold pickle_dump, ret in E. injection E as <- <-. simpl.
    eexists. eexists. split; [reflexivity|].
    split; [rewrite lookup_insert_ne; [exact Hitr | discriminate]|].
    split; [rewrite Ht2, Ht0, <- !app_assoc; reflexivity|].
    split; [eexists; apply lookup_insert_eq|].
    split.
    { unfold mode_metrics in *. destruct eval_mode.
      - destruct Hmode as (H1 & H2 & H3).
        rewrite !lookup_insert_ne by discriminate. auto.
      - destruct Hmode as (ls & Hls & H1 & H2). exists ls.
        rewrite !lookup_insert_ne by discriminate. auto. }
    split; [reflexivity|].
    exists (evs0 ++ evs1 ++ [CTimer]). rewrite <- !app_assoc. split; [reflexivity|].
    apply List.Forall_app. split; [exact Hd0|].
    apply List.Forall_app. split; [exact Hd2|]. repeat constructor.
  - injection E as <- <-.
    eexists. exists evs0. split; [reflexivity|].
    split; [apply lookup_insert_eq|]. split; [exact Ht0|].
    split; [reflexivity|]. split; [exact Hfile0 | exact Hd0].
Qed.
End Epilogue.

Lemma rollout_not_dump (c : call) : phase_of c = Rollout -> is_dump c = false.
Proof. destruct c; simpl; try reflexivity; try discriminate. Qed.

Lemma update_not_dump (c : call) : phase_of c = Update -> is_dump c = false.
Proof. destruct c; simpl; try reflexivity; try discriminate. Qed.

Section WholeIteration.
Context {W : Type} `{Collaborators W}.
Variable cfg : config.

Lemma sat_Ok {A : Type} (P : call -> Prop) (Q : A -> Prop) (m : M W A)
    (s s' : state W) (a : A) :
  sat P Q m -> m s = Ok a s' -> extends P s s' /\ Q a.
Proof.
  intros Hm E. destruct (Hm s) as [He Hq]. rewrite E in He. simpl in He. eauto.
Qed.

Lemma extends_no_dump (s s' : state W) :
  extends (fun c => is_dump c = false) s s' ->
  result_file s' = result_file s /\
  exists evs, trace s' = trace s ++ evs /\
              List.Forall (fun c => is_dump c = false) evs.
Proof.
  intros (evs & Ht & Hp & Hf). split; [|eauto].
  apply Hf. intros rr Hin. rewrite List.Forall_forall in Hp.
  specialize (Hp _ Hin). discriminate Hp.
Qed.

  (** The stages before the epilogue leave the results file and the
      counters alone. *)
Lemma run_iteration_inv (l l' : locals) (s s' : state W) :
  run_iteration cfg l s = Ok l' s' ->
  exists (m : metrics) (l2 : locals) (s2 : state W),
    same_log l l2 /\
    extends (fun c => is_dump c = false) s s2 /\
    val_freq cfg <> 0 /\
    finish_iteration cfg ((itr l mod val_freq cfg =? 0) && negb (force_train cfg))
                     m l2 s2 = Ok l' s'.
Proof.
  intros Hr. unfold run_iteration in Hr.
  set (P := fun c => is_dump c = false).
  apply bind_inv in Hr. destruct Hr as (o & s1 & E1 & Hr).
  apply (sat_Ok P _ _ _ _ _ (sat_prepare_options cfg P _)) in E1.
  destruct E1 as [X1 _].
  apply bind_inv in Hr. destruct Hr as (ev & s2 & E2 & Hr).
  apply (sat_Ok P _ _ _ _ _ (sat_eval_mode_of cfg P _)) in E2.
  destruct E2 as [X2 [Hv ->]].
  apply bind_inv in Hr. destruct Hr as (u & s3 & E3 & Hr).
  assert (X3 : extends P s2 s3).
  { revert E3.
    destruct ((itr l mod val_freq cfg =? 0) && negb (force_train cfg)); intros E3;
      refine (proj1 (sat_Ok P (fun _ => True) _ _ _ _ _ E3));
      apply sat_do_call; [reflexivity | discriminate | exact I
                         | reflexivity | discriminate | exact I]. }
  apply bind_inv in Hr. destruct Hr as (b0 & s4 & E4 & Hr).
  apply (sat_Ok P _ _ _ _ _ (sat_begin_rollout cfg P rollout_not_dump _ _ _)) in E4.
  destruct E4 as [X4 _].
  apply bind_inv in Hr. destruct Hr as (b & s5 & E5 & Hr).
  apply (sat_Ok P _ _ _ _ _ (sat_collect cfg P rollout_not_dump _ _)) in E5.
  destruct E5 as [X5 _].
  apply bind_inv in Hr. destruct Hr as (lm & s6 & E6 & Hr).
  apply (sat_Ok P _ _ _ _ _ (sat_summarize cfg P _ _ eq_refl)) in E6.
  destruct E6 as [X6 [Hi6 Hr6]]. simpl in Hi6, Hr6.
  apply bind_inv in Hr. destruct Hr as (l2 & s7 & E7 & Hr).
  assert (X7 : extends P s6 s7 /\ same_log (fst lm) l2).
  { destruct (_ && _).
    - injection E7 as <- <-. split; [apply extends_refl | split; reflexivity].
    - refine (sat_Ok P (same_log (fst lm)) _ _ _ _ _ E7). apply sat_update.
      + intros c Hc _. now apply update_not_dump.
      + intros. reflexivity. }
  destruct X7 as [X7 [Hi7 Hr7]].
  exists (snd lm), l2, s7. split; [split; congruence|].
  split; [|split; [exact Hv | exact Hr]].
  eapply extends_trans; [exact X1|]. eapply extends_trans; [exact X2|].
  eapply extends_trans; [exact X3|]. eapply extends_trans; [exact X4|].
  eapply extends_trans; [exact X5|]. eapply extends_trans; [exact X6|].
  exact X7.
Qed.
End WholeIteration.


Import Toy.



(** ** Rollout collection *)

Section Collect.
Context {W : Type} `{Collaborators W}.
Variable cfg : config.

Tactic Notation "step" hyp(H) "as" ident(a) ident(s) ident(E) :=
    apply bind_inv in H; destruct H as (a & s & E & H).

Lemma vstack_inv {A : Type} (ok : bool) (trajs : list A) (x : A)
    (s s' : state W) (r : list A) :
  vstack ok trajs x s = Ok r s' -> ok = true /\ r = trajs ++ [x] /\ s' = s.
Proof.
  unfold vstack. destruct ok; [|discriminate]. intros [= <- <-]. auto.
Qed.

Lemma broadcast_row_inv (n : nat) (v row : list Z) (s s' : state W) :
  broadcast_row n v s = Ok row s' -> length row = n /\ s' = s.
Proof.
  unfold broadcast_row. destruct (Nat.eqb_spec (length v) n).
  - intros [= <- <-]. auto.
  - destruct v as [|x [|y v]]; try discriminate.
    intros [= <- <-]. now rewrite repeat_length.
Qed.

Lemma collect_step_inv (eval_mode : bool) (step : nat) (b b' : rollout)
    (s s' : state W) :
  collect_step cfg eval_mode step b s = Ok b' s' ->
  exists (prev : obs_venv) (samples_ : samples) (pre : list call),
    r_prev_obs_venv b = Some prev /\
    samples_ = fst (model_forward prev eval_mode (world_at_sampling step s)) /\
    shape3 (n_envs cfg) (horizon_steps cfg) (action_dim cfg) samples_ = true /\
    r_samples_trajs b' = r_samples_trajs b ++ [samples_] /\
    r_obs_trajs b' = r_obs_trajs b ++ [prev] /\
    length (r_reward_trajs b') = S (length (r_reward_trajs b)) /\
    trace s' = trace s ++ pre ++
               [CForward prev eval_mode;
                CVenvStep (map (fun c => Py.slice_to c (act_steps cfg)) samples_)] /\
    step_actions pre = [].
Proof.
  intros Hc. unfold collect_step in Hc.
  step Hc as u s1 E1.
  assert (Hs1 : world s1 = world_at_sampling step s /\
                result_file s1 = result_file s /\
                exists pre, trace s1 = trace s ++ pre /\ step_actions pre = []).
  { unfold world_at_sampling. destruct (_ =? 0).
    - unfold do_call in E1. injection E1 as <- <-. simpl.
      split; [reflexivity|]. split; [reflexivity|].
      exists [CPrint step]. split; reflexivity.
    - injection E1 as <- <-. split; [reflexivity|]. split; [reflexivity|].
      exists []. rewrite app_nil_r. split; reflexivity. }
  clear E1. destruct Hs1 as (Hw1 & _ & pre & Ht1 & Hpre).
  step Hc as prev s2 E2.
  destruct (r_prev_obs_venv b) as [p|] eqn:Hprev; [|discriminate E2].
  injection E2 as <- <-.
  step Hc as samples_ s3 E3. unfold ask in E3. injection E3 as <- <-.
  step Hc as ot s4 E4. apply vstack_inv in E4. destruct E4 as (_ & -> & ->).
  step Hc as st s5 E5. apply vstack_inv in E5. destruct E5 as (Hshape & -> & ->).
  step Hc as res s6 E6. unfold ask in E6. injection E6 as <- <-.
  destruct (venv_step _ _) as [[[o r] d] w] eqn:Hstep. cbn [fst snd] in Hc.
  step Hc as rt s7 E7. apply vstack_inv in E7. destruct E7 as (_ & -> & ->).
  step Hc as row s8 E8. apply broadcast_row_inv in E8. destruct E8 as (_ & ->).
  injection Hc as <- <-. simpl.
  exists p, (fst (model_forward p eval_mode (world s1))), pre.
  rewrite <- Hw1. repeat split; auto.
  - rewrite length_app. simpl. lia.
  - rewrite Ht1, <- !app_assoc. reflexivity.
Qed.

Lemma step_actions_app (e1 e2 : list call) :
  step_actions (e1 ++ e2) = step_actions e1 ++ step_actions e2.
Proof. unfold step_actions. apply flat_map_app. Qed.

Lemma for_each_collect_inv (eval_mode : bool) (steps : list nat) :
  forall (b b' : rollout) (s s' : state W),
    for_each steps (collect_step cfg eval_mode) b s = Ok b' s' ->
    exists (evs : list call) (new : list samples),
      trace s' = trace s ++ evs /\
      r_samples_trajs b' = r_samples_trajs b ++ new /\
      length new = length steps /\
      step_actions evs
      = map (map (fun c => Py.slice_to c (act_steps cfg))) new /\
      List.Forall (fun smp => shape3 (n_envs cfg) (horizon_steps cfg)
                                     (action_dim cfg) smp = true) new.
Proof.
  induction steps as [|k steps IH]; intros b b' s s' Hc; simpl in Hc.
  - injection Hc as <- <-. exists [], []. rewrite !app_nil_r.
    repeat split; auto.
  - step Hc as b1 s1 E.
    apply collect_step_inv in E.
    destruct E as (prev & smp & pre & _ & _ & Hshape & Hsmp & _ & _ & Ht & Hpre).
    apply IH in Hc. destruct Hc as (evs & new & Ht' & Hsmp' & Hlen & Hact & Hall).
    exists ((pre ++ [CForward prev eval_mode;
                     CVenvStep (map (fun c => Py.slice_to c (act_steps cfg)) smp)])
            ++ evs), (smp :: new).
    split; [rewrite Ht', Ht, <- !app_assoc; reflexivity|].
    split; [rewrite Hsmp', Hsmp, <- app_assoc; reflexivity|].
    split; [simpl; now rewrite Hlen|].
    split; [|now constructor].
    rewrite !step_actions_app, Hpre, Hact. reflexivity.
Qed.

Lemma slice_to_firstn {A : Type} (c : list A) (a : Z) :
  0 <= a -> Py.slice_to c a = firstn (Z.to_nat a) c.
Proof.
  intros Ha. unfold Py.slice_to, Py.slice, Py.slice_bound.
  destruct (Z.ltb_spec a 0); [lia|].
  replace (if 0 <? 0 then Z.max 0 (0 + Z.of_nat (length c))
           else Z.min 0 (Z.of_nat (length c))) with 0
    by (simpl; lia).
  replace (skipn (Z.to_nat 0) c) with c by reflexivity.
  rewrite Z.sub_0_r.
  destruct (Z.le_gt_cases a (Z.of_nat (length c))).
  - now rewrite Z.min_l by lia.
  - rewrite Z.min_r by lia. rewrite Nat2Z.id.
    rewrite (firstn_all2 (n := length c)) by lia.
    rewrite (firstn_all2 (n := Z.to_nat a)) by lia. reflexivity.
Qed.

Lemma chunk_prefix {A : Type} (c : list A) (a : Z) :
  0 <= a <= Z.of_nat (length c) ->
  exists rest, c = Py.slice_to c a ++ rest /\
               Z.of_nat (length (Py.slice_to c a)) = a.
Proof.
  intros Ha. rewrite slice_to_firstn by lia.
  exists (skipn (Z.to_nat a) c). split; [now rewrite firstn_skipn|].
  rewrite length_firstn. lia.
Qed.

Lemma shape3_chunk_length {A : Type} (n m k : nat) (l : list (list (list A)))
    (c : list (list A)) :
  shape3 n m k l = true -> In c l -> length c = m.
Proof.
  unfold shape3, shape2. intros Hs Hin.
  apply andb_prop in Hs. destruct Hs as [_ Hall].
  rewrite forallb_forall in Hall. specialize (Hall c Hin).
  apply andb_prop in Hall. destruct Hall as [Hl _].
  now apply Nat.eqb_eq in Hl.
Qed.

Lemma collect_step_ok (eval_mode : bool) (step : nat) (b : rollout)
    (s : state W) (prev : obs_venv) :
  r_prev_obs_venv b = Some prev ->
  shape3 (n_envs cfg) (n_cond_step cfg) (obs_dim cfg) prev = true ->
  let sampled := model_forward prev eval_mode (world_at_sampling step s) in
  let stepped :=
    venv_step (map (fun c => Py.slice_to c (act_steps cfg)) (fst sampled))
              (snd sampled) in
  shape3 (n_envs cfg) (horizon_steps cfg) (action_dim cfg) (fst sampled) = true ->
  length (snd (fst (fst stepped))) = n_envs cfg ->
  length (snd (fst stepped)) = n_envs cfg ->
  exists b' s', collect_step cfg eval_mode step b s = Ok b' s'.
Proof.
  intros Hprev Hobs sampled stepped Hsmp Hrew Hdone.
  unfold collect_step. rewrite Hprev.
  assert (Hp : exists s1,
             (if Z.of_nat step mod 10 =? 0 then do_call (CPrint step) else ret tt) s
             = Ok tt s1 /\ world s1 = world_at_sampling step s).
  { unfold world_at_sampling. destruct (_ =? 0); eexists; split; reflexivity. }
  destruct Hp as (s1 & Hp & Hw).
  rewrite (bind_Ok _ _ _ _ _ Hp).
  unfold read_local. unfold bind at 1. unfold ret at 1.
  unfold bind at 1. unfold ask at 1. rewrite Hw. fold sampled.
  rewrite Hobs. unfold vstack at 1. unfold bind at 1. unfold ret at 1.
  rewrite Hsmp. unfold vstack at 1. unfold bind at 1. unfold ret at 1.
  unfold bind at 1. unfold ask at 1. cbn [world]. fold stepped.
  destruct stepped as [[[o r] d] w] eqn:Hst. cbn [fst snd] in *.
  unfold shape1. rewrite Hrew, Nat.eqb_refl.
  unfold vstack at 1. unfold bind at 1. unfold ret at 1.
  unfold broadcast_row. rewrite Hdone, Nat.eqb_refl.
  unfold bind, ret. eexists. eexists. reflexivity.
Qed.
End Collect.

(** C8.  A collection step that completes has appended the full sampled
    chunks, each [horizon_steps] long, to the samples buffer and has called
    [venv.step] with the slices [[:act_steps]] of those chunks, which are
    their prefixes of length [act_steps] when [0 <= act_steps <= horizon_steps];
    over a whole rollout the actions of the [n_steps] step calls are the
    slices of the [n_steps] appended entries; and a step completes whenever
    the arrays involved have the configured shapes. *)
Theorem collect_full_chunk_prefix_action {W : Type} `{Collaborators W}
    (cfg : config) (eval_mode : bool) :
  (forall (step : nat) (b b' : rollout) (s s' : state W),
      collect_step cfg eval_mode step b s = Ok b' s' ->
      exists (prev : obs_venv) (samples_ : samples) (pre : list call),
        r_prev_obs_venv b = Some prev /\
        samples_ = fst (model_forward prev eval_mode (world_at_sampling step s)) /\
        r_samples_trajs b' = r_samples_trajs b ++ [samples_] /\
        trace s' = trace s ++ pre ++
                   [CForward prev eval_mode;
                    CVenvStep (map (fun c => Py.slice_to c (act_steps cfg)) samples_)] /\
        step_actions pre = [] /\
        forall c : chunk, In c samples_ ->
          length c = horizon_steps cfg /\
          (0 <= act_steps cfg <= Z.of_nat (horizon_steps cfg) ->
           exists rest, c = Py.slice_to c (act_steps cfg) ++ rest /\
                        Z.of_nat (length (Py.slice_to c (act_steps cfg)))
                        = act_steps cfg)) /\
  (forall (b b' : rollout) (s s' : state W),
      collect cfg eval_mode b s = Ok b' s' ->
      exists (evs : list call) (new : list samples),
        trace s' = trace s ++ evs /\
        r_samples_trajs b' = r_samples_trajs b ++ new /\
        length new = n_steps cfg /\
        step_actions evs
        = map (map (fun c => Py.slice_to c (act_steps cfg))) new) /\
  (forall (step : nat) (b : rollout) (s : state W) (prev : obs_venv),
      r_prev_obs_venv b = Some prev ->
      shape3 (n_envs cfg) (n_cond_step cfg) (obs_dim cfg) prev = true ->
      let sampled := model_forward prev eval_mode (world_at_sampling step s) in
      let stepped :=
        venv_step (map (fun c => Py.slice_to c (act_steps cfg)) (fst sampled))
                  (snd sampled) in
      shape3 (n_envs cfg) (horizon_steps cfg) (action_dim cfg) (fst sampled) = true ->
      length (snd (fst (fst stepped))) = n_envs cfg ->
      length (snd (fst stepped)) = n_envs cfg ->
      exists b' s', collect_step cfg eval_mode step b s = Ok b' s').
Proof.
  split; [|split].
  - intros step b b' s s' Hc. apply collect_step_inv in Hc.
    destruct Hc as (prev & smp & pre & Hprev & Hsmp & Hshape & Hbuf & _ & _ & Ht & Hpre).
    exists prev, smp, pre. repeat split; auto.
    + eapply shape3_chunk_length; eauto.
    + intros Ha. apply chunk_prefix.
      erewrite shape3_chunk_length; eauto.
  - intros b b' s s' Hc. unfold collect in Hc.
    apply for_each_collect_inv in Hc.
    destruct Hc as (evs & new & Ht & Hbuf & Hlen & Hact & _).
    exists evs, new. rewrite length_seq in Hlen. auto.
  - intros. eapply collect_step_ok; eauto.
Qed.

Import Toy.

Lemma collect_full_chunk_prefix_action_witness :
  exists b' s',
    collect_step eval_cfg true 0
      {| r_prev_obs_venv := Some [toy_obs]; r_done_venv := [0];
         r_obs_trajs := []; r_samples_trajs := []; r_reward_trajs := [];
         r_firsts_trajs := [[1]; [0]; [0]; [0]] |}
      (start [[0]; [1]; [0]]) = Ok b' s' /\
    r_samples_trajs b' = [[toy_chunk]] /\
    trace s' = [CPrint 0; CForward [toy_obs] true; CVenvStep [[[1%R]]]].
Proof.
  destruct (collect_full_chunk_prefix_action eval_cfg true)
    as (Hstep & _ & Hok).
  destruct (Hok 0%nat
              {| r_prev_obs_venv := Some [toy_obs]; r_done_venv := [0];
                 r_obs_trajs := []; r_samples_trajs := []; r_reward_trajs := [];
                 r_firsts_trajs := [[1]; [0]; [0]; [0]] |}
              (start [[0]; [1]; [0]]) [toy_obs]) as (b' & s' & E);
    [reflexivity | reflexivity | reflexivity | reflexivity | reflexivity |].
  exists b', s'. split; [exact E|].
  destruct (Hstep _ _ _ _ _ E) as (prev & smp & pre & _ & _ & Hbuf & _).
  vm_compute in E. injection E as <- <-. split; reflexivity.
Defined.

(** ** Minibatches of an update epoch *)

Section Batches.
Context {A : Type}.

Lemma firstn_plus (a c : nat) : forall l : list A,
  firstn (a + c) l = firstn a l ++ firstn c (skipn a l).
Proof.
  induction a as [|a IH]; intros l; [reflexivity|].
  destruct l as [|x l]; simpl.
  - now rewrite firstn_nil.
  - now rewrite IH.
Qed.

Lemma skipn_plus (a c : nat) : forall l : list A,
  skipn (a + c) l = skipn c (skipn a l).
Proof.
  induction a as [|a IH]; intros l; [reflexivity|].
  destruct l as [|x l]; simpl; [now rewrite skipn_nil | apply IH].
Qed.

  (** Consecutive blocks of [b] elements put together are a prefix. *)
Lemma concat_blocks (b : nat) (l : list A) (n : nat) : forall j : nat,
  concat (map (fun k => firstn b (skipn (k * b) l)) (seq j n))
  = firstn (n * b) (skipn (j * b) l).
Proof.
  induction n as [|n IH]; intros j; [reflexivity|].
  simpl. rewrite IH, firstn_plus. f_equal. f_equal.
  rewrite <- skipn_plus. f_equal. lia.
Qed.

Lemma inds_b_full (bs : Z) (inds_k : list A) (k : nat) :
  0 < bs -> (Z.of_nat k + 1) * bs <= Z.of_nat (length inds_k) ->
  Minibatch.inds_b bs inds_k (Z.of_nat k)
  = firstn (Z.to_nat bs) (skipn (k * Z.to_nat bs) inds_k).
Proof.
  intros Hb Hk. unfold Minibatch.inds_b.
  rewrite slice_in_range by nia.
  f_equal; [f_equal; lia | f_equal; nia].
Qed.

Lemma epoch_batches_full (bs : Z) (inds_k : list A) :
  0 < bs -> bs <= Z.of_nat (length inds_k) ->
  Minibatch.epoch_batches (Z.of_nat (length inds_k)) bs inds_k
  = inr (map (fun k => firstn (Z.to_nat bs) (skipn (k * Z.to_nat bs) inds_k))
             (seq 0 (Z.to_nat (Z.of_nat (length inds_k) / bs)))).
Proof.
  intros Hb Hle. unfold Minibatch.epoch_batches, Minibatch.num_batch, Py.floordiv.
  destruct (Z.eqb_spec bs 0); [lia|].
  set (total := Z.of_nat (length inds_k)) in *.
  assert (Hq : 1 <= total / bs).
  { apply Z.div_le_lower_bound; lia. }
  rewrite Z.max_r by lia. f_equal. unfold Py.range. rewrite map_map.
  apply map_ext_in. intros k Hk. apply in_seq in Hk.
  apply inds_b_full; [exact Hb|].
  assert (Hm : bs * (total / bs) <= total) by (apply Z.mul_div_le; lia).
  fold total. nia.
Qed.

Lemma epoch_batches_short (bs : Z) (inds_k : list A) :
  Z.of_nat (length inds_k) < bs ->
  Minibatch.epoch_batches (Z.of_nat (length inds_k)) bs inds_k = inr [inds_k].
Proof.
  intros Hlt. unfold Minibatch.epoch_batches, Minibatch.num_batch, Py.floordiv.
  destruct (Z.eqb_spec bs 0); [lia|].
  rewrite Z.div_small by lia.
  change (Py.range (Z.max 1 0)) with [0]. cbn [map]. f_equal. f_equal.
  unfold Minibatch.inds_b. rewrite Z.mul_0_l, Z.add_0_l.
  change (Py.slice inds_k 0 bs) with (Py.slice_to inds_k bs).
  rewrite slice_to_firstn by lia. apply firstn_all2. lia.
Qed.

Lemma epoch_batches_spec (bs : Z) (inds_k : list A) :
  0 < bs ->
  let total := Z.of_nat (length inds_k) in
  let nb := Z.max 1 (total / bs) in
  exists batches,
    Minibatch.epoch_batches total bs inds_k = inr batches /\
    Z.of_nat (length batches) = nb /\
    (forall b, In b batches -> Z.of_nat (length b) = Z.min bs total) /\
    concat batches = firstn (Z.to_nat (Z.min (nb * bs) total)) inds_k.
Proof.
  intros Hb total nb.
  assert (Hq : 0 <= total / bs) by (apply Z.div_pos; lia).
  destruct (Z.le_gt_cases bs total) as [Hle|Hlt].
  - assert (Hq1 : 1 <= total / bs) by (apply Z.div_le_lower_bound; lia).
    assert (Hm : bs * (total / bs) <= total) by (apply Z.mul_div_le; lia).
    eexists. split; [apply epoch_batches_full; assumption|].
    split; [|split].
    + rewrite length_map, length_seq. unfold nb. fold total. lia.
    + intros b Hin. apply in_map_iff in Hin. destruct Hin as (k & <- & Hk).
      apply in_seq in Hk. fold total in Hk.
      rewrite length_firstn, length_skipn. fold total. nia.
    + rewrite concat_blocks. simpl skipn. f_equal. fold total. unfold nb. nia.
  - exists [inds_k]. split; [apply epoch_batches_short; assumption|].
    unfold nb. rewrite Z.div_small by lia.
    split; [reflexivity|]. split.
    + intros b [<-|[]]. fold total. lia.
    + simpl. rewrite app_nil_r. symmetry. apply firstn_all2. fold total. lia.
Qed.
End Batches.

Section UpdateRuns.
Context {W : Type} `{Collaborators W}.
Variable cfg : config.

Lemma In_firstn_l {A : Type} (x : A) (n : nat) : forall l : list A,
  In x (firstn n l) -> In x l.
Proof.
  induction n as [|n IH]; intros [|y l]; simpl; try tauto.
  intros [->|Hin]; [now left | right; now apply IH].
Qed.

Lemma In_skipn_l {A : Type} (x : A) (n : nat) : forall l : list A,
  In x (skipn n l) -> In x l.
Proof.
  induction n as [|n IH]; intros [|y l]; simpl; try tauto.
  intros Hin. right. now apply IH.
Qed.

Lemma In_slice {A : Type} (x : A) (l : list A) (a b : Z) :
  In x (Py.slice l a b) -> In x l.
Proof. unfold Py.slice. intros Hin. eapply In_skipn_l, In_firstn_l, Hin. Qed.

Lemma take_inds_ok {A : Type} (d : A) (xs : list A) (inds : list nat)
    (s : state W) :
  List.Forall (fun i => (i < length xs)%nat) inds ->
  take_inds xs inds s = Ok (map (fun i => nth i xs d) inds) s.
Proof.
  unfold take_inds. induction 1 as [|i inds Hi _ IH]; [reflexivity|].
  simpl. unfold bind at 1.
  rewrite (nth_error_nth' xs d Hi). unfold ret at 1.
  unfold bind at 1. rewrite IH. reflexivity.
Qed.

Section Epoch.
Variables (obs_k : list obs) (samples_k : list chunk) (rks : list R).
Hypothesis obs_len : length obs_k = length rks.
Hypothesis samples_len : length samples_k = length rks.
Variable inds_k : list nat.
Hypothesis inds_valid : List.Forall (fun i => (i < length rks)%nat) inds_k.

Lemma inds_b_valid (batch : Z) :
  List.Forall (fun i => (i < length rks)%nat)
              (Minibatch.inds_b (batch_size cfg) inds_k batch).
Proof.
  rewrite List.Forall_forall in *. intros i Hin.
  apply inds_valid. unfold Minibatch.inds_b in Hin. eapply In_slice, Hin.
Qed.

Lemma update_batch_ok (batch : Z) (loss_ : option R) (s : state W) :
  exists ls s' evs,
    update_batch cfg obs_k samples_k rks inds_k batch loss_ s = Ok (Some ls) s' /\
    trace s' = trace s ++ evs /\
    loss_weights evs
    = [map (fun i => nth i rks 0%R)
           (Minibatch.inds_b (batch_size cfg) inds_k batch)].
Proof.
  unfold update_batch.
  pose proof (inds_b_valid batch) as Hv.
  assert (Hvo : List.Forall (fun i => (i < length obs_k)%nat)
                  (Minibatch.inds_b (batch_size cfg) inds_k batch)).
  { eapply List.Forall_impl; [|exact Hv]. intros i Hi. simpl in Hi. lia. }
  assert (Hvs : List.Forall (fun i => (i < length samples_k)%nat)
                  (Minibatch.inds_b (batch_size cfg) inds_k batch)).
  { eapply List.Forall_impl; [|exact Hv]. intros i Hi. simpl in Hi. lia. }
  rewrite (bind_Ok _ _ _ _ _ (take_inds_ok [] obs_k _ s Hvo)).
  rewrite (bind_Ok _ _ _ _ _ (take_inds_ok [] samples_k _ s Hvs)).
  rewrite (bind_Ok _ _ _ _ _ (take_inds_ok 0%R rks _ s Hv)).
  unfold bind, ask, do_call, ret. cbn [world trace result_file fst snd].
  destruct (max_grad_norm cfg); cbn [world trace result_file];
    eexists; eexists; eexists; (split; [reflexivity|]);
    rewrite <- !app_assoc; (split; [reflexivity|]); reflexivity.
Qed.

Lemma update_batches_ok (ks : list Z) : forall (loss_ : option R) (s : state W),
  exists loss' s' evs,
    for_each ks (update_batch cfg obs_k samples_k rks inds_k) loss_ s
    = Ok loss' s' /\
    trace s' = trace s ++ evs /\
    loss_weights evs
    = map (fun k => map (fun i => nth i rks 0%R)
                        (Minibatch.inds_b (batch_size cfg) inds_k k)) ks.
Proof.
  induction ks as [|k ks IH]; intros loss_ s; simpl.
  - exists loss_, s, []. rewrite app_nil_r. repeat split.
  - destruct (update_batch_ok k loss_ s) as (ls & s1 & e1 & E1 & Ht1 & Hw1).
    rewrite (bind_Ok _ _ _ _ _ E1).
    destruct (IH (Some ls) s1) as (loss' & s' & e2 & E2 & Ht2 & Hw2).
    exists loss', s', (e1 ++ e2). split; [exact E2|].
    split; [rewrite Ht2, Ht1, app_assoc; reflexivity|].
    unfold loss_weights in *. rewrite flat_map_app, Hw1, Hw2. reflexivity.
Qed.
End Epoch.

Lemma update_epoch_ok (obs_k : list obs) (samples_k : list chunk) (rks : list R)
    (epoch : Z) (inds_k : list nat) (loss_ : option R) (s : state W) :
  0 < batch_size cfg ->
  length obs_k = length rks -> length samples_k = length rks ->
  Permutation (seq 0 (length rks)) inds_k ->
  exists inds' loss' s' evs batches,
    update_epoch cfg obs_k samples_k rks (Z.of_nat (length rks)) epoch
                 (inds_k, loss_) s = Ok (inds', loss') s' /\
    inds' = fst (shuffle inds_k (world s)) /\
    Permutation (seq 0 (length rks)) inds' /\
    Minibatch.epoch_batches (Z.of_nat (length rks)) (batch_size cfg) inds'
    = inr batches /\
    trace s' = trace s ++ evs /\
    loss_weights evs = map (map (fun i => nth i rks 0%R)) batches.
Proof.
  intros Hb Ho Hs Hperm. unfold update_epoch. cbn [fst snd].
  unfold bind at 1. unfold ask at 1. cbn [fst snd].
  set (inds' := fst (shuffle inds_k (world s))).
  assert (Hperm' : Permutation (seq 0 (length rks)) inds').
  { eapply Permutation_trans; [exact Hperm | apply shuffle_perm]. }
  assert (Hvalid : List.Forall (fun i => (i < length rks)%nat) inds').
  { apply List.Forall_forall. intros i Hin.
    apply (Permutation_in _ (Permutation_sym Hperm')) in Hin.
    apply in_seq in Hin. lia. }
  unfold Minibatch.num_batch, Py.floordiv.
  destruct (Z.eqb_spec (batch_size cfg) 0); [lia|].
  unfold lift, bind at 1, ret at 1.
  edestruct (update_batches_ok obs_k samples_k rks Ho Hs inds' Hvalid)
    as (loss' & s' & evs & E & Ht & Hw).
  rewrite (bind_Ok _ _ _ _ _ E). unfold ret.
  exists inds', loss', s', (CShuffle inds_k :: evs).
  eexists. split; [reflexivity|]. split; [reflexivity|].
  split; [exact Hperm'|].
  split; [unfold Minibatch.epoch_batches, Minibatch.num_batch, Py.floordiv;
          destruct (Z.eqb_spec (batch_size cfg) 0); [lia | reflexivity]|].
  split; [rewrite Ht; cbn [trace]; rewrite <- app_assoc; reflexivity|].
  unfold loss_weights in *. cbn [flat_map app]. rewrite Hw, map_map. reflexivity.
Qed.
End UpdateRuns.

(** C6, as amended.  With a positive batch size, an update epoch shuffles the
    indices and runs exactly [max(1, total_steps // batch_size)] minibatches,
    consecutive blocks of the shuffled indices, each of
    [min(batch_size, total_steps)] indices: full batches when
    [total_steps >= batch_size], one batch of all indices otherwise; the
    indices after the last block are dropped.  For [total_steps = 10] and
    [batch_size = 4] two batches of four indices run and two indices are
    dropped. *)
Theorem epoch_minibatches {W : Type} `{Collaborators W} (cfg : config)
    (obs_k : list obs) (samples_k : list chunk) (rewards_k_scaled : list R)
    (epoch : Z) (inds_k : list nat) (loss_ : option R) (s : state W) :
  0 < batch_size cfg ->
  length obs_k = length rewards_k_scaled ->
  length samples_k = length rewards_k_scaled ->
  Permutation (seq 0 (length rewards_k_scaled)) inds_k ->
  let total_steps := Z.of_nat (length rewards_k_scaled) in
  let num_batch := Z.max 1 (total_steps / batch_size cfg) in
  (exists inds' loss' s' evs batches,
      update_epoch cfg obs_k samples_k rewards_k_scaled total_steps epoch
                   (inds_k, loss_) s = Ok (inds', loss') s' /\
      inds' = fst (shuffle inds_k (world s)) /\
      trace s' = trace s ++ evs /\
      loss_weights evs = map (map (fun i => nth i rewards_k_scaled 0%R)) batches /\
      Minibatch.epoch_batches total_steps (batch_size cfg) inds' = inr batches /\
      Z.of_nat (length batches) = num_batch /\
      (forall b, In b batches ->
                 Z.of_nat (length b) = Z.min (batch_size cfg) total_steps) /\
      concat batches
      = firstn (Z.to_nat (Z.min (num_batch * batch_size cfg) total_steps)) inds') /\
  Minibatch.epoch_batches 10 4 [7; 2; 9; 0; 5; 1; 8; 3; 6; 4]%nat
  = inr [[7; 2; 9; 0]; [5; 1; 8; 3]]%nat.
Proof.
  intros Hb Ho Hs Hperm total_steps num_batch. subst total_steps num_batch.
  split; [|reflexivity].
  destruct (update_epoch_ok cfg obs_k samples_k rewards_k_scaled epoch inds_k loss_ s
              Hb Ho Hs Hperm)
    as (inds' & loss' & s' & evs & batches & E & Hi & Hp & Hbat & Ht & Hw).
  exists inds', loss', s', evs, batches.
  split; [exact E|]. split; [exact Hi|]. split; [exact Ht|]. split; [exact Hw|].
  split; [exact Hbat|].
  assert (Hlen : length inds' = length rewards_k_scaled).
  { rewrite <- (Permutation_length Hp). apply length_seq. }
  destruct (epoch_batches_spec (batch_size cfg) inds' Hb)
    as (batches' & Hbat' & Hn & Hsz & Hcat).
  rewrite Hlen in Hbat', Hn, Hsz, Hcat.
  rewrite Hbat in Hbat'. injection Hbat' as <-.
  auto.
Qed.

Import Toy.

Lemma epoch_minibatches_witness :
  exists inds' loss' s' evs,
    update_epoch train_cfg [toy_obs; toy_obs; toy_obs]
                 [toy_chunk; toy_chunk; toy_chunk] [1%R; 2%R; 3%R] 3 0
                 ([0; 1; 2]%nat, None) (start []) = Ok (inds', loss') s' /\
    trace s' = [] ++ evs /\
    loss_weights evs = [[3%R; 2%R; 1%R]].
Proof.
  destruct (epoch_minibatches train_cfg
              [toy_obs; toy_obs; toy_obs] [toy_chunk; toy_chunk; toy_chunk]
              [1%R; 2%R; 3%R] 0 [0; 1; 2]%nat None (start []))
    as [(inds' & loss' & s' & evs & batches & E & _ & Ht & Hw & Hbat & _) _];
    [simpl; lia | reflexivity | reflexivity | apply Permutation_refl |].
  exists inds', loss', s', evs. split; [exact E|]. split; [exact Ht|].
  rewrite Hw. vm_compute in E. injection E as <- _ _.
  vm_compute in Hbat. injection Hbat as <-. reflexivity.
Defined.

(** C6 as stated fails: with fewer transitions than [batch_size] the one
    minibatch that runs is not a full batch. *)
Lemma partial_batch_counterexample :
  Minibatch.epoch_batches 3 4 [2; 0; 1]%nat = inr [[2; 0; 1]%nat] /\
  ~ (forall (total_steps batch_size_ : Z) (inds_k batch : list nat)
            (batches : list (list nat)),
        0 < batch_size_ -> total_steps = Z.of_nat (length inds_k) ->
        Minibatch.epoch_batches total_steps batch_size_ inds_k = inr batches ->
        In batch batches -> Z.of_nat (length batch) = batch_size_) /\
  (exists l' s',
      run_iteration train_cfg (initial_locals train_cfg 0)
        (start [[0]; [1]; [0]]) = Ok l' s' /\
      map (@length R) (loss_weights (trace s')) = [2%nat] /\
      batch_size train_cfg = 4).
Proof.
  split; [reflexivity|]. split.
  - intros Hall.
    specialize (Hall 3 4 [2; 0; 1]%nat [2; 0; 1]%nat [[2; 0; 1]%nat]).
    assert (Hf : Z.of_nat 3 = 4); [|discriminate Hf].
    apply Hall; [lia | reflexivity | reflexivity | now left].
  - eexists. eexists. split; [vm_compute; reflexivity|].
    split; [vm_compute; reflexivity | reflexivity].
Qed.

(** ** Weights used by the update *)

Section WeightsInUpdate.
Context {W : Type} `{Collaborators W}.
Variable cfg : config.

Lemma summarize_returns (b : rollout) (l : locals) (s s' : state W)
    (lm : locals * metrics) :
  summarize cfg b l s = Ok lm s' ->
  Segmenter.episodes_start_end (n_envs cfg) (r_firsts_trajs b) <> [] ->
  returns_trajs_split (fst lm)
  = Some (concat
            (map (fun seg =>
                    Returns.returns
                      (Returns.segment_discounted (gamma cfg) (r_reward_trajs b) seg))
                 (Segmenter.episodes_start_end (n_envs cfg) (r_firsts_trajs b)))).
Proof.
  intros Hs Hne. unfold summarize in Hs.
  destruct (Segmenter.episodes_start_end (n_envs cfg) (r_firsts_trajs b))
    as [|seg segs] eqn:He; [contradiction|].
  change (0 <? Z.of_nat (length (seg :: segs))) with true in Hs.
  cbv iota in Hs. apply bind_inv in Hs. destruct Hs as (ds & s0 & Ed & Hs).
  apply checked_segments_inv in Ed. destruct Ed as [-> ->].
  apply bind_inv in Hs. destruct Hs as (maxes & s1 & _ & Hs).
  injection Hs as <- _. cbn [fst returns_trajs_split]. now rewrite map_map.
Qed.

Lemma update_weights (l : locals) (s : state W) (rts : list R) :
  returns_trajs_split l = Some rts ->
  exists evs,
    trace (final_state (update cfg l s)) = trace s ++ evs /\
    forall sb ob rb,
      In (CLoss sb ob rb) evs ->
      List.Forall
        (fun w => In w (Weighter.weights (beta cfg) (max_reward_weight cfg) rts))
        rb.
Proof.
  intros Hrts.
  set (P := fun c => match c with
                     | CLoss _ _ rb =>
                         List.Forall
                           (fun w => In w (Weighter.weights (beta cfg)
                                             (max_reward_weight cfg) rts)) rb
                     | _ => True
                     end).
  destruct (sat_update cfg P l) with (s := s) as [(evs & Ht & Hp & _) _].
  - intros c _ Hnl. destruct c; simpl; auto. exfalso. eapply Hnl. reflexivity.
  - intros rts' sb ob rb Hrts' Hall. rewrite Hrts in Hrts'.
    injection Hrts' as <-. exact Hall.
  - exists evs. split; [exact Ht|]. intros sb ob rb Hin.
    rewrite List.Forall_forall in Hp. apply (Hp _ Hin).
Qed.
End WeightsInUpdate.

Section WeightsTheorem.
Local Open Scope R_scope.
Import Weighter.


End WeightsTheorem.

Import Toy.


(** ** Further properties of the run *)

Import RunSpec Contract ToyData.

(** *** Order and bounds of the segments *)

Lemma StronglySorted_app {A : Type} (R : A -> A -> Prop) (l1 l2 : list A) :
  StronglySorted R l1 -> StronglySorted R l2 ->
  (forall x y, In x l1 -> In y l2 -> R x y) ->
  StronglySorted R (l1 ++ l2).
Proof.
  intros H1 H2 H12. induction H1 as [|x l1 Hs IH Hall]; simpl; [exact H2|].
  constructor.
  - apply IH. intros a b Ha Hb. apply H12; [now right | exact Hb].
  - apply List.Forall_app. split; [exact Hall|].
    apply List.Forall_forall. intros y Hy. apply H12; [now left | exact Hy].
Qed.

Lemma env_episodes_sorted (e : nat) (L : list Z) :
  StronglySorted Z.lt L -> StronglySorted seg_before (env_episodes e L).
Proof.
  induction L as [|a L IH]; intros HS; [constructor|].
  destruct L as [|b r]; [constructor|].
  inversion HS as [|? ? HS' Hall]; subst.
  change (env_episodes e (a :: b :: r))
    with (if 1 <? b - a then (e, a, b - 1) :: env_episodes e (b :: r)
          else env_episodes e (b :: r)).
  destruct (1 <? b - a); [|auto].
  constructor; [auto|].
  apply List.Forall_forall. intros [[e' s] t] Hin.
  apply (env_episodes_In e (b :: r) HS') in Hin.
  destruct Hin as (-> & Hs & _).
  simpl. right. split; [reflexivity|].
  destruct Hs as [<-|Hs]; [lia|].
  inversion HS' as [|? ? _ Hb]; subst.
  rewrite List.Forall_forall in Hb. specialize (Hb s Hs). lia.
Qed.

Lemma episodes_from_sorted (firsts_trajs : list (list Z)) (n : nat) : forall k : nat,
  StronglySorted seg_before
    (flat_map (fun env_ind =>
                 env_episodes env_ind (where_eq1 (column firsts_trajs env_ind)))
              (seq k n)).
Proof.
  induction n as [|n IH]; intros k; simpl; [constructor|].
  apply StronglySorted_app.
  - apply env_episodes_sorted, where_eq1_from_sorted.
  - apply IH.
  - intros [[e1 s1] t1] [[e2 s2] t2] H1 H2.
    apply env_episodes_In in H1; [|apply where_eq1_from_sorted].
    apply in_flat_map in H2. destruct H2 as (e & He & H2).
    apply env_episodes_In in H2; [|apply where_eq1_from_sorted].
    apply in_seq in He. destruct H1 as (-> & _). destruct H2 as (-> & _).
    simpl. left. lia.
Qed.

Lemma episode_bounds (n_envs : nat) (firsts_trajs : list (list Z))
    (env_ind : nat) (start end_ : Z) :
  In (env_ind, start, end_) (episodes_start_end n_envs firsts_trajs) ->
  (env_ind < n_envs)%nat /\ 0 <= start /\ start < end_ /\
  end_ + 1 < Z.of_nat (length firsts_trajs).
Proof.
  unfold episodes_start_end. intros Hin. apply in_flat_map in Hin.
  destruct Hin as (e & He & Hin). apply in_seq in He.
  apply env_episodes_In in Hin; [|apply where_eq1_from_sorted].
  destruct Hin as (-> & Hs & Ht & _ & _ & Hlen).
  apply column_marked in Hs, Ht. destruct Hs as [Hs _]. destruct Ht as [Ht _].
  lia.
Qed.

(** X1.  The segment list is ordered and its segments do not overlap:
    environments in increasing order and, within one environment, every episode
    ends before the next one starts.  Every segment names an environment below
    [n_envs], starts at a row [>= 0], spans at least two rows and ends at least
    two rows before the end of the marker array; with fewer than three marker
    rows there is no segment. *)
Theorem episodes_ordered_disjoint (n_envs : nat) (firsts_trajs : list (list Z)) :
  StronglySorted seg_before (episodes_start_end n_envs firsts_trajs) /\
  (forall env_ind start end_,
      In (env_ind, start, end_) (episodes_start_end n_envs firsts_trajs) ->
      (env_ind < n_envs)%nat /\ 0 <= start /\ start < end_ /\
      end_ + 1 < Z.of_nat (length firsts_trajs)) /\
  ((length firsts_trajs < 3)%nat -> episodes_start_end n_envs firsts_trajs = []).
Proof.
  split; [apply episodes_from_sorted|]. split; [apply episode_bounds|].
  intros Hlen. destruct (episodes_start_end n_envs firsts_trajs) as [|[[e s] t] l] eqn:E;
    [reflexivity|].
  assert (Hin : In (e, s, t) (episodes_start_end n_envs firsts_trajs))
    by (rewrite E; now left).
  apply episode_bounds in Hin. lia.
Qed.

Lemma episodes_ordered_disjoint_witness :
  In (0%nat, 4, 5) (episodes_start_end 1 [[1]; [0]; [0]; [1]; [1]; [0]; [1]]) /\
  4 < 5 /\ 5 + 1 < 7 /\
  episodes_start_end 2 [[1; 1]; [1; 0]] = [].
Proof.
  destruct (episodes_ordered_disjoint 1 [[1]; [0]; [0]; [1]; [1]; [0]; [1]])
    as (_ & Hb & _).
  destruct (episodes_ordered_disjoint 2 [[1; 1]; [1; 0]]) as (_ & _ & He).
  assert (Hin : In (0%nat, 4, 5)
                   (episodes_start_end 1 [[1]; [0]; [0]; [1]; [1]; [0]; [1]]))
    by (simpl; auto).
  destruct (Hb _ _ _ Hin) as (_ & _ & H1 & H2).
  split; [exact Hin|]. split; [exact H1|]. split; [exact H2|].
  apply He. simpl. lia.
Defined.

(** *** Returns and weights *)

Section ReturnExtras.
Local Open Scope R_scope.
Import Returns.

Lemma sum_nonneg (l : list R) :
  List.Forall (fun x => 0 <= x) l -> 0 <= Weighter.sum l.
Proof.
  unfold Weighter.sum. induction 1 as [|x l Hx _ IH]; simpl; lra.
Qed.

Lemma discounted_nonneg (gamma : R) (n : Z) (rewards : list R) :
  0 <= gamma -> List.Forall (fun r => 0 <= r) rewards ->
  List.Forall (fun d => 0 <= d) (discounted gamma n rewards).
Proof.
  intros Hg Hr. unfold discounted. apply List.Forall_forall. intros d Hd.
  apply in_map_iff in Hd. destruct Hd as ([t r] & <- & Hin).
  apply in_combine_r in Hin. rewrite List.Forall_forall in Hr.
  simpl. apply Rmult_le_pos; [apply pow_le; exact Hg | now apply Hr].
Qed.

Lemma skipn_nonneg (y : list R) (k : nat) :
  List.Forall (fun d => 0 <= d) y -> List.Forall (fun d => 0 <= d) (skipn k y).
Proof.
  intros Hpos. apply List.Forall_forall. intros d Hd.
  rewrite List.Forall_forall in Hpos. apply Hpos.
  eapply In_skipn_l, Hd.
Qed.

Lemma skipn_cons_nth (y : list R) : forall i : nat,
  (i < length y)%nat -> skipn i y = nth i y 0 :: skipn (S i) y.
Proof.
  induction y as [|x y IH]; intros i Hlt; simpl in Hlt; [lia|].
  destruct i as [|i]; [reflexivity|]. simpl. apply IH. lia.
Qed.

Lemma returns_nonincreasing (y : list R) :
  List.Forall (fun d => 0 <= d) y ->
  forall i : nat, 0 <= nth (S i) (returns y) 0 <= nth i (returns y) 0.
Proof.
  intros Hpos i. rewrite !returns_nth.
  split; [apply sum_nonneg, skipn_nonneg, Hpos|].
  destruct (Nat.lt_ge_cases i (length y)) as [Hlt|Hge].
  - rewrite (skipn_cons_nth y i Hlt). unfold Weighter.sum at 2. simpl.
    fold (Weighter.sum (skipn (S i) y)).
    assert (0 <= nth i y 0).
    { rewrite List.Forall_forall in Hpos. apply Hpos. apply nth_In. exact Hlt. }
    lra.
  - rewrite (skipn_all2 y) by lia. rewrite (skipn_all2 y) by lia. lra.
Qed.

(** X2.  The reversed cumulative sum obeys the backward recurrence of returns:
    the entry at [i] is the term at [i] plus the entry at [i + 1], the entry
    after the last is zero, and the first entry is the sum of all terms. *)
Theorem returns_recurrence (y : list R) :
  (forall i : nat, (i < length y)%nat ->
      nth i (returns y) 0 = nth i y 0 + nth (S i) (returns y) 0) /\
  nth (length y) (returns y) 0 = 0 /\
  nth 0 (returns y) 0 = Weighter.sum y.
Proof.
  split; [|split].
  - intros i Hi. rewrite !returns_nth, (skipn_cons_nth y i Hi).
    unfold Weighter.sum. reflexivity.
  - rewrite returns_nth, skipn_all. reflexivity.
  - rewrite returns_nth. reflexivity.
Qed.

Lemma returns_recurrence_witness :
  nth 1 (returns [1; 1 / 2; 1 / 4]) 0
  = nth 1 [1; 1 / 2; 1 / 4] 0 + nth 2 (returns [1; 1 / 2; 1 / 4]) 0.
Proof.
  destruct (returns_recurrence [1; 1 / 2; 1 / 4]) as (Hrec & _).
  apply (Hrec 1%nat). simpl. lia.
Defined.

(** X3.  With a discount factor [>= 0] and rewards [>= 0], the returns of a
    segment are non-negative and non-increasing along the segment. *)
Theorem discounted_returns_decrease (gamma : R) (n : Z) (rewards : list R) :
  0 <= gamma -> List.Forall (fun r => 0 <= r) rewards ->
  forall i : nat,
    0 <= nth (S i) (returns (discounted gamma n rewards)) 0
      <= nth i (returns (discounted gamma n rewards)) 0.
Proof.
  intros Hg Hr. apply returns_nonincreasing. now apply discounted_nonneg.
Qed.

Lemma discounted_returns_decrease_witness :
  0 <= nth 1 (returns (discounted (1 / 2) 3 [1; 1; 1])) 0
    <= nth 0 (returns (discounted (1 / 2) 3 [1; 1; 1])) 0.
Proof.
  apply (discounted_returns_decrease (1 / 2) 3 [1; 1; 1]).
  - lra.
  - repeat constructor; lra.
Defined.

End ReturnExtras.

Section WeightExtras.
Local Open Scope R_scope.
Import Weighter.

Lemma sum_map_affine (c d : R) (l : list R) :
  sum (map (fun x => (x - c) / d) l) = (sum l - INR (length l) * c) / d.
Proof.
  unfold sum. induction l as [|x l IH].
  - simpl. unfold Rdiv. lra.
  - cbn [map fold_right]. rewrite IH.
    change (length (x :: l)) with (S (length l)). rewrite S_INR.
    unfold Rdiv. lra.
Qed.

(** X4.  The normalised returns have the length of the returns, and their sum
    and mean are zero (for every input, the empty and the constant ones
    included). *)
Theorem normalize_zero_sum (returns : list R) :
  length (normalize returns) = length returns /\
  sum (normalize returns) = 0 /\
  mean (normalize returns) = 0.
Proof.
  assert (Hs : sum (normalize returns) = 0).
  { unfold normalize. rewrite sum_map_affine.
    rewrite Rmult_comm, mean_times_length. unfold Rdiv. lra. }
  split; [unfold normalize; apply length_map|]. split; [exact Hs|].
  unfold mean. rewrite Hs. unfold Rdiv. lra.
Qed.

Lemma mean_shift (c : R) (l : list R) :
  l <> [] -> mean (map (fun x => x + c) l) = mean l + c.
Proof.
  intros Hne. unfold mean. rewrite length_map.
  assert (Hn : 0 < INR (length l)).
  { apply lt_0_INR. destruct l; [contradiction | simpl; lia]. }
  assert (Hsum : sum (map (fun x => x + c) l) = sum l + INR (length l) * c).
  { unfold sum. clear Hne Hn. induction l as [|x l IH].
    - simpl. lra.
    - cbn [map fold_right]. rewrite IH.
      change (length (x :: l)) with (S (length l)). rewrite S_INR. lra. }
  rewrite Hsum. field. lra.
Qed.

Lemma std_shift (c : R) (l : list R) :
  l <> [] -> std (map (fun x => x + c) l) = std l.
Proof.
  intros Hne. unfold std. rewrite (mean_shift c l Hne), map_map.
  f_equal. f_equal. apply map_ext. intros x. f_equal. lra.
Qed.

(** X5.  Adding one constant to every return does not change any weight. *)
Theorem weights_shift_invariant (beta max_reward_weight c : R) (returns : list R) :
  weights beta max_reward_weight (map (fun x => x + c) returns)
  = weights beta max_reward_weight returns.
Proof.
  destruct returns as [|r returns]; [reflexivity|].
  set (l := r :: returns).
  assert (Hne : l <> []) by discriminate.
  unfold weights, rewards_k_scaled, normalize.
  rewrite (mean_shift c l Hne), (std_shift c l Hne), !map_map.
  apply map_ext. intros x. do 3 f_equal. lra.
Qed.

(** X6.  With [beta >= 0] the weights are monotone in the returns: a transition
    whose return is not larger gets a weight that is not larger. *)
Theorem weights_monotone (beta max_reward_weight : R) (returns : list R)
    (i j : nat) :
  0 <= beta -> (i < length returns)%nat -> (j < length returns)%nat ->
  nth i returns 0 <= nth j returns 0 ->
  nth i (weights beta max_reward_weight returns) 0
  <= nth j (weights beta max_reward_weight returns) 0.
Proof.
  intros Hb Hi Hj Hle. rewrite !weights_nth by assumption.
  pose proof (denominator_pos returns) as Hd.
  apply Rle_min_compat_r.
  assert (Hz : (nth i returns 0 - mean returns) / (std returns + epsilon)
               <= (nth j returns 0 - mean returns) / (std returns + epsilon)).
  { unfold Rdiv. apply Rmult_le_compat_r; [|lra].
    left. now apply Rinv_0_lt_compat. }
  assert (Hbz : beta * ((nth i returns 0 - mean returns) / (std returns + epsilon))
                <= beta * ((nth j returns 0 - mean returns) / (std returns + epsilon)))
    by (apply Rmult_le_compat_l; assumption).
  destruct Hbz as [Hlt|Heq]; [left; now apply exp_increasing | right; now rewrite Heq].
Qed.

Lemma weights_monotone_witness :
  nth 0 (weights 1 100 [0; 1]) 0 <= nth 1 (weights 1 100 [0; 1]) 0.
Proof.
  apply (weights_monotone 1 100 [0; 1] 0 1).
  - lra.
  - simpl. lia.
  - simpl. lia.
  - simpl. lra.
Defined.

(** X7.  When all returns are equal (to any value, not only zero) every weight
    is [min(1, max_reward_weight)]. *)
Theorem weights_constant_returns (beta max_reward_weight c : R) (returns : list R) :
  List.Forall (fun x => x = c) returns ->
  List.Forall (fun w => w = Rmin 1 max_reward_weight)
              (weights beta max_reward_weight returns).
Proof.
  intros Hall.
  assert (Hmean : returns <> [] -> mean returns = c).
  { intros Hne. unfold mean.
    assert (Hn : 0 < INR (length returns)).
    { apply lt_0_INR. destruct returns; [contradiction | simpl; lia]. }
    assert (Hsum : sum returns = INR (length returns) * c).
    { unfold sum. clear Hne Hn. induction Hall as [|x l Hx _ IH].
      - simpl. lra.
      - cbn [fold_right]. rewrite IH, Hx.
        change (length (c :: l)) with (S (length l)). rewrite S_INR. lra. }
    rewrite Hsum. field. lra. }
  apply List.Forall_forall. intros w Hw. apply weights_In in Hw.
  destruct Hw as (x & Hx & ->).
  assert (Hne : returns <> []) by (intros ->; contradiction).
  rewrite List.Forall_forall in Hall. rewrite (Hall x Hx), (Hmean Hne).
  unfold Rminus. rewrite Rplus_opp_r. unfold Rdiv.
  rewrite Rmult_0_l, Rmult_0_r, exp_0. reflexivity.
Qed.

Lemma weights_constant_returns_witness :
  List.Forall (fun w => w = Rmin 1 100) (weights 1 100 [5; 5]).
Proof.
  apply (weights_constant_returns 1 100 5 [5; 5]). repeat constructor.
Defined.

End WeightExtras.

(** *** Video path options *)

Section Options.
Context {W : Type} `{Collaborators W}.
Variable cfg : config.

Lemma nth_error_lookup {A : Type} (l : list A) : forall i : nat,
  nth_error l i = l !! i.
Proof. induction l as [|x l IH]; intros [|i]; simpl; auto. Qed.

Lemma lookup_repeat {A : Type} (x : A) (n i : nat) :
  (i < n)%nat -> repeat x n !! i = Some x.
Proof.
  revert i. induction n as [|n IH]; intros [|i] Hi; simpl; try lia; auto.
  apply IH. lia.
Qed.

Lemma set_video_paths_lookup (itr_ : Z) (s : state W) (n : nat) :
  forall (k : nat) (o : list (gmap string video_path)),
    (k + n <= length o)%nat ->
    exists o',
      for_each (seq k n) (set_video_path itr_) o s = Ok o' s /\
      length o' = length o /\
      forall i : nat,
        o' !! i
        = if (k <=? i)%nat && (i <? k + n)%nat
          then (fun d => <["video_path" := VideoPath itr_ i]> d) <$> (o !! i)
          else o !! i.
Proof.
  induction n as [|n IH]; intros k o Hk.
  - exists o. split; [reflexivity|]. split; [reflexivity|]. intros i.
    destruct (Nat.leb_spec k i), (Nat.ltb_spec i (k + 0)); simpl; auto; lia.
  - cbn [seq for_each]. unfold bind, set_video_path at 1.
    destruct (nth_error o k) as [d|] eqn:E;
      [|apply nth_error_None in E; lia].
    unfold ret at 1.
    destruct (IH (S k) (<[k := <["video_path" := VideoPath itr_ k]> d]> o))
      as (o' & Ho' & Hl & Hlook).
    { rewrite length_insert. lia. }
    exists o'. split; [exact Ho'|]. split; [rewrite Hl; apply length_insert|].
    intros i. rewrite Hlook. rewrite nth_error_lookup in E.
    destruct (Nat.eq_dec i k) as [->|Hne].
    + rewrite list_lookup_insert_eq by lia. rewrite E.
      destruct (Nat.leb_spec (S k) k); [lia|]. simpl.
      destruct (Nat.leb_spec k k); [|lia].
      destruct (Nat.ltb_spec k (k + S n)); [|lia]. reflexivity.
    + rewrite list_lookup_insert_ne by auto.
      destruct (Nat.leb_spec (S k) i), (Nat.leb_spec k i),
        (Nat.ltb_spec i (S k + n)), (Nat.ltb_spec i (k + S n)); simpl; auto; lia.
Qed.

Lemma set_video_paths_overrun (itr_ : Z) (s : state W) (n : nat) :
  forall (k : nat) (o : list (gmap string video_path)),
    (k <= length o < k + n)%nat ->
    for_each (seq k n) (set_video_path itr_) o s = Raise Py.IndexError s.
Proof.
  induction n as [|n IH]; intros k o Hk; [lia|].
  cbn [seq for_each]. unfold bind, set_video_path at 1.
  destruct (nth_error o k) as [d|] eqn:E.
  - unfold ret at 1. apply IH. rewrite length_insert.
    assert (k < length o)%nat by (apply nth_error_Some; congruence). lia.
  - reflexivity.
Qed.

(** X8.  The per-environment option dictionaries: a zero [render_freq] raises
    [ZeroDivisionError]; on a rendering iteration with [n_render > n_envs] the
    assignment raises [IndexError]; otherwise there are [n_envs] dictionaries,
    the first [n_render] of them holding exactly the key [video_path] with the
    path of this iteration and environment on a rendering iteration, and all
    others empty. *)
Theorem prepare_options_paths (itr_ : Z) (s : state W) :
  (render_freq cfg = 0 ->
   prepare_options cfg itr_ s = Raise Py.ZeroDivisionError s) /\
  (render_freq cfg <> 0 ->
   let rendering := (itr_ mod render_freq cfg =? 0) && render_video cfg in
   (rendering = true -> (n_envs cfg < n_render cfg)%nat ->
    prepare_options cfg itr_ s = Raise Py.IndexError s) /\
   (rendering = false \/ (n_render cfg <= n_envs cfg)%nat ->
    exists o,
      prepare_options cfg itr_ s = Ok o s /\
      length o = n_envs cfg /\
      forall i : nat, (i < n_envs cfg)%nat ->
        o !! i = Some (if rendering && (i <? n_render cfg)%nat
                       then <["video_path" := VideoPath itr_ i]> ∅
                       else ∅))).
Proof.
  split.
  - intros Hz. unfold prepare_options, Py.mod_. rewrite Hz. reflexivity.
  - intros Hnz rendering.
    assert (Hb : prepare_options cfg itr_ s
                 = (if rendering
                    then for_each (seq 0 (n_render cfg)) (set_video_path itr_)
                                  (repeat (∅ : gmap string video_path) (n_envs cfg))
                    else ret (repeat (∅ : gmap string video_path) (n_envs cfg))) s).
    { unfold prepare_options, Py.mod_.
      destruct (Z.eqb_spec (render_freq cfg) 0); [contradiction|]. reflexivity. }
    rewrite Hb. clear Hb. split.
    + intros Hr Hlt. rewrite Hr. apply set_video_paths_overrun.
      rewrite repeat_length. lia.
    + intros Hcase. destruct rendering eqn:Hr.
      * destruct Hcase as [Hf|Hle]; [discriminate|].
        destruct (set_video_paths_lookup itr_ s (n_render cfg) 0
                    (repeat (∅ : gmap string video_path) (n_envs cfg)))
          as (o & Ho & Hl & Hlook).
        { rewrite repeat_length. lia. }
        exists o. split; [exact Ho|]. rewrite repeat_length in Hl.
        split; [exact Hl|]. intros i Hi. rewrite Hlook.
        rewrite lookup_repeat by exact Hi. simpl.
        destruct (Nat.ltb_spec i (n_render cfg)); reflexivity.
      * exists (repeat (∅ : gmap string video_path) (n_envs cfg)).
        split; [reflexivity|]. split; [apply repeat_length|].
        intros i Hi. now rewrite lookup_repeat.
Qed.
End Options.

Lemma prepare_options_paths_witness :
  exists o,
    prepare_options render_cfg 4 (start []) = Ok o (start []) /\
    o !! 1%nat = Some (<["video_path" := VideoPath 4 1]> ∅) /\
    o !! 2%nat = Some ∅.
Proof.
  destruct (prepare_options_paths render_cfg 4 (start [])) as [_ Hnz].
  destruct Hnz as [_ Hok]; [discriminate|].
  destruct Hok as (o & Ho & _ & Hlook); [right; simpl; lia|].
  exists o. split; [exact Ho|]. split.
  - apply (Hlook 1%nat). simpl. lia.
  - apply (Hlook 2%nat). simpl. lia.
Defined.

(** *** Calls of the epilogue *)

Lemma not_epilogue_rollout (c : call) : phase_of c = Rollout -> phase_of c <> Epilogue.
Proof. intros ->. discriminate. Qed.

Lemma not_epilogue_update (c : call) : phase_of c = Update -> phase_of c <> Epilogue.
Proof. intros ->. discriminate. Qed.

Section EpilogueCalls.
Context {W : Type} `{Collaborators W}.
Variable cfg : config.

Tactic Notation "step" hyp(H) "as" ident(a) ident(s) ident(E) :=
  apply bind_inv in H; destruct H as (a & s & E & H).

(** The stages before the epilogue make no epilogue call and keep the
    counter and the result list. *)
Lemma run_iteration_split (l l' : locals) (s s' : state W) :
  run_iteration cfg l s = Ok l' s' ->
  exists (m : metrics) (l2 : locals) (s2 : state W),
    same_log l l2 /\
    extends (fun c => phase_of c <> Epilogue) s s2 /\
    render_freq cfg <> 0 /\ val_freq cfg <> 0 /\
    finish_iteration cfg (eval_mode_at cfg (itr l)) m l2 s2 = Ok l' s'.
Proof.
  intros Hr. unfold run_iteration in Hr.
  set (P := fun c => phase_of c <> Epilogue).
  apply bind_inv in Hr. destruct Hr as (o & s1 & E1 & Hr).
  assert (Hrf : render_freq cfg <> 0).
  { intros Hz. unfold prepare_options, Py.mod_ in E1. rewrite Hz in E1.
    discriminate E1. }
  apply (sat_Ok P _ _ _ _ _ (sat_prepare_options cfg P _)) in E1.
  destruct E1 as [X1 _].
  apply bind_inv in Hr. destruct Hr as (ev & s2 & E2 & Hr).
  apply (sat_Ok P _ _ _ _ _ (sat_eval_mode_of cfg P _)) in E2.
  destruct E2 as [X2 [Hv ->]].
  apply bind_inv in Hr. destruct Hr as (u & s3 & E3 & Hr).
  assert (X3 : extends P s2 s3).
  { revert E3.
    destruct ((itr l mod val_freq cfg =? 0) && negb (force_train cfg)); intros E3;
      refine (proj1 (sat_Ok P (fun _ => True) _ _ _ _ _ E3));
      apply sat_do_call; [discriminate | discriminate | exact I
                         | discriminate | discriminate | exact I]. }
  apply bind_inv in Hr. destruct Hr as (b0 & s4 & E4 & Hr).
  apply (sat_Ok P _ _ _ _ _ (sat_begin_rollout cfg P not_epilogue_rollout _ _ _)) in E4.
  destruct E4 as [X4 _].
  apply bind_inv in Hr. destruct Hr as (b & s5 & E5 & Hr).
  apply (sat_Ok P _ _ _ _ _ (sat_collect cfg P not_epilogue_rollout _ _)) in E5.
  destruct E5 as [X5 _].
  apply bind_inv in Hr. destruct Hr as (lm & s6 & E6 & Hr).
  apply (sat_Ok P _ _ _ _ _ (sat_summarize cfg P _ _ ltac:(discriminate))) in E6.
  destruct E6 as [X6 [Hi6 Hr6]]. simpl in Hi6, Hr6.
  apply bind_inv in Hr. destruct Hr as (l2 & s7 & E7 & Hr).
  assert (X7 : extends P s6 s7 /\ same_log (fst lm) l2).
  { destruct (_ && _).
    - injection E7 as <- <-. split; [apply extends_refl | split; reflexivity].
    - refine (sat_Ok P (same_log (fst lm)) _ _ _ _ _ E7). apply sat_update.
      + intros c Hc _. now apply not_epilogue_update.
      + intros. discriminate. }
  destruct X7 as [X7 [Hi7 Hr7]].
  exists (snd lm), l2, s7. split; [split; congruence|].
  split; [|split; [exact Hrf | split; [exact Hv | exact Hr]]].
  eapply extends_trans; [exact X1|]. eapply extends_trans; [exact X2|].
  eapply extends_trans; [exact X3|]. eapply extends_trans; [exact X4|].
  eapply extends_trans; [exact X5|]. eapply extends_trans; [exact X6|].
  exact X7.
Qed.

Lemma finish_iteration_calls (eval_mode : bool) (m : metrics) (l l' : locals)
    (s s' : state W) :
  finish_iteration cfg eval_mode m l s = Ok l' s' ->
  save_model_freq cfg <> 0 /\ log_freq cfg <> 0 /\
  exists evs,
    trace s' = trace s ++ evs /\
    map call_name evs = epilogue_names cfg eval_mode (itr l) /\
    wandb_calls evs
    = (if (itr l mod log_freq cfg =? 0) && use_wandb cfg
       then [(itr l, negb eval_mode)] else []).
Proof.
  intros Hf. unfold finish_iteration in Hf.
  step Hf as u1 s1 E. unfold do_call in E. injection E as <- <-.
  step Hf as r s2 E. apply lift_mod_inv in E. destruct E as (Hsave & -> & ->).
  split; [exact Hsave|].
  step Hf as u2 s0 E.
  assert (Hs0 : trace s0 = trace s ++ [CLrSchedulerStep]
                  ++ (if saves_model cfg (itr l) then [CSaveModel] else [])).
  { unfold saves_model. destruct (_ || _).
    - unfold do_call in E. injection E as <- <-. simpl.
      now rewrite <- app_assoc.
    - injection E as <- <-. reflexivity. }
  clear E.
  step Hf as lg s3 E. apply lift_mod_inv in E. destruct E as (Hlog & -> & ->).
  split; [exact Hlog|].
  step Hf as rr s4 E. injection Hf as _ <-.
  unfold epilogue_names.
  destruct (itr l mod log_freq cfg =? 0).
  - step E as rr1 s5 E0.
    assert (Hmode : exists wb,
               trace s5 = trace s0
                 ++ (if eval_mode then [] else [CTimer])
                 ++ [CLogInfo (if eval_mode
                               then MsgEval (success_rate m) (avg_episode_reward m)
                                            (avg_best_reward m)
                               else MsgTrain (itr l) (default 0%R (loss l))
                                             (avg_episode_reward m)
                                             (fst (timer (world s0))))]
                 ++ (if use_wandb cfg
                     then [CWandbLog wb (itr l) (negb eval_mode)] else [])).
    { destruct eval_mode.
      - unfold log_eval in E0.
        step E0 as v1 t1 F. unfold do_call in F. injection F as <- <-.
        step E0 as v2 t2 F.
        assert (Ht2 : exists wb,
                   trace t2 = trace s0 ++ [] ++
                     [CLogInfo (MsgEval (success_rate m) (avg_episode_reward m)
                                        (avg_best_reward m))]
                     ++ (if use_wandb cfg then [CWandbLog wb (itr l) (negb true)]
                         else [])).
        { destruct (use_wandb cfg).
          - unfold do_call in F. injection F as <- <-. simpl.
            eexists. rewrite <- app_assoc. reflexivity.
          - injection F as <- <-. exists ∅. reflexivity. }
        step E0 as v3 t3 F1. unfold set_last in F1.
        destruct (rev _); [discriminate F1|]. injection F1 as <- <-.
        step E0 as v4 t4 F2. unfold set_last in F2.
        destruct (rev _); [discriminate F2|]. injection F2 as <- <-.
        unfold set_last in E0.
        destruct (rev _); [discriminate E0|]. injection E0 as _ <-.
        exact Ht2.
      - unfold log_train in E0.
        step E0 as ls t1 F. destruct (loss l) as [ls0|]; [|discriminate F].
        injection F as <- <-.
        step E0 as t t2 F. unfold ask in F. injection F as <- <-.
        step E0 as v1 t3 F. unfold do_call in F. injection F as <- <-.
        step E0 as v2 t4 F.
        assert (Ht4 : exists wb,
                   trace t4 = trace s0 ++ [CTimer] ++
                     [CLogInfo (MsgTrain (itr l) ls0 (avg_episode_reward m)
                                         (fst (timer (world s0))))]
                     ++ (if use_wandb cfg then [CWandbLog wb (itr l) (negb false)]
                         else [])).
        { destruct (use_wandb cfg).
          - unfold do_call in F. injection F as <- <-. simpl.
            eexists. rewrite <- !app_assoc. reflexivity.
          - injection F as <- <-. exists ∅. simpl. rewrite <- !app_assoc.
            reflexivity. }
        step E0 as v3 t5 F1. unfold set_last in F1.
        destruct (rev _); [discriminate F1|]. injection F1 as <- <-.
        unfold set_last in E0.
        destruct (rev _); [discriminate E0|]. injection E0 as _ <-.
        exact Ht4. }
    clear E0. destruct Hmode as (wb & Hmode).
    step E as t s6 E0. unfold ask in E0. injection E0 as <- <-.
    step E as rr2 s7 E0. unfold set_last in E0.
    destruct (rev rr1); [discriminate E0|]. injection E0 as <- <-.
    step E as u3 s8 E0. unfold pickle_dump in E0. injection E0 as <- <-.
    injection E as _ <-. cbn [trace].
    eexists. split.
    { rewrite Hmode, Hs0, <- !app_assoc. reflexivity. }
    split.
    + rewrite !map_app. cbn [map call_name].
      destruct (saves_model cfg (itr l)), eval_mode, (use_wandb cfg); reflexivity.
    + unfold wandb_calls. rewrite !flat_map_app.
      destruct (saves_model cfg (itr l)), eval_mode, (use_wandb cfg); reflexivity.
  - injection E as _ <-. eexists. split; [exact Hs0|]. split.
    + rewrite map_app. destruct (saves_model cfg (itr l)); reflexivity.
    + unfold wandb_calls. rewrite flat_map_app.
      destruct (saves_model cfg (itr l)); reflexivity.
Qed.
End EpilogueCalls.

(** *** The loop *)

Lemma count_name_app (name : string) (e1 e2 : list call) :
  count_name name (e1 ++ e2) = (count_name name e1 + count_name name e2)%nat.
Proof. unfold count_name. now rewrite map_app, count_occ_app. Qed.

Lemma wandb_calls_not_epilogue (pre : list call) :
  List.Forall (fun c => phase_of c <> Epilogue) pre -> wandb_calls pre = [].
Proof.
  unfold wandb_calls. induction 1 as [|c pre Hc _ IH]; [reflexivity|].
  simpl. rewrite IH. destruct c; try reflexivity. exfalso. apply Hc. reflexivity.
Qed.

Lemma count_name_not_epilogue (name : string) (pre : list call) :
  name = "lr_scheduler.step" \/ name = "save_model" \/ name = "pickle.dump" ->
  List.Forall (fun c => phase_of c <> Epilogue) pre -> count_name name pre = 0%nat.
Proof.
  intros Hn. unfold count_name. induction 1 as [|c pre Hc _ IH]; [reflexivity|].
  cbn [map]. rewrite count_occ_cons_neq; [exact IH|].
  destruct c; try (destruct Hn as [->|[->| ->]]; discriminate);
    exfalso; apply Hc; reflexivity.
Qed.

Section Iterations.
Context {W : Type} `{Collaborators W}.
Variable cfg : config.

(** What a completed iteration has done. *)
Lemma iteration_facts (l l' : locals) (s s' : state W) :
  run_iteration cfg l s = Ok l' s' ->
  (render_freq cfg <> 0 /\ val_freq cfg <> 0 /\
   save_model_freq cfg <> 0 /\ log_freq cfg <> 0) /\
  itr l' = itr l + 1 /\
  (exists record, run_results l' = run_results l ++ [record] /\
                  record !! "itr" = Some (VInt (itr l))) /\
  exists pre epi,
    trace s' = trace s ++ pre ++ epi /\
    List.Forall (fun c => phase_of c <> Epilogue) pre /\
    map call_name epi = epilogue_names cfg (eval_mode_at cfg (itr l)) (itr l) /\
    wandb_calls epi
    = (if (itr l mod log_freq cfg =? 0) && use_wandb cfg
       then [(itr l, negb (eval_mode_at cfg (itr l)))] else []).
Proof.
  intros Hr. apply run_iteration_split in Hr.
  destruct Hr as (m & l2 & s2 & [Hi Hrr] & (pre & Ht & Hp & _) & Hrf & Hv & Hf).
  pose proof (finish_iteration_calls cfg _ _ _ _ _ _ Hf)
    as (Hsave & Hlog & epi & Ht2 & Hnames & Hwb).
  apply finish_iteration_inv in Hf.
  destruct Hf as (_ & Hitr & record & evs & Hres & Hkey & _).
  rewrite Hi in *. rewrite Hrr in *.
  split; [auto|]. split; [exact Hitr|]. split; [eauto|].
  exists pre, epi. split; [rewrite Ht2, Ht, app_assoc; reflexivity|]. auto.
Qed.

Lemma run_loop_facts (n : nat) : forall (l l' : locals) (s s' : state W),
  run_loop cfg n l s = Ok l' s' ->
  itr l' = itr l + Z.of_nat n /\
  exists recs evs,
    run_results l' = run_results l ++ recs /\
    map (fun r : gmap string value => r !! "itr") recs
    = map (fun k => Some (VInt (itr l + Z.of_nat k))) (seq 0 n) /\
    trace s' = trace s ++ evs /\
    count_name "lr_scheduler.step" evs = n /\
    (itr l <= n_train_itr cfg - 1 < itr l + Z.of_nat n ->
     (1 <= count_name "save_model" evs)%nat).
Proof.
  induction n as [|n IH]; intros l l' s s' Hr; simpl in Hr.
  - injection Hr as <- <-. split; [lia|]. exists [], [].
    rewrite !app_nil_r. repeat split; auto. lia.
  - apply bind_inv in Hr. destruct Hr as (l1 & s1 & E & Hr).
    apply iteration_facts in E.
    destruct E as (_ & Hitr & (record & Hres & Hkey) & pre & epi & Ht & Hp & Hn & _).
    apply IH in Hr.
    destruct Hr as (Hitr' & recs & evs & Hres' & Hkeys & Ht' & Hlr & Hsv).
    split; [lia|].
    exists (record :: recs), ((pre ++ epi) ++ evs).
    split; [rewrite Hres', Hres, <- app_assoc; reflexivity|].
    split.
    { cbn [map seq]. rewrite Hkey, Z.add_0_r. f_equal.
      rewrite Hkeys, <- seq_shift, map_map. apply map_ext. intros k.
      rewrite Hitr. do 2 f_equal. lia. }
    split; [rewrite Ht', Ht, <- !app_assoc; reflexivity|].
    assert (Hepi_lr : count_name "lr_scheduler.step" epi = 1%nat).
    { unfold count_name. rewrite Hn. unfold epilogue_names.
      destruct (saves_model cfg (itr l)), (itr l mod log_freq cfg =? 0),
        (eval_mode_at cfg (itr l)), (use_wandb cfg); reflexivity. }
    split.
    + rewrite !count_name_app, Hlr, Hepi_lr.
      rewrite count_name_not_epilogue by auto. lia.
    + intros Hlast. rewrite !count_name_app.
      destruct (Z.eq_dec (itr l) (n_train_itr cfg - 1)) as [Heq|Hne].
      * assert (Hepi_sv : count_name "save_model" epi = 1%nat).
        { unfold count_name. rewrite Hn. unfold epilogue_names, saves_model.
          rewrite Heq, Z.eqb_refl, orb_true_r.
          destruct ((n_train_itr cfg - 1) mod log_freq cfg =? 0),
            (eval_mode_at cfg (n_train_itr cfg - 1)), (use_wandb cfg); reflexivity. }
        lia.
      * assert (1 <= count_name "save_model" evs)%nat by (apply Hsv; lia). lia.
Qed.
End Iterations.

(** X11.  The loop: with [itr >= n_train_itr] at entry the body never runs; a
    run that completes has made [n_train_itr - itr] iterations, left the counter
    at its start plus that number, appended one record per iteration whose [itr]
    keys count up from the start, stepped the scheduler once per iteration, and
    saved the model at least once if the body ran at all. *)
Theorem run_iterates {W : Type} `{Collaborators W} (cfg : config) (itr0 : Z)
    (s : state W) :
  (n_train_itr cfg <= itr0 -> run cfg itr0 s = Ok (initial_locals cfg itr0) s) /\
  (forall (l' : locals) (s' : state W),
      run cfg itr0 s = Ok l' s' ->
      let n := Z.to_nat (n_train_itr cfg - itr0) in
      itr l' = itr0 + Z.of_nat n /\
      map (fun r : gmap string value => r !! "itr") (run_results l')
      = map (fun k => Some (VInt (itr0 + Z.of_nat k))) (seq 0 n) /\
      exists evs,
        trace s' = trace s ++ evs /\
        count_name "lr_scheduler.step" evs = n /\
        (itr0 < n_train_itr cfg -> (1 <= count_name "save_model" evs)%nat)).
Proof.
  split.
  - intros Hle. unfold run. replace (Z.to_nat (n_train_itr cfg - itr0)) with 0%nat by lia.
    reflexivity.
  - intros l' s' Hr n. unfold run in Hr. fold n in Hr.
    apply run_loop_facts in Hr.
    destruct Hr as (Hitr & recs & evs & Hres & Hkeys & Ht & Hlr & Hsv).
    cbn [itr run_results initial_locals] in *.
    split; [exact Hitr|]. split; [rewrite Hres; exact Hkeys|].
    exists evs. split; [exact Ht|]. split; [exact Hlr|].
    intros Hlt. apply Hsv. unfold n. lia.
Qed.

Lemma run_iterates_witness :
  run eval_cfg 2 (start []) = Ok (initial_locals eval_cfg 2) (start []) /\
  exists l' s',
    run eval_cfg 0 (start [[0]; [1]; [0]]) = Ok l' s' /\
    itr l' = 2 /\
    map (fun r : gmap string value => r !! "itr") (run_results l')
    = [Some (VInt 0); Some (VInt 1)].
Proof.
  destruct (run_iterates eval_cfg 2 (start [])) as [Hempty _].
  split; [apply Hempty; simpl; lia|].
  destruct (run_iterates eval_cfg 0 (start [[0]; [1]; [0]])) as [_ Hrun].
  destruct (run eval_cfg 0 (start [[0]; [1]; [0]])) as [l' s'|e s'] eqn:E.
  - exists l', s'. split; [reflexivity|].
    destruct (Hrun l' s' eq_refl) as (Hitr & Hkeys & _).
    split; [exact Hitr | exact Hkeys].
  - exfalso. vm_compute in E. discriminate E.
Defined.

(** *** Order of the epilogue and zero frequencies *)

(** X10.  The calls of a completed iteration end with the epilogue, in this
    order: [lr_scheduler.step], [save_model] when due, and on a logging
    iteration the clock (train mode only), [log.info], [wandb.log] when enabled,
    the clock and [pickle.dump]; nothing before is an epilogue call, and the
    iteration calls [wandb.log] at most once, with [step = itr] and [commit]
    true exactly in train mode. *)
Theorem epilogue_call_order {W : Type} `{Collaborators W} (cfg : config)
    (l l' : locals) (s s' : state W) :
  run_iteration cfg l s = Ok l' s' ->
  exists pre epi,
    trace s' = trace s ++ pre ++ epi /\
    List.Forall (fun c => phase_of c <> Epilogue) pre /\
    map call_name epi = epilogue_names cfg (eval_mode_at cfg (itr l)) (itr l) /\
    wandb_calls (pre ++ epi)
    = (if (itr l mod log_freq cfg =? 0) && use_wandb cfg
       then [(itr l, negb (eval_mode_at cfg (itr l)))] else []).
Proof.
  intros Hr. apply iteration_facts in Hr.
  destruct Hr as (_ & _ & _ & pre & epi & Ht & Hp & Hn & Hwb).
  exists pre, epi. split; [exact Ht|]. split; [exact Hp|]. split; [exact Hn|].
  unfold wandb_calls in *. rewrite flat_map_app.
  fold (wandb_calls pre). rewrite (wandb_calls_not_epilogue pre Hp). exact Hwb.
Qed.

Lemma epilogue_call_order_witness :
  exists l' s' pre epi,
    run_iteration train_cfg (initial_locals train_cfg 0)
      (start [[0]; [1]; [0]]) = Ok l' s' /\
    trace s' = [] ++ pre ++ epi /\
    map call_name epi
    = ["lr_scheduler.step"; "save_model"; "timer"; "log.info"; "timer";
       "pickle.dump"].
Proof.
  destruct (run_iteration train_cfg (initial_locals train_cfg 0)
              (start [[0]; [1]; [0]])) as [l' s'|e s'] eqn:E.
  - destruct (epilogue_call_order _ _ _ _ _ E) as (pre & epi & Ht & _ & Hn & _).
    exists l', s', pre, epi. split; [reflexivity|]. split; [exact Ht | exact Hn].
  - exfalso. vm_compute in E. discriminate E.
Defined.

Section ZeroFrequency.
Context {W : Type} `{Collaborators W}.
Variable cfg : config.

Lemma finish_iteration_zero_save (eval_mode : bool) (m : metrics) (l : locals)
    (s : state W) :
  save_model_freq cfg = 0 ->
  finish_iteration cfg eval_mode m l s
  = Raise Py.ZeroDivisionError
          {| world := notify CLrSchedulerStep (world s);
             trace := trace s ++ [CLrSchedulerStep];
             result_file := result_file s |}.
Proof.
  intros Hz. unfold finish_iteration, Py.mod_. rewrite Hz. reflexivity.
Qed.

Lemma finish_iteration_zero_log (eval_mode : bool) (m : metrics) (l : locals)
    (s : state W) :
  save_model_freq cfg <> 0 -> log_freq cfg = 0 ->
  exists s',
    finish_iteration cfg eval_mode m l s = Raise Py.ZeroDivisionError s' /\
    trace s' = trace s ++ [CLrSchedulerStep]
               ++ (if saves_model cfg (itr l) then [CSaveModel] else []) /\
    result_file s' = result_file s.
Proof.
  intros Hs Hz. unfold finish_iteration, Py.mod_, saves_model. rewrite Hz.
  destruct (Z.eqb_spec (save_model_freq cfg) 0); [contradiction|].
  unfold bind, do_call, lift, ret. cbn [world trace result_file].
  destruct (_ || _); cbn [Z.eqb raise world trace result_file];
    eexists; (split; [reflexivity|]); rewrite <- ?app_assoc; split; reflexivity.
Qed.
End ZeroFrequency.

(** X9.  Each of the four frequencies raises [ZeroDivisionError] when it is
    zero, at its own place: [render_freq] and [val_freq] before any call of the
    iteration, [save_model_freq] right after the scheduler step, [log_freq]
    after the scheduler step and the checkpoint and without touching the results
    file; an iteration that completes had all four non-zero. *)
Theorem zero_frequency_raises {W : Type} `{Collaborators W} (cfg : config)
    (l : locals) (s : state W) :
  (render_freq cfg = 0 -> run_iteration cfg l s = Raise Py.ZeroDivisionError s) /\
  (render_freq cfg <> 0 -> (n_render cfg <= n_envs cfg)%nat -> val_freq cfg = 0 ->
   run_iteration cfg l s = Raise Py.ZeroDivisionError s) /\
  (forall (eval_mode : bool) (m : metrics) (l2 : locals) (s2 : state W),
      save_model_freq cfg = 0 ->
      exists s',
        finish_iteration cfg eval_mode m l2 s2 = Raise Py.ZeroDivisionError s' /\
        trace s' = trace s2 ++ [CLrSchedulerStep]) /\
  (forall (eval_mode : bool) (m : metrics) (l2 : locals) (s2 : state W),
      save_model_freq cfg <> 0 -> log_freq cfg = 0 ->
      exists s',
        finish_iteration cfg eval_mode m l2 s2 = Raise Py.ZeroDivisionError s' /\
        trace s' = trace s2 ++ [CLrSchedulerStep]
                   ++ (if saves_model cfg (itr l2) then [CSaveModel] else []) /\
        result_file s' = result_file s2) /\
  (forall (l' : locals) (s' : state W),
      run_iteration cfg l s = Ok l' s' ->
      render_freq cfg <> 0 /\ val_freq cfg <> 0 /\
      save_model_freq cfg <> 0 /\ log_freq cfg <> 0).
Proof.
  split; [|split; [|split; [|split]]].
  - intros Hz. unfold run_iteration, prepare_options, Py.mod_. rewrite Hz.
    reflexivity.
  - intros Hr Hn Hz. unfold run_iteration.
    destruct (prepare_options_ok cfg (itr l) s Hr Hn) as (o & Ho).
    rewrite (bind_Ok _ _ _ _ _ Ho).
    apply bind_Raise. unfold eval_mode_of, Py.mod_. rewrite Hz. reflexivity.
  - intros eval_mode m l2 s2 Hz. eexists.
    split; [apply finish_iteration_zero_save; exact Hz | reflexivity].
  - intros. now apply finish_iteration_zero_log.
  - intros l' s' Hr. apply iteration_facts in Hr. tauto.
Qed.

Lemma zero_frequency_raises_witness :
  exists s',
    finish_iteration (config_ 1 false false 4 0) true
      {| num_episode_finished := 0; avg_episode_reward := 0%R;
         avg_best_reward := 0%R; success_rate := 0%R |}
      (initial_locals (config_ 1 false false 4 0) 0) (start [])
    = Raise Py.ZeroDivisionError s' /\
    trace s' = [CLrSchedulerStep; CSaveModel].
Proof.
  destruct (zero_frequency_raises (config_ 1 false false 4 0)
              (initial_locals (config_ 1 false false 4 0) 0) (start []))
    as (_ & _ & _ & Hlog & _).
  destruct (Hlog true
              {| num_episode_finished := 0; avg_episode_reward := 0%R;
                 avg_best_reward := 0%R; success_rate := 0%R |}
              (initial_locals (config_ 1 false false 4 0) 0) (start []))
    as (s' & E & Ht & _); [discriminate | reflexivity |].
  exists s'. split; [exact E | exact Ht].
Defined.

(** *** One collection step *)

Section Rollout.
Context {W : Type} `{Collaborators W}.
Variable cfg : config.

Tactic Notation "step" hyp(H) "as" ident(a) ident(s) ident(E) :=
  apply bind_inv in H; destruct H as (a & s & E & H).

Lemma Forall_repeat_len {A : Type} (x : A) (n : nat) (P : A -> Prop) :
  P x -> List.Forall P (repeat x n).
Proof. intros Hx. induction n; simpl; constructor; auto. Qed.

Lemma begin_rollout_facts (eval_mode : bool)
    (options_venv : list (gmap string video_path)) (l : locals) (b : rollout)
    (s s' : state W) :
  begin_rollout cfg eval_mode options_venv l s = Ok b s' ->
  r_obs_trajs b = [] /\ r_samples_trajs b = [] /\ r_reward_trajs b = [] /\
  length (r_firsts_trajs b) = S (n_steps cfg) /\
  List.Forall (fun row => length row = n_envs cfg) (r_firsts_trajs b) /\
  ((reset_at_iteration cfg || eval_mode = true \/ last_itr_eval l = Some true) /\
   is_Some (r_prev_obs_venv b) /\
   trace s' = trace s ++ [CResetEnvAll options_venv] /\
   r_firsts_trajs b !! 0%nat = Some (repeat 1 (n_envs cfg))
   \/
   reset_at_iteration cfg = false /\ eval_mode = false /\
   last_itr_eval l = Some false /\
   r_prev_obs_venv b = prev_obs_venv l /\ s' = s).
Proof.
  intros Hb. unfold begin_rollout in Hb.
  set (firsts0 := repeat (repeat 0 (n_envs cfg)) (n_steps cfg + 1)) in Hb.
  assert (Hlen0 : length firsts0 = S (n_steps cfg)).
  { unfold firsts0. rewrite repeat_length. lia. }
  assert (Hall0 : List.Forall (fun row => length row = n_envs cfg) firsts0).
  { apply Forall_repeat_len. apply repeat_length. }
  step Hb as c s1 E.
  assert (Hc : s1 = s /\
               (c = true /\ (reset_at_iteration cfg || eval_mode = true
                             \/ last_itr_eval l = Some true)
                \/ c = false /\ reset_at_iteration cfg = false /\
                   eval_mode = false /\ last_itr_eval l = Some false)).
  { unfold reset_decision in E.
    destruct (reset_at_iteration cfg); [injection E as <- <-; auto|].
    destruct eval_mode; [injection E as <- <-; auto|].
    destruct (last_itr_eval l) as [[|]|]; try discriminate E;
      injection E as <- <-; auto 10. }
  clear E. destruct Hc as (-> & [(-> & Hwhy)|(-> & Hr & He & Hl)]).
  - step Hb as o s2 E. unfold ask in E. injection E as <- <-.
    injection Hb as <- <-. cbn [r_obs_trajs r_samples_trajs r_reward_trajs
                                 r_firsts_trajs r_prev_obs_venv trace].
    repeat (split; [reflexivity|]).
    split; [rewrite length_insert; exact Hlen0|].
    split; [apply Forall_insert; [exact Hall0 | apply repeat_length]|].
    left. split; [exact Hwhy|]. split; [eauto|]. split; [reflexivity|].
    apply list_lookup_insert_eq. lia.
  - step Hb as row s2 E. apply broadcast_row_inv in E. destruct E as (Hrow & ->).
    injection Hb as <- <-. cbn [r_obs_trajs r_samples_trajs r_reward_trajs
                                 r_firsts_trajs r_prev_obs_venv].
    repeat (split; [reflexivity|]).
    split; [rewrite length_insert; exact Hlen0|].
    split; [apply Forall_insert; [exact Hall0 | exact Hrow]|].
    right. auto.
Qed.

Lemma collect_step_facts (eval_mode : bool) (k : nat) (b b' : rollout)
    (s s' : state W) :
  collect_step cfg eval_mode k b s = Ok b' s' ->
  is_Some (r_prev_obs_venv b') /\
  length (r_obs_trajs b') = S (length (r_obs_trajs b)) /\
  length (r_samples_trajs b') = S (length (r_samples_trajs b)) /\
  length (r_reward_trajs b') = S (length (r_reward_trajs b)) /\
  length (r_firsts_trajs b') = length (r_firsts_trajs b) /\
  (List.Forall (fun row => length row = n_envs cfg) (r_firsts_trajs b) ->
   List.Forall (fun row => length row = n_envs cfg) (r_firsts_trajs b')) /\
  exists evs,
    trace s' = trace s ++ evs /\
    forward_flags evs = [eval_mode] /\
    length (step_actions evs) = 1%nat /\
    mode_calls evs = [] /\
    count_name "reset_env_all" evs = 0%nat.
Proof.
  intros Hc. unfold collect_step in Hc.
  step Hc as u s1 E1.
  assert (Hs1 : exists pre, trace s1 = trace s ++ pre /\
                            (pre = [] \/ pre = [CPrint k])).
  { destruct (_ =? 0).
    - unfold do_call in E1. injection E1 as <- <-. simpl. eauto.
    - injection E1 as <- <-. exists []. rewrite app_nil_r. auto. }
  clear E1. destruct Hs1 as (pre & Ht1 & Hpre).
  step Hc as prev s2 E2.
  destruct (r_prev_obs_venv b) as [p|] eqn:Hprev; [|discriminate E2].
  injection E2 as <- <-.
  step Hc as samples_ s3 E3. unfold ask in E3. injection E3 as <- <-.
  step Hc as ot s4 E4. apply vstack_inv in E4. destruct E4 as (_ & -> & ->).
  step Hc as st s5 E5. apply vstack_inv in E5. destruct E5 as (_ & -> & ->).
  step Hc as res s6 E6. unfold ask in E6. injection E6 as <- <-.
  destruct (venv_step _ _) as [[[o r] d] w] eqn:Hstep. cbn [fst snd] in Hc.
  step Hc as rt s7 E7. apply vstack_inv in E7. destruct E7 as (_ & -> & ->).
  step Hc as row s8 E8. apply broadcast_row_inv in E8. destruct E8 as (Hrow & ->).
  injection Hc as <- <-.
  cbn [r_obs_trajs r_samples_trajs r_reward_trajs r_firsts_trajs
       r_prev_obs_venv trace].
  split; [eauto|].
  split; [rewrite length_app; simpl; lia|].
  split; [rewrite length_app; simpl; lia|].
  split; [rewrite length_app; simpl; lia|].
  split; [apply length_insert|].
  split; [intros Hall; apply Forall_insert; assumption|].
  eexists. split; [rewrite Ht1, <- !app_assoc; reflexivity|].
  unfold forward_flags, step_actions, mode_calls, count_name.
  rewrite !flat_map_app, List.filter_app, map_app.
  destruct Hpre as [-> | ->]; repeat split; reflexivity.
Qed.
End Rollout.

(** *** The stages of a completed iteration *)

Section StageFacts.
Context {W : Type} `{Collaborators W}.
Variable cfg : config.

Tactic Notation "step" hyp(H) "as" ident(a) ident(s) ident(E) :=
  apply bind_inv in H; destruct H as (a & s & E & H).

Lemma for_each_pure {A S : Type} (body : A -> S -> M W S) (xs : list A) :
  (forall x st s st' s', body x st s = Ok st' s' -> s' = s) ->
  forall st s st' s', for_each xs body st s = Ok st' s' -> s' = s.
Proof.
  intros Hbody. induction xs as [|x xs IH]; intros st s st' s' Hf; simpl in Hf.
  - now injection Hf as _ <-.
  - step Hf as st1 s1 E. apply Hbody in E. subst s1. eapply IH, Hf.
Qed.

Lemma prepare_options_pure (itr_ : Z) (o : list (gmap string video_path))
    (s s' : state W) :
  prepare_options cfg itr_ s = Ok o s' -> s' = s.
Proof.
  intros Hp. unfold prepare_options in Hp.
  step Hp as r s1 E. apply lift_mod_inv in E. destruct E as (_ & _ & ->).
  destruct (_ && _); [|now injection Hp as _ <-].
  eapply for_each_pure; [|exact Hp].
  intros x st s0 st' s0' Hb. unfold set_video_path in Hb.
  destruct (nth_error st x); [now injection Hb as _ <- | discriminate Hb].
Qed.

Lemma collect_facts (eval_mode : bool) (steps : list nat) :
  forall (b b' : rollout) (s s' : state W),
    for_each steps (collect_step cfg eval_mode) b s = Ok b' s' ->
    (is_Some (r_prev_obs_venv b) \/ steps <> [] -> is_Some (r_prev_obs_venv b')) /\
    length (r_obs_trajs b') = (length (r_obs_trajs b) + length steps)%nat /\
    length (r_samples_trajs b') = (length (r_samples_trajs b) + length steps)%nat /\
    length (r_reward_trajs b') = (length (r_reward_trajs b) + length steps)%nat /\
    length (r_firsts_trajs b') = length (r_firsts_trajs b) /\
    (List.Forall (fun row => length row = n_envs cfg) (r_firsts_trajs b) ->
     List.Forall (fun row => length row = n_envs cfg) (r_firsts_trajs b')) /\
    exists evs,
      trace s' = trace s ++ evs /\
      forward_flags evs = repeat eval_mode (length steps) /\
      length (step_actions evs) = length steps /\
      mode_calls evs = [] /\
      count_name "reset_env_all" evs = 0%nat.
Proof.
  induction steps as [|k steps IH]; intros b b' s s' Hc; simpl in Hc.
  - injection Hc as <- <-. repeat split; try lia; auto.
    + intros [Hs|Hne]; [exact Hs | contradiction].
    + exists []. rewrite app_nil_r. repeat split.
  - step Hc as b1 s1 E. apply collect_step_facts in E.
    destruct E as (Hp1 & Ho1 & Hs1 & Hr1 & Hf1 & Ha1 & e1 & Ht1 & Hfl1 & Hst1 & Hm1
                   & Hrs1).
    apply IH in Hc.
    destruct Hc as (Hp & Ho & Hs & Hr & Hf & Ha & e2 & Ht & Hfl & Hst & Hm & Hrs).
    cbn [length]. repeat split; try lia; auto.
    exists (e1 ++ e2). split; [rewrite Ht, Ht1, app_assoc; reflexivity|].
    rewrite count_name_app, Hrs1, Hrs.
    unfold forward_flags, step_actions, mode_calls in *.
    rewrite !flat_map_app, List.filter_app, Hfl1, Hfl, Hm1, Hm, length_app.
    repeat split. lia.
Qed.

Lemma summarize_keeps (b : rollout) (l : locals) (lm : locals * metrics)
    (s s' : state W) :
  summarize cfg b l s = Ok lm s' ->
  last_itr_eval (fst lm) = last_itr_eval l /\
  prev_obs_venv (fst lm) = prev_obs_venv l /\
  done_venv (fst lm) = done_venv l /\
  loss (fst lm) = loss l.
Proof.
  intros Hs. unfold summarize in Hs. destruct (0 <? _).
  - step Hs as ds s0 Ed. step Hs as mx s1 E. injection Hs as <- _. repeat split.
  - step Hs as u s1 E. injection Hs as <- _. repeat split.
Qed.

Lemma update_keeps (l l' : locals) (s s' : state W) :
  update cfg l s = Ok l' s' ->
  last_itr_eval l' = last_itr_eval l /\
  prev_obs_venv l' = prev_obs_venv l /\
  done_venv l' = done_venv l.
Proof.
  intros Hu. unfold update in Hu.
  step Hu as a1 s1 E1. step Hu as a2 s2 E2. step Hu as a3 s3 E3.
  step Hu as a4 s4 E4. step Hu as a5 s5 E5. step Hu as a6 s6 E6.
  injection Hu as <- _. repeat split.
Qed.

Lemma finish_keeps (eval_mode : bool) (m : metrics) (l l' : locals)
    (s s' : state W) :
  finish_iteration cfg eval_mode m l s = Ok l' s' ->
  last_itr_eval l' = last_itr_eval l /\
  prev_obs_venv l' = prev_obs_venv l /\
  done_venv l' = done_venv l /\
  obs_trajs_split l' = obs_trajs_split l /\
  samples_trajs_split l' = samples_trajs_split l /\
  returns_trajs_split l' = returns_trajs_split l /\
  loss l' = loss l.
Proof.
  intros Hf. unfold finish_iteration in Hf.
  step Hf as a1 s1 E1. step Hf as a2 s2 E2. step Hf as a3 s3 E3.
  step Hf as a4 s4 E4. step Hf as a5 s5 E5.
  injection Hf as <- _. repeat split.
Qed.

(** The stages of a completed iteration, one after the other. *)
Lemma run_iteration_stages (l l' : locals) (s s' : state W) :
  run_iteration cfg l s = Ok l' s' ->
  let em := eval_mode_at cfg (itr l) in
  exists o b0 s1 b s2 lm s3 l2 s4,
    prepare_options cfg (itr l) s = Ok o s /\
    begin_rollout cfg em o l
      {| world := notify (if em then CModelEval else CModelTrain) (world s);
         trace := trace s ++ [if em then CModelEval else CModelTrain];
         result_file := result_file s |} = Ok b0 s1 /\
    collect cfg em b0 s1 = Ok b s2 /\
    summarize cfg b
      {| itr := itr l; run_results := run_results l;
         done_venv := r_done_venv b; last_itr_eval := Some em;
         prev_obs_venv := r_prev_obs_venv b;
         obs_trajs_split := obs_trajs_split l;
         samples_trajs_split := samples_trajs_split l;
         returns_trajs_split := returns_trajs_split l;
         loss := loss l |} s2 = Ok lm s3 /\
    (if em then ret (fst lm) else update cfg (fst lm)) s3 = Ok l2 s4 /\
    finish_iteration cfg em (snd lm) l2 s4 = Ok l' s'.
Proof.
  intros Hr em. unfold run_iteration in Hr.
  step Hr as o s0 E0. pose proof (prepare_options_pure _ _ _ _ E0) as ->.
  step Hr as ev s1 E1. rewrite eval_mode_of_eq in E1.
  destruct (val_freq cfg =? 0); [discriminate E1|]. injection E1 as <- <-.
  fold (eval_mode_at cfg (itr l)) in Hr. fold em in Hr.
  step Hr as u s2 E2. unfold do_call in E2. injection E2 as <- <-.
  step Hr as b0 s3 E3. step Hr as b s4 E4. step Hr as lm s5 E5.
  step Hr as l2 s6 E6.
  exists o, b0, s3, b, s4, lm, s5, l2, s6. auto 10.
Qed.
End StageFacts.

(** *** Policy mode, sampling and resets *)

Lemma not_rollout_quiet (evs : list call) :
  List.Forall (fun c => phase_of c <> Rollout) evs ->
  mode_calls evs = [] /\ forward_flags evs = [] /\ step_actions evs = [] /\
  count_name "reset_env_all" evs = 0%nat.
Proof.
  unfold mode_calls, forward_flags, step_actions, count_name.
  induction 1 as [|c evs Hc _ IH]; [repeat split|].
  destruct IH as (I1 & I2 & I3 & I4).
  destruct c; cbn [List.filter flat_map map app call_name];
    try (exfalso; apply Hc; reflexivity);
    rewrite ?I1, ?I2, ?I3; repeat split;
    rewrite count_occ_cons_neq by discriminate; exact I4.
Qed.

Section IterationCalls.
Context {W : Type} `{Collaborators W}.
Variable cfg : config.

Lemma after_rollout_calls (em : bool) (b : rollout) (l1 l2 l' : locals)
    (lm : locals * metrics) (s2 s3 s4 s' : state W) :
  summarize cfg b l1 s2 = Ok lm s3 ->
  (if em then ret (fst lm) else update cfg (fst lm)) s3 = Ok l2 s4 ->
  finish_iteration cfg em (snd lm) l2 s4 = Ok l' s' ->
  exists evs, trace s' = trace s2 ++ evs /\
              List.Forall (fun c => phase_of c <> Rollout) evs.
Proof.
  intros E1 E2 E3. set (P := fun c => phase_of c <> Rollout).
  apply (sat_Ok P _ _ _ _ _ (sat_summarize cfg P _ _ ltac:(discriminate))) in E1.
  destruct E1 as [X1 _].
  assert (X2 : extends P s3 s4).
  { destruct em.
    - injection E2 as _ <-. apply extends_refl.
    - refine (proj1 (sat_Ok P (same_log (fst lm)) _ _ _ _ _ E2)). apply sat_update.
      + intros c Hc _. unfold P. rewrite Hc. discriminate.
      + intros. discriminate. }
  assert (X3 : extends P s4 s').
  { refine (proj1 (sat_Ok P (fun _ => True) _ _ _ _ _ E3)).
    apply sat_finish_iteration. intros c Hc. unfold P. rewrite Hc. discriminate. }
  destruct (extends_trans P _ _ _ X1 (extends_trans P _ _ _ X2 X3))
    as (evs & Ht & Hp & _).
  eauto.
Qed.
End IterationCalls.

(** X12.  A completed iteration switches the policy mode exactly once, to eval
    on an evaluation iteration and to train otherwise, samples the policy
    [n_steps] times, deterministically exactly on an evaluation iteration, and
    steps the environment [n_steps] times. *)
Theorem policy_mode_and_sampling {W : Type} `{Collaborators W} (cfg : config)
    (l l' : locals) (s s' : state W) :
  run_iteration cfg l s = Ok l' s' ->
  let em := eval_mode_at cfg (itr l) in
  exists evs,
    trace s' = trace s ++ evs /\
    mode_calls evs = [if em then CModelEval else CModelTrain] /\
    forward_flags evs = repeat em (n_steps cfg) /\
    length (step_actions evs) = n_steps cfg.
Proof.
  intros Hr em. apply run_iteration_stages in Hr. fold em in Hr.
  destruct Hr as (o & b0 & s1 & b & s2 & lm & s3 & l2 & s4
                  & _ & Eb & Ec & Es & Eu & Ef).
  apply begin_rollout_facts in Eb.
  destruct Eb as (_ & _ & _ & _ & _ & Hcase).
  unfold collect in Ec. apply collect_facts in Ec.
  destruct Ec as (_ & _ & _ & _ & _ & _ & e2 & Ht2 & Hfl & Hst & Hm & _).
  rewrite length_seq in Hfl, Hst.
  destruct (after_rollout_calls cfg em _ _ _ _ _ _ _ _ _ Es Eu Ef) as (e3 & Ht3 & Hq).
  apply not_rollout_quiet in Hq. destruct Hq as (Q1 & Q2 & Q3 & _).
  destruct Hcase as [(_ & _ & Ht1 & _)|(_ & _ & _ & _ & ->)].
  - exists ([if em then CModelEval else CModelTrain] ++ [CResetEnvAll o] ++ e2 ++ e3).
    split; [rewrite Ht3, Ht2, Ht1; cbn [trace]; rewrite <- !app_assoc; reflexivity|].
    unfold mode_calls, forward_flags, step_actions in *.
    rewrite !List.filter_app, !flat_map_app, Hm, Q1, Hfl, Q2, Q3, !length_app, Hst.
    destruct em; cbn; rewrite ?app_nil_r; repeat split; lia.
  - exists ([if em then CModelEval else CModelTrain] ++ e2 ++ e3).
    split; [rewrite Ht3, Ht2; cbn [trace]; rewrite <- !app_assoc; reflexivity|].
    unfold mode_calls, forward_flags, step_actions in *.
    rewrite !List.filter_app, !flat_map_app, Hm, Q1, Hfl, Q2, Q3, !length_app, Hst.
    destruct em; cbn; rewrite ?app_nil_r; repeat split; lia.
Qed.

(** X13.  A completed iteration resets the environments exactly once when
    [reset_at_iteration], the evaluation mode or the flag of the previous
    iteration asks for it, and not at all otherwise; it leaves [last_itr_eval]
    bound to its own mode, so that the next reset decision never raises and is
    true after an evaluation iteration; and [prev_obs_venv] is bound afterwards,
    provided it was bound before whenever [last_itr_eval] was. *)
Theorem reset_policy {W : Type} `{Collaborators W} (cfg : config)
    (l l' : locals) (s s' : state W) :
  run_iteration cfg l s = Ok l' s' ->
  let em := eval_mode_at cfg (itr l) in
  (exists evs,
      trace s' = trace s ++ evs /\
      count_name "reset_env_all" evs = if resets cfg em l then 1%nat else 0%nat) /\
  last_itr_eval l' = Some em /\
  (forall (em' : bool) (s2 : state W),
      reset_decision cfg em' l' s2
      = Ok (reset_at_iteration cfg || em' || em) s2) /\
  ((is_Some (last_itr_eval l) -> is_Some (prev_obs_venv l)) ->
   is_Some (prev_obs_venv l')).
Proof.
  intros Hr em. apply run_iteration_stages in Hr. fold em in Hr.
  destruct Hr as (o & b0 & s1 & b & s2 & lm & s3 & l2 & s4
                  & _ & Eb & Ec & Es & Eu & Ef).
  apply begin_rollout_facts in Eb.
  destruct Eb as (_ & _ & _ & _ & _ & Hcase).
  unfold collect in Ec. apply collect_facts in Ec.
  destruct Ec as (Hprev & _ & _ & _ & _ & _ & e2 & Ht2 & _ & _ & _ & Hrs2).
  destruct (after_rollout_calls cfg em _ _ _ _ _ _ _ _ _ Es Eu Ef) as (e3 & Ht3 & Hq).
  apply not_rollout_quiet in Hq. destruct Hq as (_ & _ & _ & Q4).
  pose proof (summarize_keeps cfg _ _ _ _ _ Es) as (K1 & K2 & _).
  assert (K3 : last_itr_eval l2 = last_itr_eval (fst lm) /\
               prev_obs_venv l2 = prev_obs_venv (fst lm)).
  { destruct em.
    - injection Eu as <- _. auto.
    - apply update_keeps in Eu. tauto. }
  pose proof (finish_keeps cfg _ _ _ _ _ _ Ef) as (K4 & K5 & _).
  cbn [last_itr_eval prev_obs_venv] in K1, K2.
  assert (Hlast : last_itr_eval l' = Some em) by (destruct K3; congruence).
  assert (Hpo : prev_obs_venv l' = r_prev_obs_venv b) by (destruct K3; congruence).
  split; [|split; [exact Hlast|split]].
  - destruct Hcase as [(Hwhy & _ & Ht1 & _)|(Hra & Hem & Hl & _ & ->)].
    + exists ([if em then CModelEval else CModelTrain] ++ [CResetEnvAll o] ++ e2 ++ e3).
      split; [rewrite Ht3, Ht2, Ht1; cbn [trace]; rewrite <- !app_assoc; reflexivity|].
      rewrite !count_name_app, Hrs2, Q4.
      assert (Hres : resets cfg em l = true).
      { unfold resets. destruct Hwhy as [-> | ->]; [reflexivity|].
        apply orb_true_r. }
      rewrite Hres. destruct em; reflexivity.
    + exists ([if em then CModelEval else CModelTrain] ++ e2 ++ e3).
      split; [rewrite Ht3, Ht2; cbn [trace]; rewrite <- !app_assoc; reflexivity|].
      rewrite !count_name_app, Hrs2, Q4.
      unfold resets. rewrite Hra, Hem, Hl. destruct em; reflexivity.
  - intros em' s2'. unfold reset_decision. rewrite Hlast.
    destruct (reset_at_iteration cfg), em'; reflexivity.
  - intros J. rewrite Hpo. apply Hprev.
    destruct Hcase as [(_ & Hsome & _)|(_ & _ & Hl & Hp & _)]; [now left|].
    left. rewrite Hp. apply J. rewrite Hl. eauto.
Qed.

Lemma policy_mode_and_sampling_witness :
  exists l' s' evs,
    run_iteration eval_cfg (initial_locals eval_cfg 0)
      (start [[0]; [1]; [0]]) = Ok l' s' /\
    trace s' = [] ++ evs /\
    mode_calls evs = [CModelEval] /\
    forward_flags evs = [true; true; true].
Proof.
  destruct (run_iteration eval_cfg (initial_locals eval_cfg 0)
              (start [[0]; [1]; [0]])) as [l' s'|e s'] eqn:E.
  - destruct (policy_mode_and_sampling _ _ _ _ _ E) as (evs & Ht & Hm & Hf & _).
    exists l', s', evs. auto.
  - exfalso. vm_compute in E. discriminate E.
Defined.

Lemma reset_policy_witness :
  exists l' s',
    run_iteration eval_cfg (initial_locals eval_cfg 0)
      (start [[0]; [1]; [0]]) = Ok l' s' /\
    last_itr_eval l' = Some true /\
    is_Some (prev_obs_venv l').
Proof.
  destruct (run_iteration eval_cfg (initial_locals eval_cfg 0)
              (start [[0]; [1]; [0]])) as [l' s'|e s'] eqn:E.
  - destruct (reset_policy _ _ _ _ _ E) as (_ & Hl & _ & Hp).
    exists l', s'. split; [reflexivity|]. split; [exact Hl|].
    apply Hp. intros [x Hx]. discriminate Hx.
  - exfalso. vm_compute in E. discriminate E.
Defined.

(** *** Shapes of the buffers and of the split arrays *)

Lemma collect_shaped {W : Type} `{Collaborators W} (cfg : config)
    (eval_mode : bool) (options_venv : list (gmap string video_path))
    (l : locals) (b0 b : rollout) (s s1 s2 : state W) :
  begin_rollout cfg eval_mode options_venv l s = Ok b0 s1 ->
  collect cfg eval_mode b0 s1 = Ok b s2 ->
  rollout_shaped cfg b /\
  ((0 < n_steps cfg)%nat -> is_Some (r_prev_obs_venv b)).
Proof.
  intros Eb Ec. apply begin_rollout_facts in Eb.
  destruct Eb as (Ho & Hs & Hr & Hlen & Hall & _).
  unfold collect in Ec. apply collect_facts in Ec.
  destruct Ec as (Hprev & Ho' & Hs' & Hr' & Hlen' & Hall' & _).
  rewrite length_seq in *. rewrite Ho in Ho'. rewrite Hs in Hs'. rewrite Hr in Hr'.
  split.
  - unfold rollout_shaped. simpl in *. repeat split; auto; lia.
  - intros Hn. apply Hprev. right. destruct (n_steps cfg); [lia | discriminate].
Qed.

(** X14.  After the collection loop the observation, sample and reward buffers
    have [n_steps] rows and the marker array has [n_steps + 1] rows of [n_envs]
    entries; with at least one step the last observation is bound. *)
Theorem rollout_buffers_shaped {W : Type} `{Collaborators W} (cfg : config)
    (eval_mode : bool) (options_venv : list (gmap string video_path))
    (l : locals) (b0 b : rollout) (s s1 s2 : state W) :
  begin_rollout cfg eval_mode options_venv l s = Ok b0 s1 ->
  collect cfg eval_mode b0 s1 = Ok b s2 ->
  rollout_shaped cfg b /\
  ((0 < n_steps cfg)%nat -> is_Some (r_prev_obs_venv b)).
Proof. exact (collect_shaped cfg eval_mode options_venv l b0 b s s1 s2). Qed.

Lemma rollout_buffers_shaped_witness :
  exists b0 s1 b s2,
    begin_rollout eval_cfg true [∅] (initial_locals eval_cfg 0) (start [[0]; [1]; [0]])
    = Ok b0 s1 /\
    collect eval_cfg true b0 s1 = Ok b s2 /\
    length (r_reward_trajs b) = 3%nat /\ length (r_firsts_trajs b) = 4%nat.
Proof.
  destruct (begin_rollout eval_cfg true [∅] (initial_locals eval_cfg 0)
              (start [[0]; [1]; [0]])) as [b0 s1|e s1] eqn:Eb;
    [|exfalso; vm_compute in Eb; discriminate Eb].
  destruct (collect eval_cfg true b0 s1) as [b s2|e s2] eqn:Ec.
  - exists b0, s1, b, s2. split; [reflexivity|]. split; [exact Ec|].
    destruct (rollout_buffers_shaped _ _ _ _ _ _ _ _ _ Eb Ec)
      as ((_ & _ & Hr & Hf & _) & _).
    split; [exact Hr | exact Hf].
  - exfalso. vm_compute in Eb. injection Eb as <- <-.
    vm_compute in Ec. discriminate Ec.
Defined.

Section Coindexed.
Context {W : Type} `{Collaborators W}.
Variable cfg : config.

Lemma concat_map_length {A B C : Type} (f : A -> list B) (g : A -> list C)
    (xs : list A) :
  (forall x, In x xs -> length (f x) = length (g x)) ->
  length (concat (map f xs)) = length (concat (map g xs)).
Proof.
  induction xs as [|x xs IH]; intros Hfg; [reflexivity|].
  simpl. rewrite !length_app, IH, Hfg; auto.
  - now left.
  - intros y Hy. apply Hfg. now right.
Qed.

Lemma concat_map_length_ge {A B : Type} (f : A -> list B) (k : nat) (xs : list A) :
  (forall x, In x xs -> (k <= length (f x))%nat) ->
  (k * length xs <= length (concat (map f xs)))%nat.
Proof.
  induction xs as [|x xs IH]; intros Hf; simpl; [lia|].
  rewrite length_app.
  assert (k <= length (f x))%nat by (apply Hf; now left).
  assert (k * length xs <= length (concat (map f xs)))%nat
    by (apply IH; intros y Hy; apply Hf; now right).
  lia.
Qed.

Lemma segment_returns_length (b : rollout) (env_ind : nat) (start end_ : Z) :
  rollout_shaped cfg b ->
  In (env_ind, start, end_)
     (Segmenter.episodes_start_end (n_envs cfg) (r_firsts_trajs b)) ->
  let seg := (env_ind, start, end_) in
  let n := Z.to_nat (end_ - start + 1) in
  length (Returns.segment_column [] (r_obs_trajs b) seg) = n /\
  length (Returns.segment_column [] (r_samples_trajs b) seg) = n /\
  length (Returns.segment_column 0%R (r_reward_trajs b) seg) = n /\
  length (Returns.returns (Returns.segment_discounted (gamma cfg)
                                                      (r_reward_trajs b) seg)) = n /\
  (2 <= n)%nat.
Proof.
  intros (Ho & Hs & Hr & Hf & _) Hin seg n.
  apply episode_bounds in Hin. rewrite Hf in Hin.
  destruct Hin as (_ & H0 & Hlt & Hend).
  assert (Hb : end_ < Z.of_nat (n_steps cfg)) by lia.
  unfold obs_venv, samples, obs, chunk in Ho, Hs.
  split; [apply segment_column_length; rewrite ?Ho; lia|].
  split; [apply segment_column_length; rewrite ?Hs; lia|].
  assert (Hrl : length (Returns.segment_column 0%R (r_reward_trajs b) seg) = n)
    by (apply segment_column_length; rewrite ?Hr; lia).
  split; [exact Hrl|]. split; [|unfold n; lia].
  subst seg n. rewrite returns_length. unfold Returns.segment_discounted.
  rewrite discounted_length, Hrl. lia.
Qed.

Lemma map_M_np_max (ls : list (list R)) (s : state W) :
  List.Forall (fun r => r <> []) ls ->
  exists maxes, map_M np_max ls s = Ok maxes s /\ length maxes = length ls.
Proof.
  induction 1 as [|r ls Hr _ IH].
  - exists []. split; reflexivity.
  - destruct IH as (maxes & E & Hlen). destruct r as [|x r]; [contradiction|].
    exists (fold_left Rmax r x :: maxes). split; [|simpl; now rewrite Hlen].
    change (map_M np_max ((x :: r) :: ls) s)
      with (bind (np_max (x :: r))
                 (fun y => bind (map_M np_max ls) (fun ys => ret (y :: ys))) s).
    unfold bind at 1. simpl. unfold bind. now rewrite E.
Qed.

Lemma indicator_sum_bounds {A : Type} (p : A -> bool) (xs : list A) :
  (0 <= Weighter.sum (map (fun r => if p r then 1%R else 0%R) xs)
   <= INR (length xs))%R.
Proof.
  induction xs as [|x xs IH].
  - simpl. lra.
  - change (length (x :: xs)) with (S (length xs)). rewrite S_INR.
    unfold Weighter.sum in *. cbn [map fold_right]. destruct (p x); lra.
Qed.

Lemma indicator_mean_bounds {A : Type} (p : A -> bool) (xs : list A) :
  (0 <= Weighter.mean (map (fun r => if p r then 1%R else 0%R) xs) <= 1)%R.
Proof.
  pose proof (indicator_sum_bounds p xs) as Hs.
  unfold Weighter.mean. rewrite length_map.
  destruct xs as [|x xs].
  - simpl. unfold Rdiv. rewrite Rinv_0. lra.
  - assert (Hpos : (0 < INR (length (x :: xs)))%R) by (apply lt_0_INR; simpl; lia).
    split.
    + apply Rmult_le_pos; [lra|]. left. now apply Rinv_0_lt_compat.
    + apply Rmult_le_reg_r with (INR (length (x :: xs))); [exact Hpos|].
      unfold Rdiv. rewrite Rmult_assoc, Rinv_l by lra. lra.
Qed.

(** Lines 133-184 on well-shaped buffers. *)
Lemma summarize_runs (b : rollout) (l : locals) (s : state W) :
  rollout_shaped cfg b ->
  let eps := Segmenter.episodes_start_end (n_envs cfg) (r_firsts_trajs b) in
  match summarize cfg b l s with
  | Ok lm s' =>
      num_episode_finished (snd lm) = Z.of_nat (length eps) /\
      (0 <= success_rate (snd lm) <= 1)%R /\
      trace s' = trace s ++ (if 0 <? Z.of_nat (length eps) then []
                             else [CLogInfo MsgNoEpisode]) /\
      (eps = [] ->
       fst lm = l /\ avg_episode_reward (snd lm) = 0%R /\
       avg_best_reward (snd lm) = 0%R /\ success_rate (snd lm) = 0%R)
  | Raise e s' =>
      e = Py.OverflowError /\ (1 < Rabs (gamma cfg))%R /\ eps <> [] /\ s' = s
  end /\
  ((Rabs (gamma cfg) <= 1)%R \/ eps = [] ->
   exists lm s', summarize cfg b l s = Ok lm s').
Proof.
  intros Hsh eps. unfold summarize. fold eps.
  destruct (0 <? Z.of_nat (length eps)) eqn:Hlen.
  - assert (Hne : eps <> []) by (intros He; rewrite He in Hlen; discriminate).
    unfold bind at 1 3.
    destruct (checked_segments_cases cfg (r_reward_trajs b) eps s)
      as [->|[-> Hg]].
    2: { split; [auto|]. intros [Hle|He]; [lra | contradiction]. }
    destruct (map_M_np_max
                (map (Returns.segment_column 0%R (r_reward_trajs b)) eps) s)
      as (maxes & E & Hm).
    { apply List.Forall_forall. intros r Hr. apply in_map_iff in Hr.
      destruct Hr as (((e & st) & en) & <- & Hin).
      destruct (segment_returns_length b e st en Hsh Hin)
        as (_ & _ & Hl & _ & H2).
      cbv zeta in Hl, H2. intros Hnil. rewrite Hnil in Hl.
      change (length (@nil R)) with 0%nat in Hl. rewrite <- Hl in H2.
      inversion H2. }
    unfold bind. rewrite E. unfold ret. cbv beta iota. split; [|eauto].
    cbn [snd fst num_episode_finished success_rate]. rewrite length_map.
    split; [reflexivity|]. split.
    + set (best := map (fun m => (m / IZR (act_steps cfg))%R) maxes).
      pose proof (indicator_mean_bounds
                    (fun r => if Rle_dec (best_reward_threshold_for_success cfg) r
                              then true else false) best) as Hb.
      erewrite map_ext; [exact Hb|]. intros r. simpl.
      now destruct (Rle_dec (best_reward_threshold_for_success cfg) r).
    + split; [now rewrite app_nil_r|]. intros He. contradiction.
  - unfold bind, do_call, ret. cbv beta iota. split; [|eauto].
    cbn [snd fst num_episode_finished success_rate avg_episode_reward
             avg_best_reward trace].
    apply Z.ltb_ge in Hlen.
    assert (He : eps = [])
      by (destruct eps; [reflexivity | cbn [length] in Hlen; lia]).
    rewrite He. simpl. repeat split; lra.
Qed.


Lemma nth_map_seq {A : Type} (f : nat -> A) (d : A) (n i : nat) :
  (i < n)%nat -> nth i (map f (seq 0 n)) d = f i.
Proof.
  intros Hi. rewrite (nth_indep _ d (f 0%nat)) by (now rewrite length_map, length_seq).
  rewrite (map_nth f (seq 0 n) 0%nat i). now rewrite seq_nth.
Qed.

Lemma segment_column_steps {A : Type} (d : A) (trajs : list (list A))
    (env_ind : nat) (start end_ : Z) :
  0 <= start <= end_ -> end_ < Z.of_nat (length trajs) ->
  Returns.segment_column d trajs (env_ind, start, end_)
  = map (fun t => at_transition d trajs ((env_ind, start, end_), t))
        (segment_steps (env_ind, start, end_)).
Proof.
  intros H1 H2. apply (nth_ext _ _ d d).
  - rewrite segment_column_length by assumption.
    unfold segment_steps. now rewrite !length_map, length_seq.
  - intros i Hi. rewrite segment_column_length in Hi by assumption.
    rewrite segment_column_nth by assumption.
    unfold segment_steps. rewrite map_map.
    rewrite nth_map_seq by exact Hi. unfold at_transition.
    do 2 f_equal. lia.
Qed.

Lemma map_seq_from {A : Type} (m : nat) : forall (f : nat -> A) (a : nat),
  map f (seq a m) = map (fun j => f (a + j)%nat) (seq 0 m).
Proof.
  induction m as [|m IH]; intros f a; [reflexivity|].
  cbn [seq map]. rewrite Nat.add_0_r. f_equal.
  rewrite <- (seq_shift m 0), map_map, IH. apply map_ext. intros j.
  f_equal. lia.
Qed.

Lemma skipn_map_seq {A : Type} (f : nat -> A) (i : nat) : forall n a : nat,
  skipn i (map f (seq a n)) = map f (seq (a + i) (n - i)).
Proof.
  induction i as [|i IH]; intros n a.
  - now rewrite Nat.add_0_r, Nat.sub_0_r.
  - destruct n as [|n]; [reflexivity|]. cbn [seq map skipn].
    rewrite IH. replace (S a + i)%nat with (a + S i)%nat by lia. reflexivity.
Qed.

Lemma discounted_as_map (g : R) (n : Z) (rs : list R) :
  length rs = Z.to_nat n ->
  Returns.discounted g n rs
  = map (fun k => (g ^ k * nth k rs 0)%R) (seq 0 (Z.to_nat n)).
Proof.
  intros Hl. apply (nth_ext _ _ 0%R 0%R).
  - rewrite discounted_length, length_map, length_seq. lia.
  - intros i Hi. rewrite discounted_length in Hi.
    rewrite discounted_nth by lia. now rewrite nth_map_seq by lia.
Qed.

Lemma segment_returns_steps (g : R) (reward_trajs : list (list R))
    (env_ind : nat) (start end_ : Z) :
  0 <= start <= end_ -> end_ < Z.of_nat (length reward_trajs) ->
  Returns.returns (Returns.segment_discounted g reward_trajs (env_ind, start, end_))
  = map (fun t => return_to_go g reward_trajs ((env_ind, start, end_), t))
        (segment_steps (env_ind, start, end_)).
Proof.
  intros H1 H2.
  pose proof (segment_column_length 0%R reward_trajs env_ind start end_ H1 H2)
    as Hcol.
  set (n := Z.to_nat (end_ - start + 1)) in *.
  unfold Returns.segment_discounted.
  rewrite (discounted_as_map g _ _ Hcol). fold n.
  apply (nth_ext _ _ 0%R 0%R).
  - rewrite returns_length. unfold segment_steps.
    now rewrite !length_map, !length_seq.
  - intros i Hi. rewrite returns_length, length_map, length_seq in Hi.
    rewrite returns_nth. unfold segment_steps. rewrite map_map. fold n.
    rewrite nth_map_seq by exact Hi. unfold return_to_go.
    rewrite (skipn_map_seq _ i n 0). cbn [Nat.add]. rewrite map_seq_from, map_map.
    replace (Z.to_nat (end_ - (start + Z.of_nat i) + 1)) with (n - i)%nat
      by (unfold n; lia).
    f_equal. apply map_ext_in. intros j Hj. apply in_seq in Hj.
    rewrite (segment_column_nth 0%R reward_trajs env_ind start end_ (i + j) H1 H2)
      by (fold n; lia).
    f_equal; [f_equal; lia | do 2 f_equal; lia].
Qed.

Lemma concat_map_map {A B C : Type} (f : A -> list B) (g : A -> list C)
    (h : C -> B) (xs : list A) :
  (forall x, In x xs -> f x = map h (g x)) ->
  concat (map f xs) = map h (flat_map g xs).
Proof.
  induction xs as [|x xs IH]; intros Hf; [reflexivity|].
  cbn [map concat flat_map]. rewrite map_app, Hf by (now left).
  f_equal. apply IH. intros y Hy. apply Hf. now right.
Qed.

(** Lines 135-163: the three arrays the update flattens hold, index by
    index, the observation, the sample and the return of one transition. *)
Lemma summarize_coindexed (b : rollout) (l : locals) (lm : locals * metrics)
    (s s' : state W) :
  rollout_shaped cfg b ->
  summarize cfg b l s = Ok lm s' ->
  let eps := Segmenter.episodes_start_end (n_envs cfg) (r_firsts_trajs b) in
  eps <> [] ->
  exists os ss rs,
    obs_trajs_split (fst lm) = Some os /\
    samples_trajs_split (fst lm) = Some ss /\
    returns_trajs_split (fst lm) = Some rs /\
    length os = length eps /\ length ss = length eps /\
    concat os = map (at_transition [] (r_obs_trajs b)) (transitions eps) /\
    concat ss = map (at_transition [] (r_samples_trajs b)) (transitions eps) /\
    rs = map (return_to_go (gamma cfg) (r_reward_trajs b)) (transitions eps) /\
    (2 * length eps <= length (transitions eps))%nat.
Proof.
  intros Hsh Hs eps Hne. unfold summarize in Hs. fold eps in Hs.
  destruct (0 <? Z.of_nat (length eps)) eqn:Hlen;
    [|apply Z.ltb_ge in Hlen;
      destruct eps; [contradiction | cbn [length] in Hlen; lia]].
  apply bind_inv in Hs. destruct Hs as (ds & s0 & Ed & Hs).
  apply checked_segments_inv in Ed. destruct Ed as [-> ->].
  apply bind_inv in Hs. destruct Hs as (maxes & s1 & _ & Hs).
  injection Hs as <- <-. cbn [fst obs_trajs_split samples_trajs_split
                                  returns_trajs_split].
  assert (Hb : forall e st en, In (e, st, en) eps ->
             0 <= st <= en /\ en < Z.of_nat (n_steps cfg) /\ st < en).
  { intros e st en Hin. destruct Hsh as (_ & _ & _ & Hf & _).
    apply episode_bounds in Hin. rewrite Hf in Hin. lia. }
  destruct Hsh as (Ho & Hsm & Hr & _).
  unfold obs_venv, samples, obs, chunk in Ho, Hsm.
  eexists. eexists. eexists. split; [reflexivity|]. split; [reflexivity|].
  split; [reflexivity|]. rewrite !length_map.
  split; [reflexivity|]. split; [reflexivity|].
  unfold transitions. split; [|split; [|split]].
  - apply (concat_map_map (Returns.segment_column [] (r_obs_trajs b))
             (fun seg => map (fun t => (seg, t)) (segment_steps seg))
             (at_transition [] (r_obs_trajs b))).
    intros [[e st] en] Hin. destruct (Hb e st en Hin) as (H1 & H2 & _).
    rewrite map_map. apply segment_column_steps; [exact H1|]. rewrite Ho. lia.
  - apply (concat_map_map (Returns.segment_column [] (r_samples_trajs b))
             (fun seg => map (fun t => (seg, t)) (segment_steps seg))
             (at_transition [] (r_samples_trajs b))).
    intros [[e st] en] Hin. destruct (Hb e st en Hin) as (H1 & H2 & _).
    rewrite map_map. apply segment_column_steps; [exact H1|]. rewrite Hsm. lia.
  - rewrite map_map.
    apply (concat_map_map
             (fun seg => Returns.returns
                           (Returns.segment_discounted (gamma cfg)
                                                       (r_reward_trajs b) seg))
             (fun seg => map (fun t => (seg, t)) (segment_steps seg))
             (return_to_go (gamma cfg) (r_reward_trajs b))).
    intros [[e st] en] Hin. destruct (Hb e st en Hin) as (H1 & H2 & _).
    rewrite map_map. apply segment_returns_steps; [exact H1|]. rewrite Hr. lia.
  - rewrite flat_map_concat_map.
    apply (concat_map_length_ge
             (fun seg => map (fun t => (seg, t)) (segment_steps seg)) 2).
    intros [[e st] en] Hin. destruct (Hb e st en Hin) as (H1 & H2 & H3).
    unfold segment_steps. rewrite !length_map, length_seq. lia.
Qed.

(** X16.  When at least one episode completed, the three arrays the update
    flattens are bound and have one entry per segment, and they are co-indexed:
    entry [k] of the flattened observations, of the flattened samples and of
    the returns is the observation, the sample and the return of the same
    transition, the [k]-th in the list of all rows of all segments, where the
    return of a transition is the sum of the rewards of its environment from
    its row to the end of its segment, each discounted by its distance from
    the start of the segment.  There are at least two transitions per
    segment. *)
Theorem flat_tensors_coindexed (b : rollout) (l : locals) (lm : locals * metrics)
    (s s' : state W) :
  rollout_shaped cfg b ->
  summarize cfg b l s = Ok lm s' ->
  let eps := Segmenter.episodes_start_end (n_envs cfg) (r_firsts_trajs b) in
  eps <> [] ->
  exists os ss rs,
    obs_trajs_split (fst lm) = Some os /\
    samples_trajs_split (fst lm) = Some ss /\
    returns_trajs_split (fst lm) = Some rs /\
    length os = length eps /\ length ss = length eps /\
    concat os = map (at_transition [] (r_obs_trajs b)) (transitions eps) /\
    concat ss = map (at_transition [] (r_samples_trajs b)) (transitions eps) /\
    rs = map (return_to_go (gamma cfg) (r_reward_trajs b)) (transitions eps) /\
    (2 * length eps <= length (transitions eps))%nat.
Proof. exact (summarize_coindexed b l lm s s'). Qed.

End Coindexed.

(** *** Calls of the update *)

Lemma NoDup_slice {A : Type} (l : list A) (a b : Z) :
  List.NoDup l -> List.NoDup (Py.slice l a b).
Proof.
  intros Hnd. unfold Py.slice.
  set (n := Z.to_nat (_ - _)). set (lo := Z.to_nat _).
  assert (Hs : List.NoDup (skipn lo l)).
  { rewrite <- (firstn_skipn lo l) in Hnd. now apply NoDup_app_remove_l in Hnd. }
  rewrite <- (firstn_skipn n (skipn lo l)) in Hs. now apply NoDup_app_remove_r in Hs.
Qed.

Section UpdateCalls.
Context {W : Type} `{Collaborators W}.
Variable cfg : config.

Section Epoch.
Variables (obs_k : list obs) (samples_k : list chunk) (rks : list R).
Hypothesis obs_len : length obs_k = length rks.
Hypothesis samples_len : length samples_k = length rks.

Lemma update_batch_calls (inds_k : list nat) (batch : Z) (loss_ : option R)
    (s : state W) :
  List.Forall (fun i => (i < length rks)%nat) inds_k ->
  List.NoDup inds_k ->
  exists ls s' c,
    update_batch cfg obs_k samples_k rks inds_k batch loss_ s = Ok (Some ls) s' /\
    trace s' = trace s ++ c :: after_loss cfg /\
    call_name c = "model.loss" /\
    coindexed_loss obs_k samples_k rks c /\
    result_file s' = result_file s.
Proof.
  intros Hvalid Hnd. unfold update_batch.
  pose proof (inds_b_valid cfg rks inds_k Hvalid batch) as Hv.
  assert (Hvo : List.Forall (fun i => (i < length obs_k)%nat)
                  (Minibatch.inds_b (batch_size cfg) inds_k batch)).
  { eapply List.Forall_impl; [|exact Hv]. intros i Hi. simpl in Hi. lia. }
  assert (Hvs : List.Forall (fun i => (i < length samples_k)%nat)
                  (Minibatch.inds_b (batch_size cfg) inds_k batch)).
  { eapply List.Forall_impl; [|exact Hv]. intros i Hi. simpl in Hi. lia. }
  rewrite (bind_Ok _ _ _ _ _ (take_inds_ok [] obs_k _ s Hvo)).
  rewrite (bind_Ok _ _ _ _ _ (take_inds_ok [] samples_k _ s Hvs)).
  rewrite (bind_Ok _ _ _ _ _ (take_inds_ok 0%R rks _ s Hv)).
  unfold bind, ask, do_call, ret, after_loss. cbn [world trace result_file fst snd].
  destruct (max_grad_norm cfg); cbn [world trace result_file];
    eexists; eexists; eexists; (split; [reflexivity|]);
    rewrite <- !app_assoc; (split; [reflexivity|]);
    (split; [reflexivity|]); (split; [|reflexivity]);
    exists (Minibatch.inds_b (batch_size cfg) inds_k batch);
    (split; [apply NoDup_slice, Hnd|]); (split; [exact Hv|]); repeat split.
Qed.

Lemma update_batches_calls (inds_k : list nat) (ks : list Z) :
  List.Forall (fun i => (i < length rks)%nat) inds_k ->
  List.NoDup inds_k ->
  forall (loss_ : option R) (s : state W),
  exists loss' s' evs,
    for_each ks (update_batch cfg obs_k samples_k rks inds_k) loss_ s
    = Ok loss' s' /\
    trace s' = trace s ++ evs /\
    map call_name evs = concat (repeat (batch_names cfg) (length ks)) /\
    List.Forall (coindexed_loss obs_k samples_k rks) evs /\
    result_file s' = result_file s /\
    (ks <> [] -> is_Some loss').
Proof.
  intros Hvalid Hnd. induction ks as [|k ks IH]; intros loss_ s.
  - exists loss_, s, []. rewrite app_nil_r. repeat split; auto. congruence.
  - destruct (update_batch_calls inds_k k loss_ s Hvalid Hnd)
      as (ls & s1 & c & E1 & Ht1 & Hn1 & Hc1 & Hf1).
    cbn [for_each]. rewrite (bind_Ok _ _ _ _ _ E1).
    destruct (IH (Some ls) s1) as (loss' & s' & e2 & E2 & Ht2 & Hn2 & Hc2 & Hf2 & Hl2).
    exists loss', s', ((c :: after_loss cfg) ++ e2). split; [exact E2|].
    split; [rewrite Ht2, Ht1, <- app_assoc; reflexivity|].
    split.
    { rewrite map_app. cbn [length repeat concat map]. rewrite Hn2, Hn1. reflexivity. }
    split.
    { apply List.Forall_app. split; [|exact Hc2]. constructor; [exact Hc1|].
      unfold after_loss. destruct (max_grad_norm cfg); repeat constructor. }
    split; [congruence|]. intros _.
    destruct ks as [|k' ks].
    + simpl in E2. injection E2 as <- _. eauto.
    + apply Hl2. discriminate.
Qed.

Lemma update_epoch_calls (epoch : Z) (inds_k : list nat) (loss_ : option R)
    (s : state W) :
  batch_size cfg <> 0 ->
  Permutation (seq 0 (length rks)) inds_k ->
  exists inds' loss' s' evs,
    update_epoch cfg obs_k samples_k rks (Z.of_nat (length rks)) epoch
                 (inds_k, loss_) s = Ok (inds', loss') s' /\
    Permutation (seq 0 (length rks)) inds' /\
    trace s' = trace s ++ evs /\
    map call_name evs = epoch_names cfg (Z.of_nat (length rks)) /\
    List.Forall (coindexed_loss obs_k samples_k rks) evs /\
    result_file s' = result_file s /\
    is_Some loss'.
Proof.
  intros Hb Hperm. unfold update_epoch. cbn [fst snd].
  unfold bind at 1. unfold ask at 1. cbn [fst snd].
  set (inds' := fst (shuffle inds_k (world s))).
  assert (Hperm' : Permutation (seq 0 (length rks)) inds').
  { eapply Permutation_trans; [exact Hperm | apply shuffle_perm]. }
  assert (Hvalid : List.Forall (fun i => (i < length rks)%nat) inds').
  { apply List.Forall_forall. intros i Hin.
    apply (Permutation_in _ (Permutation_sym Hperm')) in Hin.
    apply in_seq in Hin. lia. }
  assert (Hnd : List.NoDup inds').
  { eapply Permutation_NoDup; [exact Hperm' | apply seq_NoDup]. }
  unfold Minibatch.num_batch, Py.floordiv.
  destruct (Z.eqb_spec (batch_size cfg) 0); [contradiction|].
  unfold lift, bind at 1, ret at 1.
  set (nb := Z.max 1 (Z.of_nat (length rks) / batch_size cfg)).
  edestruct (update_batches_calls inds' (Py.range nb) Hvalid Hnd)
    as (loss' & s' & evs & E & Ht & Hn & Hc & Hf & Hl).
  rewrite (bind_Ok _ _ _ _ _ E). unfold ret.
  exists inds', loss', s', (CShuffle inds_k :: evs).
  split; [reflexivity|]. split; [exact Hperm'|].
  split; [rewrite Ht; cbn [trace]; rewrite <- app_assoc; reflexivity|].
  split.
  { cbn [map call_name]. rewrite Hn. unfold epoch_names, Py.range.
    now rewrite length_map, length_seq. }
  split; [constructor; [exact I | exact Hc]|].
  split; [rewrite Hf; reflexivity|].
  apply Hl. unfold Py.range. intros Hnil. apply (f_equal (@length Z)) in Hnil.
  rewrite length_map, length_seq in Hnil. simpl in Hnil. unfold nb in Hnil. lia.
Qed.

Lemma update_epochs_calls (epochs : list Z) :
  batch_size cfg <> 0 ->
  forall (inds_k : list nat) (loss_ : option R) (s : state W),
  Permutation (seq 0 (length rks)) inds_k ->
  exists st s' evs,
    for_each epochs (update_epoch cfg obs_k samples_k rks (Z.of_nat (length rks)))
             (inds_k, loss_) s = Ok st s' /\
    trace s' = trace s ++ evs /\
    map call_name evs
    = concat (repeat (epoch_names cfg (Z.of_nat (length rks))) (length epochs)) /\
    List.Forall (coindexed_loss obs_k samples_k rks) evs /\
    result_file s' = result_file s /\
    (epochs <> [] -> is_Some (snd st)) /\
    (epochs = [] -> snd st = loss_ /\ s' = s).
Proof.
  intros Hb. induction epochs as [|ep epochs IH]; intros inds_k loss_ s Hperm.
  - exists (inds_k, loss_), s, []. rewrite app_nil_r. repeat split; auto. congruence.
  - destruct (update_epoch_calls ep inds_k loss_ s Hb Hperm)
      as (inds' & loss' & s1 & e1 & E1 & Hp1 & Ht1 & Hn1 & Hc1 & Hf1 & Hl1).
    cbn [for_each]. rewrite (bind_Ok _ _ _ _ _ E1).
    destruct (IH inds' loss' s1 Hp1)
      as (st & s' & e2 & E2 & Ht2 & Hn2 & Hc2 & Hf2 & Hl2 & Hl2').
    exists st, s', (e1 ++ e2). split; [exact E2|].
    split; [rewrite Ht2, Ht1, <- app_assoc; reflexivity|].
    split; [rewrite map_app, Hn1, Hn2; reflexivity|].
    split; [apply List.Forall_app; split; assumption|].
    split; [congruence|]. split; [|discriminate].
    intros _. destruct epochs as [|ep' epochs].
    + destruct (Hl2' eq_refl) as [-> _]. exact Hl1.
    + apply Hl2. discriminate.
Qed.
End Epoch.

(** Lines 187-248 on co-indexed arrays. *)
Lemma update_runs (l : locals) (s : state W)
    (os : list (list obs)) (ss : list (list chunk)) (rs : list R) :
  obs_trajs_split l = Some os ->
  samples_trajs_split l = Some ss ->
  returns_trajs_split l = Some rs ->
  os <> [] -> ss <> [] ->
  length (concat os) = length rs ->
  length (concat ss) = length rs ->
  batch_size cfg <> 0 ->
  exists l' s' evs,
    update cfg l s = Ok l' s' /\
    trace s' = trace s ++ evs /\
    map call_name evs = update_names cfg (Z.of_nat (length rs)) /\
    List.Forall (coindexed_loss (concat os) (concat ss)
                   (Weighter.weights (beta cfg) (max_reward_weight cfg) rs)) evs /\
    result_file s' = result_file s /\
    returns_trajs_split l' = Some (Weighter.normalize rs) /\
    obs_trajs_split l' = Some os /\ samples_trajs_split l' = Some ss /\
    same_log l l' /\
    (0 < update_epochs cfg -> is_Some (loss l')) /\
    (update_epochs cfg <= 0 -> loss l' = loss l /\ s' = s).
Proof.
  intros Ho Hs Hr Hos Hss Hlo Hls Hb. unfold update.
  rewrite Ho, Hs, Hr. unfold read_local. unfold bind at 1, ret at 1.
  destruct os as [|o os']; [contradiction|].
  unfold np_concatenate at 1. unfold bind at 1, ret at 1.
  unfold bind at 1, ret at 1.
  destruct ss as [|c ss']; [contradiction|].
  unfold np_concatenate at 1. unfold bind at 1, ret at 1.
  unfold bind at 1, ret at 1.
  set (rks := Weighter.rewards_k_scaled (beta cfg) (max_reward_weight cfg)
                (Weighter.normalize rs)).
  assert (Hlen : length rks = length rs).
  { unfold rks, Weighter.rewards_k_scaled, Weighter.normalize.
    now rewrite !length_map. }
  destruct (update_epochs_calls (concat (o :: os')) (concat (c :: ss')) rks
              ltac:(congruence) ltac:(congruence) (Py.range (update_epochs cfg)) Hb
              (seq 0 (length rks)) (loss l) s (Permutation_refl _))
    as (st & s' & evs & E & Ht & Hn & Hc & Hf & Hl & Hl').
  rewrite (bind_Ok _ _ _ _ _ E). unfold ret.
  eexists. exists s', evs. split; [reflexivity|].
  cbn [returns_trajs_split obs_trajs_split samples_trajs_split loss itr run_results].
  split; [exact Ht|]. split.
  { rewrite Hn. unfold update_names, Py.range.
    now rewrite length_map, length_seq, Hlen. }
  split; [exact Hc|]. split; [exact Hf|].
  split; [reflexivity|]. split; [reflexivity|]. split; [reflexivity|].
  split; [split; reflexivity|]. split.
  - intros Hpos. apply Hl. unfold Py.range. intros Hnil.
    apply (f_equal (@length Z)) in Hnil.
    rewrite length_map, length_seq in Hnil. simpl in Hnil. lia.
  - intros Hle. apply Hl'. unfold Py.range.
    replace (Z.to_nat (update_epochs cfg)) with 0%nat by lia. reflexivity.
Qed.

(** X17.  On co-indexed arrays and a non-zero batch size the update never
    raises.  Its calls are, for each of [update_epochs] epochs, one shuffle
    followed by [max(1, total_steps // batch_size)] minibatches of [model.loss],
    [zero_grad], [backward], the optional gradient clipping and
    [optimizer.step]; the three arguments of every [model.loss] call are the
    rows of the three arrays at one list of distinct valid indices; the results
    file is not touched; the stored returns are replaced by the normalised
    returns; [loss] is bound afterwards when there is at least one epoch, and
    with no epoch nothing is called and [loss] is unchanged. *)
Theorem update_call_sequence (l : locals) (s : state W)
    (os : list (list obs)) (ss : list (list chunk)) (rs : list R) :
  obs_trajs_split l = Some os ->
  samples_trajs_split l = Some ss ->
  returns_trajs_split l = Some rs ->
  os <> [] -> ss <> [] ->
  length (concat os) = length rs ->
  length (concat ss) = length rs ->
  batch_size cfg <> 0 ->
  exists l' s' evs,
    update cfg l s = Ok l' s' /\
    trace s' = trace s ++ evs /\
    map call_name evs = update_names cfg (Z.of_nat (length rs)) /\
    List.Forall (coindexed_loss (concat os) (concat ss)
                   (Weighter.weights (beta cfg) (max_reward_weight cfg) rs)) evs /\
    result_file s' = result_file s /\
    returns_trajs_split l' = Some (Weighter.normalize rs) /\
    obs_trajs_split l' = Some os /\ samples_trajs_split l' = Some ss /\
    same_log l l' /\
    (0 < update_epochs cfg -> is_Some (loss l')) /\
    (update_epochs cfg <= 0 -> loss l' = loss l /\ s' = s).
Proof. exact (update_runs l s os ss rs). Qed.

End UpdateCalls.

(** *** The minibatches of an epoch are disjoint *)

Lemma NoDup_firstn {A : Type} (n : nat) (l : list A) :
  List.NoDup l -> List.NoDup (firstn n l).
Proof.
  intros Hnd. rewrite <- (firstn_skipn n l) in Hnd.
  now apply NoDup_app_remove_r in Hnd.
Qed.

(** X22.  The minibatches of one epoch: a zero batch size raises
    [ZeroDivisionError]; for every other batch size, negative ones included,
    there is at least one minibatch, the minibatches hold only indices of the
    shuffled array, and when those are distinct no index occurs twice in the
    epoch, neither within a minibatch nor in two of them. *)
Theorem epoch_batches_disjoint {A : Type} (batch_size : Z) (inds_k : list A) :
  let total_steps := Z.of_nat (length inds_k) in
  (batch_size = 0 ->
   Minibatch.epoch_batches total_steps batch_size inds_k
   = inl Py.ZeroDivisionError) /\
  (batch_size <> 0 ->
   exists batches,
     Minibatch.epoch_batches total_steps batch_size inds_k = inr batches /\
     batches <> [] /\
     (forall i, In i (concat batches) -> In i inds_k) /\
     (List.NoDup inds_k -> List.NoDup (concat batches))).
Proof.
  intros total_steps. split.
  - intros ->. reflexivity.
  - intros Hb. destruct (Z.lt_total batch_size 0) as [Hneg|[Hz|Hpos]];
      [|contradiction|].
    + assert (Hq : total_steps / batch_size <= 0).
      { pose proof (Z_mult_div_ge_neg total_steps batch_size Hneg).
        assert (0 <= total_steps) by (unfold total_steps; lia). nia. }
      unfold Minibatch.epoch_batches, Minibatch.num_batch, Py.floordiv.
      destruct (Z.eqb_spec batch_size 0); [contradiction|].
      rewrite Z.max_l by lia. change (Py.range 1) with [0]. cbn [map].
      eexists. split; [reflexivity|]. split; [discriminate|].
      cbn [concat]. rewrite app_nil_r. unfold Minibatch.inds_b. split.
      * intros i Hi. eapply In_slice, Hi.
      * apply NoDup_slice.
    + destruct (epoch_batches_spec batch_size inds_k Hpos)
        as (batches & E & Hn & _ & Hcat).
      exists batches. split; [exact E|]. split; [|split].
      * intros ->. simpl in Hn. lia.
      * rewrite Hcat. intros i Hi. eapply In_firstn_l, Hi.
      * rewrite Hcat. apply NoDup_firstn.
Qed.

Lemma epoch_batches_disjoint_witness :
  exists batches,
    Minibatch.epoch_batches 5 2 [4; 0; 3; 1; 2]%nat = inr batches /\
    List.NoDup (concat batches).
Proof.
  destruct (epoch_batches_disjoint 2 [4; 0; 3; 1; 2]%nat) as [_ Hok].
  destruct Hok as (batches & E & _ & _ & Hnd); [discriminate|].
  exists batches. split; [exact E|]. apply Hnd.
  repeat constructor; simpl; intuition discriminate.
Defined.

(** *** Outcome of the epilogue *)

Section EpilogueOutcome.
Context {W : Type} `{Collaborators W}.
Variable cfg : config.

Lemma log_eval_returns (m : metrics) (l : locals) (xs : list (gmap string value))
    (d : gmap string value) (s : state W) :
  exists d' s', log_eval cfg m l (xs ++ [d]) s = Ok (xs ++ [d']) s'.
Proof.
  unfold log_eval, bind, do_call.
  destruct (use_wandb cfg); unfold ret; cbv beta iota;
    rewrite set_last_snoc; cbv beta iota;
    rewrite set_last_snoc; cbv beta iota;
    rewrite set_last_snoc; eauto.
Qed.

Lemma log_train_returns (m : metrics) (l : locals) (xs : list (gmap string value))
    (d : gmap string value) (s : state W) :
  is_Some (loss l) ->
  exists d' s', log_train cfg m l (xs ++ [d]) s = Ok (xs ++ [d']) s'.
Proof.
  intros [ls Hl]. unfold log_train, bind, do_call, ask, read_local. rewrite Hl.
  destruct (use_wandb cfg); unfold ret; cbv beta iota;
    rewrite set_last_snoc; cbv beta iota;
    rewrite set_last_snoc; eauto.
Qed.

Lemma log_train_unbound (m : metrics) (l : locals) (rr : list (gmap string value))
    (s : state W) :
  loss l = None ->
  log_train cfg m l rr s = Raise (Py.UnboundLocalError "loss") s.
Proof. intros Hl. unfold log_train, bind, read_local. now rewrite Hl. Qed.

(** Lines 250-300: when the epilogue completes and when it stops at the
    read of [loss]. *)
Lemma epilogue_cases (eval_mode : bool) (m : metrics) (l : locals)
    (s : state W) :
  save_model_freq cfg <> 0 -> log_freq cfg <> 0 ->
  (eval_mode = false -> itr l mod log_freq cfg = 0 -> loss l = None ->
   exists s',
     finish_iteration cfg eval_mode m l s
     = Raise (Py.UnboundLocalError "loss") s' /\
     trace s' = trace s ++ [CLrSchedulerStep]
                ++ (if saves_model cfg (itr l) then [CSaveModel] else []) /\
     result_file s' = result_file s) /\
  (eval_mode = true \/ itr l mod log_freq cfg <> 0 \/ is_Some (loss l) ->
   exists l' s', finish_iteration cfg eval_mode m l s = Ok l' s').
Proof.
  intros Hs Hl. unfold finish_iteration, Py.mod_, saves_model.
  destruct (Z.eqb_spec (save_model_freq cfg) 0); [contradiction|].
  destruct (Z.eqb_spec (log_freq cfg) 0); [contradiction|].
  split.
  - intros -> Hm Hloss. rewrite Hm.
    unfold bind, do_call, lift, ret. cbn [world trace result_file].
    destruct (_ || _); cbn [Z.eqb world trace result_file];
      rewrite (log_train_unbound m l _ _ Hloss);
      eexists; (split; [reflexivity|]); cbn [trace result_file];
      rewrite <- ?app_assoc; split; reflexivity.
  - intros Hcase.
    unfold bind at 1. unfold do_call at 1. unfold bind at 1.
    unfold lift at 1, ret at 1. unfold bind at 1.
    match goal with
    | |- context [(if ?c then do_call CSaveModel else ret tt) ?s0] =>
        assert (Hsv : exists s1, (if c then do_call CSaveModel else ret tt) s0
                                 = Ok tt s1)
          by (destruct c; eexists; reflexivity);
        destruct Hsv as (s1 & ->)
    end.
    unfold bind at 1. unfold lift at 1, ret at 1.
    destruct (Z.eqb_spec (itr l mod log_freq cfg) 0) as [Hm|Hm].
    + assert (Hlog : exists d' s2,
                 (if eval_mode
                  then log_eval cfg m l (run_results l ++ [<["itr" := VInt (itr l)]> ∅])
                  else log_train cfg m l (run_results l ++ [<["itr" := VInt (itr l)]> ∅]))
                   s1 = Ok (run_results l ++ [d']) s2).
      { destruct eval_mode; [apply log_eval_returns|].
        apply log_train_returns. destruct Hcase as [Hc|[Hc|Hc]];
          [discriminate | contradiction | exact Hc]. }
      destruct Hlog as (d' & s2 & E).
      unfold bind at 1. unfold bind at 1. rewrite E.
      unfold bind at 1. unfold ask at 1. cbn [fst snd].
      unfold bind at 1. rewrite set_last_snoc.
      unfold bind, pickle_dump, ret. eauto.
    + unfold bind, ret. eauto.
Qed.

(** X18.  With non-zero [save_model_freq] and [log_freq] the epilogue stops in
    exactly one case: a logging iteration in train mode on which [loss] is
    unbound raises [UnboundLocalError] for [loss], after the scheduler step and
    the checkpoint and before the results file is written; in evaluation mode,
    on a non-logging iteration, or with [loss] bound it completes. *)
Theorem epilogue_outcome (eval_mode : bool) (m : metrics) (l : locals)
    (s : state W) :
  save_model_freq cfg <> 0 -> log_freq cfg <> 0 ->
  (eval_mode = false -> itr l mod log_freq cfg = 0 -> loss l = None ->
   exists s',
     finish_iteration cfg eval_mode m l s
     = Raise (Py.UnboundLocalError "loss") s' /\
     trace s' = trace s ++ [CLrSchedulerStep]
                ++ (if saves_model cfg (itr l) then [CSaveModel] else []) /\
     result_file s' = result_file s) /\
  (eval_mode = true \/ itr l mod log_freq cfg <> 0 \/ is_Some (loss l) ->
   exists l' s', finish_iteration cfg eval_mode m l s = Ok l' s').
Proof. exact (epilogue_cases eval_mode m l s). Qed.

End EpilogueOutcome.

(** *** The results file over a run *)

Lemma mod_abs_zero (a f : Z) : a mod f = 0 <-> a mod Z.abs f = 0.
Proof.
  destruct (Z.eq_dec f 0) as [->|Hf]; [reflexivity|].
  rewrite !Z.mod_divide by lia. symmetry. apply Z.divide_abs_l.
Qed.

Lemma mod_succ (a p : Z) :
  0 < p -> (a + 1) mod p <> 0 -> (a + 1) mod p = a mod p + 1.
Proof.
  intros Hp Hne.
  pose proof (Z.mod_pos_bound a p Hp) as Hb.
  destruct (Z.eq_dec (a mod p + 1) p) as [He|He].
  - exfalso. apply Hne. rewrite <- Zplus_mod_idemp_l.
    rewrite He. apply Z_mod_same_full.
  - rewrite <- Zplus_mod_idemp_l. apply Z.mod_small. lia.
Qed.

Section ResultsFile.
Context {W : Type} `{Collaborators W}.
Variable cfg : config.

Lemma iteration_file (l l' : locals) (s s' : state W) :
  run_iteration cfg l s = Ok l' s' ->
  log_freq cfg <> 0 /\ itr l' = itr l + 1 /\
  (exists record, run_results l' = run_results l ++ [record]) /\
  if itr l mod log_freq cfg =? 0
  then result_file s' = Some (run_results l')
  else result_file s' = result_file s.
Proof.
  intros Hr. apply run_iteration_inv in Hr.
  destruct Hr as (m & l2 & s2 & [Hi Hrr] & Hext & Hv & Hf).
  apply extends_no_dump in Hext. destruct Hext as (Hfile & _).
  apply finish_iteration_inv in Hf.
  destruct Hf as (Hlog & Hitr & record & evs2 & Hres & _ & _ & Hcase).
  rewrite Hi in *. rewrite Hrr in *.
  split; [exact Hlog|]. split; [exact Hitr|]. split; [eauto|].
  destruct (itr l mod log_freq cfg =? 0).
  - tauto.
  - destruct Hcase as (_ & Hf2 & _). congruence.
Qed.

Lemma iteration_file_lags (lo : Z) (l l' : locals) (s s' : state W) :
  run_iteration cfg l s = Ok l' s' ->
  file_lags cfg lo l s -> file_lags cfg lo l' s'.
Proof.
  intros Hr Hinv. apply iteration_file in Hr.
  destruct Hr as (Hlog & Hitr & (record & Hres) & Hcase).
  unfold file_lags in *. rewrite Hitr.
  replace (itr l + 1 - 1) with (itr l) by lia.
  destruct (Z.eqb_spec (itr l mod log_freq cfg) 0) as [Hm|Hm].
  - rewrite Hcase. exists []. rewrite app_nil_r. split; [reflexivity|].
    apply mod_abs_zero in Hm. rewrite Hm. reflexivity.
  - rewrite Hcase. destruct (result_file s) as [rr|].
    + destruct Hinv as (rest & Hrest & Hlen). exists (rest ++ [record]).
      split; [rewrite Hres, Hrest, app_assoc; reflexivity|].
      rewrite length_app, Nat2Z.inj_add, Hlen. cbn [length].
      replace (itr l) with (itr l - 1 + 1) at 2 by lia.
      rewrite mod_succ; [lia | lia |].
      replace (itr l - 1 + 1) with (itr l) by lia.
      now rewrite <- mod_abs_zero.
    + intros k Hk. destruct (Z.eq_dec k (itr l)) as [->|Hne]; [exact Hm|].
      apply Hinv. lia.
Qed.

Lemma run_loop_file_lags (lo : Z) (n : nat) :
  forall (l l' : locals) (s s' : state W),
    run_loop cfg n l s = Ok l' s' ->
    file_lags cfg lo l s -> file_lags cfg lo l' s'.
Proof.
  induction n as [|n IH]; intros l l' s s' Hr Hinv; simpl in Hr.
  - injection Hr as <- <-. exact Hinv.
  - apply bind_inv in Hr. destruct Hr as (l1 & s1 & E & Hr).
    eapply IH; [exact Hr|]. eapply iteration_file_lags; eassumption.
Qed.

(** X19.  Over a run that starts without a results file: if the file exists at
    the end, it holds a prefix of the in-memory list, and the records missing
    from it are exactly those of the iterations after the last logging
    iteration, [(itr - 1) mod |log_freq|] many, fewer than [|log_freq|]; if it
    does not exist, no iteration of the run was a logging iteration. *)
Theorem results_file_lags (itr0 : Z) (l' : locals) (s s' : state W) :
  run cfg itr0 s = Ok l' s' ->
  result_file s = None ->
  match result_file s' with
  | Some rr =>
      exists rest,
        run_results l' = rr ++ rest /\
        Z.of_nat (length rest) = (itr l' - 1) mod Z.abs (log_freq cfg) /\
        (itr0 < n_train_itr cfg -> Z.of_nat (length rest) < Z.abs (log_freq cfg))
  | None => forall k, itr0 <= k < itr l' -> k mod log_freq cfg <> 0
  end.
Proof.
  intros Hr Hnone. unfold run in Hr.
  assert (Hinv : file_lags cfg itr0 (initial_locals cfg itr0) s).
  { unfold file_lags. rewrite Hnone. simpl. intros k Hk. lia. }
  pose proof (run_loop_file_lags itr0 _ _ _ _ _ Hr Hinv) as Hfin.
  unfold file_lags in Hfin.
  destruct (result_file s') as [rr|]; [|exact Hfin].
  destruct Hfin as (rest & Hrest & Hlen). exists rest.
  split; [exact Hrest|]. split; [exact Hlen|]. intros Hlt.
  destruct (Z.to_nat (n_train_itr cfg - itr0)) as [|n] eqn:En; [lia|].
  simpl in Hr. apply bind_inv in Hr. destruct Hr as (l1 & s1 & E & _).
  apply iteration_file in E. destruct E as (Hlog & _).
  rewrite Hlen. apply Z.mod_pos_bound. lia.
Qed.

End ResultsFile.

Lemma results_file_lags_witness :
  exists l' s' rr rest,
    run sparse_log_cfg 0 (start [[0]; [1]; [0]; [0]; [1]; [0]]) = Ok l' s' /\
    result_file s' = Some rr /\
    run_results l' = rr ++ rest /\ length rest = 1%nat.
Proof.
  destruct (run sparse_log_cfg 0 (start [[0]; [1]; [0]; [0]; [1]; [0]]))
    as [l' s'|e s'] eqn:E; [|exfalso; vm_compute in E; discriminate E].
  pose proof (results_file_lags sparse_log_cfg 0 l' _ s' E eq_refl) as Hf.
  destruct (result_file s') as [rr|] eqn:Er.
  - destruct Hf as (rest & Hrest & Hlen & _).
    exists l', s', rr, rest. split; [reflexivity|]. split; [exact Er|].
    split; [exact Hrest|].
    vm_compute in E. injection E as <- _.
    change (Z.of_nat (length rest) = 1) in Hlen. lia.
  - exfalso. apply (Hf 0); [|reflexivity].
    vm_compute in E. injection E as <- _. simpl. lia.
Defined.


Lemma flat_tensors_coindexed_witness :
  exists lm s' os rs,
    summarize train_cfg toy_rollout (initial_locals train_cfg 0) (start [])
    = Ok lm s' /\
    obs_trajs_split (fst lm) = Some os /\
    returns_trajs_split (fst lm) = Some rs /\
    concat os = map (at_transition [] (r_obs_trajs toy_rollout))
                    (transitions [(0%nat, 0, 1)]) /\
    rs = map (return_to_go 1 (r_reward_trajs toy_rollout))
             (transitions [(0%nat, 0, 1)]).
Proof.
  destruct (summarize train_cfg toy_rollout (initial_locals train_cfg 0) (start []))
    as [lm s'|e s'] eqn:E; [|exfalso; vm_compute in E; discriminate E].
  destruct (flat_tensors_coindexed train_cfg toy_rollout
              (initial_locals train_cfg 0) lm (start []) s')
    as (os & ss & rs & Ho & _ & Hr & _ & _ & Hos & _ & Hrs & _).
  - unfold rollout_shaped. repeat split; repeat constructor.
  - exact E.
  - discriminate.
  - exists lm, s', os, rs. split; [reflexivity|]. split; [exact Ho|].
    split; [exact Hr|]. split; [exact Hos | exact Hrs].
Defined.

Lemma update_call_sequence_witness :
  exists l' s',
    update train_cfg toy_locals (start []) = Ok l' s' /\
    map call_name (trace s')
    = ["np.random.shuffle"; "model.loss"; "optimizer.zero_grad"; "loss.backward";
       "optimizer.step"] /\
    is_Some (loss l').
Proof.
  destruct (update_call_sequence train_cfg toy_locals (start [])
              [[toy_obs; toy_obs]] [[toy_chunk; toy_chunk]] [2%R; 1%R])
    as (l' & s' & evs & E & Ht & Hn & _ & _ & _ & _ & _ & _ & Hl & _);
    try reflexivity; try discriminate.
  exists l', s'. split; [exact E|]. split.
  - rewrite Ht. exact Hn.
  - apply Hl. reflexivity.
Defined.

Lemma epilogue_outcome_witness :
  exists s',
    finish_iteration train_cfg false zero_metrics (initial_locals train_cfg 0)
                     (start [])
    = Raise (Py.UnboundLocalError "loss") s' /\
    trace s' = [CLrSchedulerStep; CSaveModel].
Proof.
  destruct (epilogue_outcome train_cfg false zero_metrics
              (initial_locals train_cfg 0) (start []))
    as [Hraise _]; [discriminate | discriminate |].
  destruct (Hraise eq_refl eq_refl eq_refl) as (s' & E & Ht & _).
  exists s'. split; [exact E | exact Ht].
Defined.

(** *** Outcomes under the collaborator contract *)

Section Yields.
Context {W : Type} `{Collaborators W}.
Variable good : W -> Prop.

Local Abbreviation yields := (Contract.yields good).

Lemma yields_ret {A : Type} (E : Py.exn -> Prop) (Q : A -> Prop) (a : A) :
  Q a -> yields E Q (ret a).
Proof. intros Hq s Hg. simpl. auto. Qed.

Lemma yields_raise {A : Type} (E : Py.exn -> Prop) (Q : A -> Prop) (e : Py.exn) :
  E e -> yields E Q (raise (A := A) e).
Proof. intros He s Hg. exact He. Qed.

Lemma yields_bind {A B : Type} (E : Py.exn -> Prop) (Q : A -> Prop)
    (R : B -> Prop) (m : M W A) (k : A -> M W B) :
  yields E Q m -> (forall a, Q a -> yields E R (k a)) -> yields E R (bind m k).
Proof.
  intros Hm Hk s Hg. specialize (Hm s Hg). unfold bind.
  destruct (m s) as [a s1|e s1]; [|exact Hm].
  destruct Hm as [Hg1 Hq]. exact (Hk a Hq s1 Hg1).
Qed.

Lemma yields_weaken {A : Type} (E E' : Py.exn -> Prop) (Q Q' : A -> Prop)
    (m : M W A) :
  yields E Q m -> (forall e, E e -> E' e) -> (forall a, Q a -> Q' a) ->
  yields E' Q' m.
Proof.
  intros Hm He Hq s Hg. specialize (Hm s Hg).
  destruct (m s) as [a s1|e s1]; [|auto]. destruct Hm. auto.
Qed.

Lemma yields_ask {A : Type} (E : Py.exn -> Prop) (Q : A -> Prop) (c : call)
    (op : W -> A * W) :
  (forall w, good w -> Q (fst (op w)) /\ good (snd (op w))) ->
  yields E Q (ask c op).
Proof. intros Hop s Hg. unfold ask. simpl. destruct (Hop _ Hg). auto. Qed.

Lemma yields_for_each {A S : Type} (E : Py.exn -> Prop) (Inv : S -> Prop)
    (body : A -> S -> M W S) (l : list A) :
  (forall x st, In x l -> Inv st -> yields E Inv (body x st)) ->
  forall s0, Inv s0 -> yields E Inv (for_each l body s0).
Proof.
  induction l as [|x l IH]; intros Hb s0 H0.
  - now apply yields_ret.
  - cbn [for_each]. eapply yields_bind.
    + apply Hb; [now left | exact H0].
    + intros st Hst. apply IH; [|exact Hst].
      intros y st' Hy. apply Hb. now right.
Qed.

Lemma yields_lift_mod (E : Py.exn -> Prop) (a b : Z) :
  b <> 0 -> yields E (fun r => r = a mod b) (lift (Py.mod_ a b)).
Proof.
  intros Hb s Hg. unfold Py.mod_.
  destruct (Z.eqb_spec b 0); [contradiction|]. simpl. auto.
Qed.

Lemma yields_Ok {A : Type} (E : Py.exn -> Prop) (Q : A -> Prop) (m : M W A)
    (s s' : state W) (a : A) :
  yields E Q m -> good (world s) -> m s = Ok a s' -> good (world s') /\ Q a.
Proof. intros Hm Hg Eq. specialize (Hm s Hg). now rewrite Eq in Hm. Qed.

Variable cfg : config.
Hypothesis Hws : well_shaped cfg good.

Lemma yields_do_call (E : Py.exn -> Prop) (c : call) :
  yields E (fun _ => True) (do_call c).
Proof. intros s Hg. simpl. split; [|exact I]. now apply (ws_notify cfg good Hws). Qed.

Lemma yields_pickle_dump (E : Py.exn -> Prop) (rr : list (gmap string value)) :
  yields E (fun _ => True) (pickle_dump rr).
Proof. intros s Hg. simpl. split; [|exact I]. now apply (ws_notify cfg good Hws). Qed.

(** A computation that does not touch the world. *)
Lemma yields_pure {A : Type} (m : M W A) :
  (forall s, match m s with Ok _ s' => s' = s | Raise _ _ => True end) ->
  yields (fun _ => True) (fun _ => True) m.
Proof.
  intros Hp s Hg. specialize (Hp s). destruct (m s) as [a s'|e s']; [|exact I].
  subst s'. auto.
Qed.

Lemma map_M_pure {A B : Type} (f : A -> M W B) (l : list A) :
  (forall x s, match f x s with Ok _ s' => s' = s | Raise _ _ => True end) ->
  forall s, match map_M f l s with Ok _ s' => s' = s | Raise _ _ => True end.
Proof.
  intros Hf. induction l as [|x l IH]; intros s; [reflexivity|].
  cbn [map_M]. unfold bind at 1. specialize (Hf x s).
  destruct (f x s) as [y s1|e s1]; [|exact I]. subst s1.
  unfold bind at 1. specialize (IH s).
  destruct (map_M f l s) as [ys s2|e s2]; [|exact I]. exact IH.
Qed.

Lemma take_inds_pure {A : Type} (xs : list A) (inds : list nat) (s : state W) :
  match take_inds xs inds s with Ok _ s' => s' = s | Raise _ _ => True end.
Proof.
  unfold take_inds. apply map_M_pure. intros i s0.
  destruct (nth_error xs i); simpl; auto.
Qed.

Lemma set_last_pure (key : string) (v : value) (rr : list (gmap string value))
    (s : state W) :
  match set_last key v rr s with Ok _ s' => s' = s | Raise _ _ => True end.
Proof. unfold set_last. destruct (rev rr); simpl; auto. Qed.

Ltac ybind := eapply yields_bind with (Q := fun _ => True); [|intros ? _].

(** *** The update and the epilogue keep the world good *)

Lemma good_update_batch (obs_k : list obs) (samples_k : list chunk)
    (rks : list R) (inds_k : list nat) (batch : Z) (loss_ : option R) :
  yields (fun _ => True) (fun _ => True)
         (update_batch cfg obs_k samples_k rks inds_k batch loss_).
Proof.
  unfold update_batch.
  ybind; [apply yields_pure, take_inds_pure|].
  ybind; [apply yields_pure, take_inds_pure|].
  ybind; [apply yields_pure, take_inds_pure|].
  ybind; [apply yields_ask; intros w Hg; split;
          [exact I | now apply (ws_loss cfg good Hws)]|].
  ybind; [apply yields_do_call|].
  ybind; [apply yields_do_call|].
  ybind; [destruct (max_grad_norm cfg);
          [apply yields_do_call | now apply yields_ret]|].
  ybind; [apply yields_do_call|].
  now apply yields_ret.
Qed.

Lemma good_update (l : locals) :
  yields (fun _ => True) (fun _ => True) (update cfg l).
Proof.
  unfold update.
  ybind; [apply yields_pure; intros s; destruct (obs_trajs_split l); simpl; auto|].
  ybind; [apply yields_pure; intros s;
          match goal with |- context [np_concatenate ?x] => destruct x end;
          simpl; auto|].
  ybind; [apply yields_pure; intros s; destruct (samples_trajs_split l);
          simpl; auto|].
  ybind; [apply yields_pure; intros s;
          match goal with |- context [np_concatenate ?x] => destruct x end;
          simpl; auto|].
  ybind; [apply yields_pure; intros s; destruct (returns_trajs_split l);
          simpl; auto|].
  ybind; [|now apply yields_ret].
  apply yields_for_each with (Inv := fun _ => True); [|exact I].
  intros ep st _ _. unfold update_epoch.
  ybind; [apply yields_ask; intros w Hg; split;
          [exact I | now apply (ws_shuffle cfg good Hws)]|].
  ybind; [apply yields_pure; intros s;
          destruct (Minibatch.num_batch _ _); simpl; auto|].
  ybind; [|now apply yields_ret].
  apply yields_for_each with (Inv := fun _ => True); [|exact I].
  intros k lo _ _. apply good_update_batch.
Qed.

Lemma good_finish_iteration (eval_mode : bool) (m : metrics) (l : locals) :
  yields (fun _ => True) (fun _ => True) (finish_iteration cfg eval_mode m l).
Proof.
  assert (Hwb : forall c : call,
             yields (fun _ => True) (fun _ : unit => True)
                    (if use_wandb cfg then do_call c else ret tt)).
  { intros c. destruct (use_wandb cfg);
      [apply yields_do_call | now apply yields_ret]. }
  unfold finish_iteration.
  ybind; [apply yields_do_call|].
  ybind; [apply yields_pure; intros s; destruct (Py.mod_ _ _); simpl; auto|].
  ybind; [destruct (_ || _); [apply yields_do_call | now apply yields_ret]|].
  ybind; [apply yields_pure; intros s; destruct (Py.mod_ _ _); simpl; auto|].
  ybind; [|now apply yields_ret].
  destruct (_ =? 0); [|now apply yields_ret].
  ybind.
  { destruct eval_mode.
    - unfold log_eval.
      ybind; [apply yields_do_call|].
      ybind; [apply Hwb|].
      ybind; [apply yields_pure, set_last_pure|].
      ybind; [apply yields_pure, set_last_pure|].
      apply yields_pure, set_last_pure.
    - unfold log_train.
      ybind; [apply yields_pure; intros s; destruct (loss l); simpl; auto|].
      ybind; [apply yields_ask; intros w Hg; split;
              [exact I | now apply (ws_timer cfg good Hws)]|].
      ybind; [apply yields_do_call|].
      ybind; [apply Hwb|].
      ybind; [apply yields_pure, set_last_pure|].
      apply yields_pure, set_last_pure. }
  ybind; [apply yields_ask; intros w Hg; split;
          [exact I | now apply (ws_timer cfg good Hws)]|].
  ybind; [apply yields_pure, set_last_pure|].
  ybind; [apply yields_pickle_dump|].
  now apply yields_ret.
Qed.

End Yields.

Section Totality.
Context {W : Type} `{Collaborators W}.
Variable good : W -> Prop.
Variable cfg : config.
Hypothesis Hws : well_shaped cfg good.

Local Abbreviation yields := (Contract.yields good).

Lemma shape3_length {A : Type} (n m k : nat) (x : list (list (list A))) :
  shape3 n m k x = true -> length x = n.
Proof.
  unfold shape3. intros Hs. apply andb_prop in Hs. destruct Hs as [Hl _].
  now apply Nat.eqb_eq in Hl.
Qed.

Lemma prepare_options_length (itr_ : Z) (s : state W) :
  render_freq cfg <> 0 -> (n_render cfg <= n_envs cfg)%nat ->
  exists o, prepare_options cfg itr_ s = Ok o s /\ length o = n_envs cfg.
Proof.
  intros Hr Hn. unfold prepare_options, Py.mod_.
  destruct (Z.eqb_spec (render_freq cfg) 0); [contradiction|].
  unfold bind at 1. simpl.
  destruct ((_ =? 0) && render_video cfg).
  - destruct (set_video_paths_ok itr_ s (n_render cfg) 0
                (repeat (∅ : gmap string video_path) (n_envs cfg))) as (o & Ho & Hl).
    { rewrite repeat_length. lia. }
    exists o. split; [exact Ho|]. now rewrite Hl, repeat_length.
  - eexists. split; [reflexivity|]. apply repeat_length.
Qed.

Lemma yields_begin_rollout (eval_mode : bool)
    (o : list (gmap string video_path)) (l : locals) :
  length o = n_envs cfg -> ready cfg l ->
  yields (fun e => e = Py.UnboundLocalError "last_itr_eval" /\
                   reset_at_iteration cfg = false /\ eval_mode = false /\
                   last_itr_eval l = None)
         (rollout_ready cfg) (begin_rollout cfg eval_mode o l).
Proof.
  intros Hlo (Hd & Hprev & _) s Hg.
  destruct (ws_reset cfg good Hws o (world s) Hg Hlo) as [Hsh Hg'].
  unfold begin_rollout, reset_decision.
  destruct (reset_at_iteration cfg) eqn:Hr; [|destruct eval_mode];
    [| |destruct (last_itr_eval l) as [[|]|] eqn:Hl];
    unfold bind, ret, ask, read_local, raise; cbv beta iota zeta;
    cbn [fst snd world].
  1-3: split; [exact Hg'|]; split; [exact Hd|]; eauto.
  - unfold broadcast_row. rewrite Hd, Nat.eqb_refl.
    unfold ret. split; [exact Hg|]. split; [exact Hd|].
    cbn [r_prev_obs_venv]. apply Hprev. eauto.
  - auto.
Qed.

Lemma yields_collect_step (eval_mode : bool) (step : nat) (b : rollout) :
  rollout_ready cfg b ->
  yields (fun _ => False) (rollout_ready cfg) (collect_step cfg eval_mode step b).
Proof.
  intros (Hd & prev & Hp & Hsh). unfold collect_step. rewrite Hp.
  eapply yields_bind with (Q := fun _ => True).
  { destruct (_ =? 0); [now apply yields_do_call with (cfg := cfg)|].
    now apply yields_ret. }
  intros _ _. unfold read_local.
  eapply yields_bind with (Q := fun p => p = prev); [now apply yields_ret|].
  intros ? ->.
  eapply yields_bind with (Q := samples_shaped cfg).
  { apply yields_ask. intros w Hg. now apply (ws_forward cfg good Hws). }
  intros smp Hsmp. unfold obs_shaped in Hsh. rewrite Hsh.
  eapply yields_bind with (Q := fun _ => True); [now apply yields_ret|].
  intros obs_t _. unfold samples_shaped in Hsmp. rewrite Hsmp.
  eapply yields_bind with (Q := fun _ => True); [now apply yields_ret|].
  intros smp_t _.
  eapply yields_bind
    with (Q := fun res : obs_venv * list R * list Z =>
                 obs_shaped cfg (fst (fst res)) /\
                 length (snd (fst res)) = n_envs cfg /\
                 length (snd res) = n_envs cfg).
  { apply yields_ask. intros w Hg.
    destruct (ws_step cfg good Hws
                (map (fun c => Py.slice_to c (act_steps cfg)) smp) w Hg)
      as (H1 & H2 & H3 & H4).
    { rewrite length_map. eapply shape3_length, Hsmp. }
    auto. }
  intros [[o r] d] (Ho & Hr & Hd'). cbn [fst snd] in Ho, Hr, Hd'.
  unfold shape1. rewrite Hr, Nat.eqb_refl.
  eapply yields_bind with (Q := fun _ => True); [now apply yields_ret|].
  intros rew_t _. unfold broadcast_row. rewrite Hd', Nat.eqb_refl.
  eapply yields_bind with (Q := fun _ => True); [now apply yields_ret|].
  intros row _. apply yields_ret. split; [exact Hd'|]. eauto.
Qed.

Lemma yields_collect (eval_mode : bool) (b : rollout) :
  rollout_ready cfg b ->
  yields (fun _ => False) (rollout_ready cfg) (collect cfg eval_mode b).
Proof.
  intros Hb. unfold collect. apply yields_for_each; [|exact Hb].
  intros step b' _ Hb'. now apply yields_collect_step.
Qed.

Lemma np_max_pure (r : list R) (s : state W) :
  match np_max r s with Ok _ s' => s' = s | Raise _ _ => True end.
Proof. destruct r; simpl; auto. Qed.

Lemma summarize_cases (b : rollout) (l : locals) (lm : locals * metrics)
    (s s' : state W) :
  summarize cfg b l s = Ok lm s' ->
  let eps := Segmenter.episodes_start_end (n_envs cfg) (r_firsts_trajs b) in
  (eps = [] /\ fst lm = l /\
   world s' = notify (CLogInfo MsgNoEpisode) (world s)) \/
  (eps <> [] /\ s' = s /\ itr (fst lm) = itr l /\
   run_results (fst lm) = run_results l).
Proof.
  intros Hs eps. unfold summarize in Hs. fold eps in Hs.
  destruct (0 <? Z.of_nat (length eps)) eqn:Hlen.
  - right. apply bind_inv in Hs. destruct Hs as (ds & s0 & Ed & Hs).
    apply checked_segments_inv in Ed. destruct Ed as [_ ->].
    apply bind_inv in Hs. destruct Hs as (maxes & s1 & E & Hs).
    pose proof (map_M_pure np_max
                  (map (Returns.segment_column 0%R (r_reward_trajs b)) eps)
                  np_max_pure s) as Hp.
    rewrite E in Hp. subst s1. injection Hs as <- <-.
    split; [|auto]. intros He. rewrite He in Hlen. discriminate.
  - left. apply Z.ltb_ge in Hlen.
    assert (He : eps = [])
      by (destruct eps; [reflexivity | cbn [length] in Hlen; lia]).
    unfold bind, do_call, ret in Hs. injection Hs as <- <-. auto.
Qed.

End Totality.

Section Outcomes.
Context {W : Type} `{Collaborators W}.
Variable good : W -> Prop.
Variable cfg : config.
Hypothesis Hws : well_shaped cfg good.

Lemma splits_coindexed_eq (l l' : locals) :
  obs_trajs_split l' = obs_trajs_split l ->
  samples_trajs_split l' = samples_trajs_split l ->
  returns_trajs_split l' = returns_trajs_split l ->
  splits_coindexed l -> splits_coindexed l'.
Proof. unfold splits_coindexed. now intros -> -> ->. Qed.

Lemma ready_after (b : rollout) (l' : locals) :
  rollout_ready cfg b ->
  done_venv l' = r_done_venv b ->
  prev_obs_venv l' = r_prev_obs_venv b ->
  splits_coindexed l' ->
  ready cfg l'.
Proof.
  intros (Hd & prev & Hp & Hsh) Hd' Hp' Hco.
  split; [now rewrite Hd'|]. split; [|exact Hco].
  intros _. exists prev. now rewrite Hp', Hp.
Qed.

Lemma iteration_cases (l : locals) (s : state W) :
  valid_config cfg -> ready cfg l -> good (world s) ->
  match run_iteration cfg l s with
  | Ok l' s' => good (world s') /\ ready cfg l' /\ itr l' = itr l + 1
  | Raise e s' =>
      (e = Py.OverflowError /\ (1 < Rabs (gamma cfg))%R) \/
      (eval_mode_at cfg (itr l) = false /\ unbound_read cfg l e)
  end.
Proof.
  intros (Hrf & Hvf & Hsf & Hlf & Hnr & Hbs) Hready Hg.
  unfold run_iteration, eval_mode_at.
  destruct (prepare_options_length cfg (itr l) s Hrf Hnr) as (o & Eo & Hlo).
  rewrite (bind_Ok _ _ _ _ _ Eo).
  unfold bind at 1. rewrite eval_mode_of_eq.
  destruct (Z.eqb_spec (val_freq cfg) 0); [contradiction|].
  remember ((itr l mod val_freq cfg =? 0) && negb (force_train cfg)) as em eqn:Hem.
  unfold bind at 1. unfold do_call at 1.
  match goal with
  | |- context [bind (begin_rollout cfg em o l) _ ?s0] => set (s1 := s0)
  end.
  assert (Hg1 : good (world s1)) by (apply (ws_notify cfg good Hws); exact Hg).
  pose proof (yields_begin_rollout good cfg Hws em o l Hlo Hready s1 Hg1) as Hb.
  unfold bind at 1.
  destruct (begin_rollout cfg em o l s1) as [b0 s2|e s2] eqn:Eb.
  2: { destruct Hb as (-> & Hr & Hem' & Hl). right. split; [exact Hem'|].
       left. auto. }
  destruct Hb as [Hg2 Hb0].
  pose proof (yields_collect good cfg Hws em b0 Hb0 s2 Hg2) as Hc.
  unfold bind at 1.
  destruct (collect cfg em b0 s2) as [b s3|e s3] eqn:Ec; [|contradiction].
  destruct Hc as [Hg3 Hbr].
  destruct (collect_shaped cfg em o l b0 b s1 s2 s3 Eb Ec) as [Hshaped _].
  match goal with
  | |- context [summarize cfg b ?x] => set (l1 := x)
  end.
  pose proof (summarize_runs cfg b l1 s3 Hshaped) as Hsum. cbv zeta in Hsum.
  destruct Hsum as [Hsum _]. unfold bind at 1.
  destruct (summarize cfg b l1 s3) as [lm s4|e s4] eqn:Es; [|left; tauto].
  clear Hsum.
  pose proof (summarize_cases cfg b l1 lm s3 s4 Es) as Hcases.
  destruct (summarize_keeps cfg b l1 lm s3 s4 Es) as (Hk1 & Hk2 & Hk3 & Hk4).
  cbn [l1 last_itr_eval prev_obs_venv done_venv loss] in Hk1, Hk2, Hk3, Hk4.
  assert (Hg4 : good (world s4)).
  { destruct Hcases as [(_ & _ & ->)|(_ & -> & _)];
      [apply (ws_notify cfg good Hws)|]; assumption. }
  assert (Hitr : itr (fst lm) = itr l /\ run_results (fst lm) = run_results l).
  { destruct Hcases as [(_ & -> & _)|(_ & _ & Hi)]; [split; reflexivity | exact Hi]. }
  assert (Hco : splits_coindexed (fst lm) /\
                (obs_trajs_split (fst lm) = None -> obs_trajs_split l = None)).
  { destruct Hcases as [(_ & -> & _)|(Hne & _)].
    - split; [|auto]. destruct Hready as (_ & _ & Hco).
      eapply splits_coindexed_eq; [| | |exact Hco]; reflexivity.
    - destruct (summarize_coindexed cfg b l1 lm s3 s4 Hshaped Es Hne)
        as (os & ss & rs & Ho & Hs & Hr & Hlo' & Hls & H1 & H2 & H3 & _).
      unfold splits_coindexed. rewrite Ho, Hs, Hr.
      split; [|discriminate].
      split; [|split; [|split; rewrite ?H1, ?H2, H3, !length_map; reflexivity]].
      + intros ->. simpl in Hlo'. symmetry in Hlo'.
        apply length_zero_iff_nil in Hlo'. contradiction.
      + intros ->. simpl in Hls. symmetry in Hls.
        apply length_zero_iff_nil in Hls. contradiction. }
  clear Hcases. destruct Hco as [Hco Hnone].
  destruct em.
  - (* evaluation *)
    unfold bind at 1. unfold ret at 1.
    destruct (epilogue_cases cfg true (snd lm) (fst lm) s4 Hsf Hlf) as [_ Hok].
    destruct (Hok (or_introl eq_refl)) as (l' & s5 & Ef). rewrite Ef.
    pose proof (good_finish_iteration good cfg Hws true (snd lm) (fst lm) s4 Hg4)
      as Hg5. rewrite Ef in Hg5. destruct Hg5 as [Hg5 _].
    destruct (finish_keeps cfg _ _ _ _ _ _ Ef)
      as (F1 & F2 & F3 & F4 & F5 & F6 & F7).
    apply finish_iteration_inv in Ef. destruct Ef as (_ & Hi' & _).
    split; [exact Hg5|]. split; [|lia].
    apply (ready_after b); [exact Hbr | congruence | congruence|].
    eapply splits_coindexed_eq; [exact F4 | exact F5 | exact F6 | exact Hco].
  - (* training *)
    destruct (obs_trajs_split (fst lm)) as [os|] eqn:Ho.
    2: { rewrite (bind_Raise _ _ _ _ _ (update_unbound cfg _ s4 Ho)).
         right. split; [reflexivity|]. right. left. auto. }
    unfold splits_coindexed in Hco. rewrite Ho in Hco.
    destruct (samples_trajs_split (fst lm)) as [ss|] eqn:Hs; [|contradiction].
    destruct (returns_trajs_split (fst lm)) as [rs|] eqn:Hr; [|contradiction].
    destruct Hco as (Hos & Hss & Hlo' & Hls).
    destruct (update_runs cfg (fst lm) s4 os ss rs Ho Hs Hr Hos Hss Hlo' Hls Hbs)
      as (l2 & s5 & evs & Eu & _ & _ & _ & _ & U1 & U2 & U3 & [U4 U5] & U6 & U7).
    rewrite (bind_Ok _ _ _ _ _ Eu).
    pose proof (good_update good cfg Hws (fst lm) s4 Hg4) as Hg5.
    rewrite Eu in Hg5. destruct Hg5 as [Hg5 _].
    destruct (update_keeps cfg _ _ _ _ Eu) as (K1 & K2 & K3).
    destruct (epilogue_cases cfg false (snd lm) l2 s5 Hsf Hlf) as [Hraise Hok].
    assert (Hfin : itr l2 mod log_freq cfg <> 0 \/ is_Some (loss l2) ->
              match finish_iteration cfg false (snd lm) l2 s5 with
              | Ok l' s' => good (world s') /\ ready cfg l' /\ itr l' = itr l + 1
              | Raise e _ =>
                  (e = Py.OverflowError /\ (1 < Rabs (gamma cfg))%R) \/
                  (false = false /\ unbound_read cfg l e)
              end).
    { intros Hc. destruct Hok as (l' & s6 & Ef); [right; exact Hc|]. rewrite Ef.
      pose proof (good_finish_iteration good cfg Hws false (snd lm) l2 s5 Hg5)
        as Hg6. rewrite Ef in Hg6. destruct Hg6 as [Hg6 _].
      destruct (finish_keeps cfg _ _ _ _ _ _ Ef)
        as (F1 & F2 & F3 & F4 & F5 & F6 & F7).
      apply finish_iteration_inv in Ef. destruct Ef as (_ & Hi' & _).
      split; [exact Hg6|]. split; [|destruct Hitr; lia].
      apply (ready_after b); [exact Hbr | congruence | congruence|].
      unfold splits_coindexed. rewrite F4, F5, F6, U1, U2, U3.
      unfold Weighter.normalize. rewrite length_map. auto. }
    destruct (Z.eq_dec (itr l2 mod log_freq cfg) 0) as [Hm|Hm];
      [|apply Hfin; left; exact Hm].
    destruct (loss l2) as [ls|] eqn:Hloss; [apply Hfin; right; eauto|].
    destruct (Hraise eq_refl Hm eq_refl) as (s6 & Ef & _). rewrite Ef.
    right. split; [reflexivity|]. right. right. split; [reflexivity|].
    assert (Hep : update_epochs cfg <= 0).
    { destruct (Z.le_gt_cases (update_epochs cfg) 0) as [Hle|Hgt]; [exact Hle|].
      destruct (U6 ltac:(lia)) as [x Hx]. discriminate Hx. }
    split; [exact Hep|]. destruct (U7 Hep) as [Hl2 _].
    split; [congruence|]. destruct Hitr as [Hi _]. congruence.
Qed.

End Outcomes.

Section RunOutcomes.
Context {W : Type} `{Collaborators W}.
Variable good : W -> Prop.
Variable cfg : config.
Hypothesis Hws : well_shaped cfg good.
Hypothesis Hvalid : valid_config cfg.

Lemma ready_initial (itr0 : Z) : ready cfg (initial_locals cfg itr0).
Proof.
  split; [apply repeat_length|]. split; [|exact I].
  intros [x Hx]. discriminate Hx.
Qed.

Lemma run_loop_cases (n : nat) : forall (l : locals) (s : state W),
  ready cfg l -> good (world s) ->
  match run_loop cfg n l s with
  | Ok l' s' => good (world s') /\ ready cfg l' /\ itr l' = itr l + Z.of_nat n
  | Raise e s' =>
      (e = Py.OverflowError /\ (1 < Rabs (gamma cfg))%R) \/
      exists l0, itr l <= itr l0 < itr l + Z.of_nat n /\
                 eval_mode_at cfg (itr l0) = false /\ unbound_read cfg l0 e
  end.
Proof.
  induction n as [|n IH]; intros l s Hr Hg.
  - simpl. split; [exact Hg|]. split; [exact Hr | lia].
  - cbn [run_loop]. unfold bind.
    pose proof (iteration_cases good cfg Hws l s Hvalid Hr Hg) as Hit.
    destruct (run_iteration cfg l s) as [l1 s1|e s1].
    + destruct Hit as (Hg1 & Hr1 & Hi1).
      specialize (IH l1 s1 Hr1 Hg1).
      destruct (run_loop cfg n l1 s1) as [l' s'|e s'].
      * destruct IH as (Hg' & Hr' & Hi'). split; [exact Hg'|].
        split; [exact Hr' | lia].
      * destruct IH as [Hov|(l0 & Hk & He)]; [now left | right].
        exists l0. split; [lia | exact He].
    + destruct Hit as [Hov|Hit]; [now left | right].
      exists l. split; [lia | exact Hit].
Qed.



End RunOutcomes.

Lemma toy_well_shaped (val_freq_ : Z) (force_train_ reset_at_iteration_ : bool)
    (batch_size_ log_freq_ : Z) :
  well_shaped (config_ val_freq_ force_train_ reset_at_iteration_ batch_size_
                       log_freq_) toy_good.
Proof.
  assert (Hobs : forall {A : Type} (xs : list A),
             length xs = 1%nat ->
             shape3 1 1 1 (map (fun _ => toy_obs) xs) = true).
  { intros A [|x [|y xs]] Hl; try discriminate Hl. reflexivity. }
  assert (Hchunk : forall {A : Type} (xs : list A),
             length xs = 1%nat ->
             shape3 1 2 1 (map (fun _ => toy_chunk) xs) = true).
  { intros A [|x [|y xs]] Hl; try discriminate Hl. reflexivity. }
  constructor; cbn [notify reset_env_all model_forward venv_step model_loss
                    shuffle timer toy fst snd]; auto.
  - intros opts w Hg Hl. split; [|exact Hg]. apply Hobs. exact Hl.
  - intros cond d w Hg Hc. split; [|exact Hg]. apply Hchunk.
    eapply shape3_length, Hc.
  - intros a w Hg Hl. unfold toy_good in Hg.
    destruct w as [|d w]; cbn [fst snd].
    + split; [apply Hobs, Hl|]. rewrite !length_map. auto.
    + inversion Hg; subst. split; [apply Hobs, Hl|]. rewrite !length_map. auto.
Qed.


